(** * Collaboration socket handlers of the document server

    A shallow embedding of [src/websockets/collaborationHandler.ts]: the two
    process-wide maps ([documentRooms], [autoSaveTimers]), the socket event
    handlers registered by [setupCollaborationSocket], the helper
    [handleUserLeave], and the part of the environment the handlers talk to
    (socket.io rooms, the timer queue of the event loop, and the calls made on
    the [Document] model).

    Conventions.
    - A JavaScript [Map] is an insertion-ordered association list with
      unique keys ([JsMap]); [Array.from(m.values())] is its value list.
    - A handler is a function from the world to a new world and the list of
      effects it performed, in order (a small state-and-output monad).
    - What the environment decides (the answer of a store call,
      [Math.random], the moment a timer fires, the moment an awaited promise
      settles) is carried by the event that triggers the step.
    - An [async] handler whose continuation after [await] only reads the
      session state is one step, taken when the promise settles.  The
      auto-save timer callback writes to [autoSaveTimers] after its [await], so
      it is two steps: [TimerFire] (up to the [await]) and
      [AutoSaveSettled] (the continuation).
    - The transport is socket.io 4.  A connection is put in a room named by
      its own [socket.id] when it connects, [socket.to(room)] reaches the
      members of [room] that are not in the room named by the sender's id,
      and a closing connection has left all its rooms by the time
      ['disconnect'] is emitted.  [socket.leave] is given whatever the client
      sent as [documentId], the sender's own id included.
    - A [socket.id] has twenty characters; [Document.findById] resolves
      only for an id that casts to an [ObjectId] (twenty-four hexadecimal
      digits, or twelve bytes), which no [socket.id] does.
    - [logger] calls are not modelled.

    The file also embeds the connection middleware ([io.use]) with the
    token helpers of [utils/jwt] it calls, where [jwt.verify] is a function
    given from outside, and the access logic of the document routes
    ([GET], [PUT], [DELETE /:id], [POST /:id/share], [POST /]), where the
    answers of the store and of the validator are inputs of each route. *)

From Stdlib Require Import List String Bool Arith NArith Lia.
Import ListNotations.
Open Scope string_scope.
Open Scope list_scope.

Set Implicit Arguments.

(** ** JavaScript [Map] with string keys *)

Module JsMap.
Section WithValue.
Variable V : Type.

Definition t := list (string * V).

Definition empty : t := [].

Fixpoint get (m : t) (k : string) : option V :=
match m with
| [] => None
| (k', v) :: rest => if String.eqb k' k then Some v else get rest k
end.

Definition has (m : t) (k : string) : bool :=
match get m k with Some _ => true | None => false end.

(** [m.set(k, v)]: an existing key keeps its position. *)
Fixpoint set (m : t) (k : string) (v : V) : t :=
match m with
| [] => [(k, v)]
| (k', v') :: rest =>
    if String.eqb k' k then (k, v) :: rest else (k', v') :: set rest k v
end.

Definition delete (m : t) (k : string) : t :=
filter (fun e => negb (String.eqb (fst e) k)) m.

Definition keys (m : t) : list string := map fst m.
Definition values (m : t) : list V := map snd m.
Definition size (m : t) : nat := List.length m.
End WithValue.
Arguments empty {V}.
End JsMap.

(** ** Data of the handler module *)

Record SocketUser := mkSocketUser {
  socketId : string;
  userId : string;
  userName : string;
  color : string
}.

Record DocumentRoom := mkDocumentRoom {
  room_documentId : string;
  users : JsMap.t SocketUser
}.

(** A timer handle as returned by [setTimeout]. *)
Definition TimeoutHandle := nat.

Record DocumentAutoSave := mkDocumentAutoSave {
  save_documentId : string;
  save_content : string;
  timeout : TimeoutHandle
}.

Definition AUTO_SAVE_DEBOUNCE_MS : N := 30000.

Definition colors : list string :=
  [ "#FF6B6B"; "#4ECDC4"; "#45B7D1"; "#FFA07A";
    "#98D8C8"; "#F7DC6F"; "#BB8FCE"; "#85C1E2" ].

(** [colors[Math.floor(Math.random() * colors.length)]]; [rnd] stands for the
    draw, reduced to an index of the palette. *)
Definition generateUserColor (rnd : nat) : string :=
  nth (rnd mod List.length colors) colors "#FF6B6B".

(** ** The environment *)

(** The connected socket a handler closes over: [socket.id] and
    [socket.data.user.id] (the [userId] constant of the connection). *)
Record Socket := mkSocket {
  socket_id : string;
  socket_user : string
}.

(** The fields of a stored document that the handlers read
    ([owner.toString()] and each [c.user.toString()]). *)
Record StoredDocument := mkStoredDocument {
  owner : string;
  collaborators : list string
}.

(** How the promise of [Document.findById] settles. *)
Inductive FindResult :=
| FindResolved (document : option StoredDocument)
| FindRejected.

(** How the promise of [Document.findByIdAndUpdate] settles. *)
Inductive UpdateResult :=
| UpdateResolved
| UpdateRejected.

(** The opaque edit payload ([delta: any]), relayed and never inspected. *)
Definition Delta := string.

(** Events sent to clients. *)
Inductive ServerEvent :=
| EvError (message : string)
| EvUserJoined (uid uname ucolor : string)
| EvUsersList (currentUsers : list SocketUser)
| EvUserLeft (uid uname : string)
| EvTextChange (delta : Delta) (content : string) (uid : string)
| EvCursorMove (uid uname ucolor : string) (position : N)
| EvDocumentSaved (success : bool) (timestamp : option N).

(** What a handler does to the outside, in order. *)
Inductive Effect :=
| Emit (recipient : string) (ev : ServerEvent)
| StoreFind (documentId : string)
| StoreUpdate (documentId : string) (content : string).

(** The closure of the debounced callback: what it captured. *)
Record AutoSaveJob := mkAutoSaveJob {
  job_documentId : string;
  job_content : string;
  job_userId : string
}.

Record Timer := mkTimer {
  timer_handle : TimeoutHandle;
  timer_deadline : N;
  timer_job : AutoSaveJob
}.

Record World := mkWorld {
  documentRooms : JsMap.t DocumentRoom;
  autoSaveTimers : JsMap.t DocumentAutoSave;
  (** socket.io room membership, as (room, socket id), in join order *)
  sioRooms : list (string * string);
  (** armed timers of the event loop *)
  timers : list Timer;
  nextHandle : TimeoutHandle;
  (** timer callbacks suspended at their [await] *)
  suspended : list (TimeoutHandle * AutoSaveJob);
  (** the clock, in milliseconds *)
  now : N
}.

Definition initial : World :=
  mkWorld JsMap.empty JsMap.empty [] [] 0 [] 0.

Definition with_documentRooms (w : World) (r : JsMap.t DocumentRoom) : World :=
  mkWorld r (autoSaveTimers w) (sioRooms w) (timers w) (nextHandle w)
          (suspended w) (now w).

Definition with_autoSaveTimers (w : World) (a : JsMap.t DocumentAutoSave) : World :=
  mkWorld (documentRooms w) a (sioRooms w) (timers w) (nextHandle w)
          (suspended w) (now w).

Definition with_sioRooms (w : World) (s : list (string * string)) : World :=
  mkWorld (documentRooms w) (autoSaveTimers w) s (timers w) (nextHandle w)
          (suspended w) (now w).

Definition with_timers (w : World) (ts : list Timer) : World :=
  mkWorld (documentRooms w) (autoSaveTimers w) (sioRooms w) ts (nextHandle w)
          (suspended w) (now w).

Definition with_suspended (w : World) (s : list (TimeoutHandle * AutoSaveJob)) : World :=
  mkWorld (documentRooms w) (autoSaveTimers w) (sioRooms w) (timers w)
          (nextHandle w) s (now w).

Definition with_now (w : World) (t : N) : World :=
  mkWorld (documentRooms w) (autoSaveTimers w) (sioRooms w) (timers w)
          (nextHandle w) (suspended w) t.

(** ** The handler monad *)

Record Outcome (A : Type) := mkOutcome {
  value : A;
  world : World;
  effects : list Effect
}.

Definition Handler (A : Type) : Type := World -> Outcome A.

Definition ret {A} (a : A) : Handler A := fun w => mkOutcome a w [].

Definition bind {A B} (m : Handler A) (f : A -> Handler B) : Handler B :=
  fun w =>
    let r1 := m w in
    let r2 := f (value r1) (world r1) in
    mkOutcome (value r2) (world r2) (effects r1 ++ effects r2).

Declare Scope handler_scope.
Delimit Scope handler_scope with handler.
Notation "x <- m ;; k" := (bind m (fun x => k))
  (at level 61, m at next level, right associativity) : handler_scope.
Notation "m ;; k" := (bind m (fun _ => k))
  (at level 61, right associativity) : handler_scope.
Open Scope handler_scope.

Definition gets {A} (f : World -> A) : Handler A := fun w => mkOutcome (f w) w [].
Definition modify (f : World -> World) : Handler unit :=
  fun w => mkOutcome tt (f w) [].
Definition perform (e : list Effect) : Handler unit :=
  fun w => mkOutcome tt w e.

(** *** socket.io *)

Definition members (rooms : list (string * string)) (room : string) : list string :=
  map snd (filter (fun p => String.eqb (fst p) room) rooms).

Definition in_room (rooms : list (string * string)) (room sid : string) : bool :=
  existsb (fun p => String.eqb (fst p) room && String.eqb (snd p) sid) rooms.

(** [socket.join(room)] *)
Definition socket_join (socket : Socket) (room : string) : Handler unit :=
  modify (fun w =>
    if in_room (sioRooms w) room (socket_id socket) then w
    else with_sioRooms w (sioRooms w ++ [(room, socket_id socket)])).

(** [socket.leave(room)] *)
Definition socket_leave (socket : Socket) (room : string) : Handler unit :=
  modify (fun w =>
    with_sioRooms w
      (filter (fun p => negb (String.eqb (fst p) room && String.eqb (snd p) (socket_id socket)))
              (sioRooms w))).

(** [socket.emit(ev)] *)
Definition socket_emit (socket : Socket) (ev : ServerEvent) : Handler unit :=
  perform [Emit (socket_id socket) ev].

(** [socket.leave(room)] for every room of the socket, as socket.io does when
    the connection closes. *)
Definition socket_leave_all (socket : Socket) : Handler unit :=
  modify (fun w =>
    with_sioRooms w
      (filter (fun p => negb (String.eqb (snd p) (socket_id socket))) (sioRooms w))).

(** The sockets reached by [socket.to(room)]: the members of [room], except
    those of the room named by the sender's own id. *)
Definition audience (w : World) (socket : Socket) (room : string) : list string :=
  filter (fun sid =>
            negb (existsb (String.eqb sid) (members (sioRooms w) (socket_id socket))))
         (members (sioRooms w) room).

(** [socket.to(room).emit(ev)] *)
Definition socket_to_emit (socket : Socket) (room : string) (ev : ServerEvent) : Handler unit :=
  fun w => mkOutcome tt w (map (fun sid => Emit sid ev) (audience w socket room)).

(** *** The Document model *)

Definition Document_findById (documentId : string) (answer : FindResult) : Handler FindResult :=
  fun w => mkOutcome answer w [StoreFind documentId].

Definition Document_findByIdAndUpdate (documentId content : string) : Handler unit :=
  perform [StoreUpdate documentId content].

(** *** Timers *)

(** [setTimeout(callback, delay)] *)
Definition setTimeout (job : AutoSaveJob) (delay : N) : Handler TimeoutHandle :=
  fun w =>
    let h := nextHandle w in
    mkOutcome h
      (mkWorld (documentRooms w) (autoSaveTimers w) (sioRooms w)
               (timers w ++ [mkTimer h (now w + delay) job])
               (S h) (suspended w) (now w))
      [].

(** [clearTimeout(handle)]; nothing happens for a handle that is not armed. *)
Definition clearTimeout (h : TimeoutHandle) : Handler unit :=
  modify (fun w =>
    with_timers w (filter (fun t => negb (Nat.eqb (timer_handle t) h)) (timers w))).

(** [m.forEach(f)] for a callback that removes at most the entry it is
    visiting: exactly the entries present at the start are visited, in order. *)
Fixpoint forEach {V} (entries : list (string * V)) (f : V -> string -> Handler unit)
  : Handler unit :=
  match entries with
  | [] => ret tt
  | (k, v) :: rest => f v k ;; forEach rest f
  end.

(** ** The handlers *)

(** [room.users.set(..)] and [room.users.delete(..)] act on the room object
    held by [documentRooms]: the entry of the map is what changes. *)
Definition room_users_set (documentId : string) (room : DocumentRoom)
    (sid : string) (u : SocketUser) : Handler unit :=
  modify (fun w =>
    with_documentRooms w
      (JsMap.set (documentRooms w) documentId
         (mkDocumentRoom (room_documentId room) (JsMap.set (users room) sid u)))).

Definition room_users_delete (documentId : string) (room : DocumentRoom)
    (sid : string) : Handler unit :=
  modify (fun w =>
    with_documentRooms w
      (JsMap.set (documentRooms w) documentId
         (mkDocumentRoom (room_documentId room) (JsMap.delete (users room) sid)))).

(** [document.owner.toString() === userId ||
     document.collaborators.some(c => c.user.toString() === userId)] *)
Definition hasAccess (document : StoredDocument) (uid : string) : bool :=
  String.eqb (owner document) uid
  || existsb (fun c => String.eqb c uid) (collaborators document).

(** [socket.on('join-document', ..)].  [answer] is how [findById] settles and
    [rnd] the draw of [generateUserColor]. *)
Definition on_join_document (socket : Socket) (documentId uName : string)
    (answer : FindResult) (rnd : nat) : Handler unit :=
  found <- Document_findById documentId answer ;;
  match found with
  | FindRejected =>
      socket_emit socket (EvError "Failed to join document")
  | FindResolved None =>
      socket_emit socket (EvError "Document not found")
  | FindResolved (Some document) =>
      if negb (hasAccess document (socket_user socket)) then
        socket_emit socket (EvError "Access denied")
      else
        socket_join socket documentId ;;
        rooms <- gets documentRooms ;;
        (if JsMap.has rooms documentId then ret tt
         else modify (fun w =>
                with_documentRooms w
                  (JsMap.set (documentRooms w) documentId
                     (mkDocumentRoom documentId JsMap.empty)))) ;;
        rooms <- gets documentRooms ;;
        match JsMap.get rooms documentId with
        | None =>
            (* [documentRooms.get(documentId)!] on a missing entry: the
               access to [room.users] throws and the [catch] answers *)
            socket_emit socket (EvError "Failed to join document")
        | Some room =>
            let userColor := generateUserColor rnd in
            room_users_set documentId room (socket_id socket)
              (mkSocketUser (socket_id socket) (socket_user socket) uName userColor) ;;
            socket_to_emit socket documentId
              (EvUserJoined (socket_user socket) uName userColor) ;;
            rooms <- gets documentRooms ;;
            let currentUsers :=
              match JsMap.get rooms documentId with
              | Some room =>
                  filter (fun u => negb (String.eqb (socketId u) (socket_id socket)))
                         (JsMap.values (users room))
              | None => []
              end in
            socket_emit socket (EvUsersList currentUsers)
        end
  end.

(** The callback handed to [setTimeout], up to its [await]. *)
Definition autosave_begin (job : AutoSaveJob) : Handler unit :=
  Document_findByIdAndUpdate (job_documentId job) (job_content job).

(** The callback after its [await]: the [try] body continues on success, the
    [catch] only logs. *)
Definition autosave_resume (job : AutoSaveJob) (answer : UpdateResult) : Handler unit :=
  match answer with
  | UpdateResolved =>
      modify (fun w =>
        with_autoSaveTimers w (JsMap.delete (autoSaveTimers w) (job_documentId job)))
  | UpdateRejected => ret tt
  end.

(** [socket.on('text-change', ..)] *)
Definition on_text_change (socket : Socket) (documentId : string) (delta : Delta)
    (content : string) : Handler unit :=
  socket_to_emit socket documentId (EvTextChange delta content (socket_user socket)) ;;
  saves <- gets autoSaveTimers ;;
  match JsMap.get saves documentId with
  | Some existing => clearTimeout (timeout existing)
  | None => ret tt
  end ;;
  handle <- setTimeout (mkAutoSaveJob documentId content (socket_user socket))
                       AUTO_SAVE_DEBOUNCE_MS ;;
  modify (fun w =>
    with_autoSaveTimers w
      (JsMap.set (autoSaveTimers w) documentId
         (mkDocumentAutoSave documentId content handle))).

(** [socket.on('cursor-move', ..)] *)
Definition on_cursor_move (socket : Socket) (documentId : string) (position : N)
    : Handler unit :=
  rooms <- gets documentRooms ;;
  match JsMap.get rooms documentId with
  | Some room =>
      match JsMap.get (users room) (socket_id socket) with
      | Some user =>
          socket_to_emit socket documentId
            (EvCursorMove (userId user) (userName user) (color user) position)
      | None => ret tt
      end
  | None => ret tt
  end.

(** [socket.on('save-document', ..)].  [answer] is how the update settles;
    [new Date()] reads the clock. *)
Definition on_save_document (socket : Socket) (documentId content : string)
    (answer : UpdateResult) : Handler unit :=
  Document_findByIdAndUpdate documentId content ;;
  match answer with
  | UpdateResolved =>
      t <- gets now ;;
      socket_emit socket (EvDocumentSaved true (Some t)) ;;
      t' <- gets now ;;
      socket_to_emit socket documentId (EvDocumentSaved true (Some t'))
  | UpdateRejected =>
      socket_emit socket (EvDocumentSaved false None)
  end.

(** [handleUserLeave(socket, documentId)] *)
Definition handleUserLeave (socket : Socket) (documentId : string) : Handler unit :=
  rooms <- gets documentRooms ;;
  match JsMap.get rooms documentId with
  | Some room =>
      match JsMap.get (users room) (socket_id socket) with
      | Some user =>
          room_users_delete documentId room (socket_id socket) ;;
          socket_to_emit socket documentId (EvUserLeft (userId user) (userName user))
      | None => ret tt
      end ;;
      rooms <- gets documentRooms ;;
      match JsMap.get rooms documentId with
      | Some room =>
          if Nat.eqb (JsMap.size (users room)) 0 then
            modify (fun w =>
              with_documentRooms w (JsMap.delete (documentRooms w) documentId))
          else ret tt
      | None => ret tt
      end
  | None => ret tt
  end ;;
  socket_leave socket documentId.

(** [socket.on('leave-document', ..)] *)
Definition on_leave_document (socket : Socket) (documentId : string) : Handler unit :=
  handleUserLeave socket documentId.

(** [socket.on('disconnect', ..)]: socket.io has taken the socket out of every
    room, then the handler runs. *)
Definition on_disconnect (socket : Socket) : Handler unit :=
  socket_leave_all socket ;;
  rooms <- gets documentRooms ;;
  forEach rooms (fun room documentId =>
    if JsMap.has (users room) (socket_id socket)
    then handleUserLeave socket documentId
    else ret tt) ;;
  saves <- gets autoSaveTimers ;;
  forEach saves (fun save documentId =>
    clearTimeout (timeout save) ;;
    modify (fun w =>
      with_autoSaveTimers w (JsMap.delete (autoSaveTimers w) documentId))).

(** ** The event loop *)

Inductive Event :=
| JoinDocument (socket : Socket) (documentId uName : string)
               (answer : FindResult) (rnd : nat)
| TextChange (socket : Socket) (documentId : string) (delta : Delta) (content : string)
| CursorMove (socket : Socket) (documentId : string) (position : N)
| SaveDocument (socket : Socket) (documentId content : string) (answer : UpdateResult)
| LeaveDocument (socket : Socket) (documentId : string)
| Disconnect (socket : Socket)
| Elapse (ms : N)
| TimerFire (handle : TimeoutHandle)
| AutoSaveSettled (handle : TimeoutHandle) (answer : UpdateResult)
| Connect (socket : Socket).

(** The shape of a [socket.id]: twenty characters. *)
Definition is_socket_id (s : string) : bool := Nat.eqb (String.length s) 20.

(** [io.on('connection', ..)]: socket.io has put the socket in the room named
    by its id; the callback only registers the handlers. *)
Definition on_connection (socket : Socket) : Handler unit :=
  socket_join socket (socket_id socket).

(** What the environment can send: a connection that connects or joins has
    a [socket.id], and [findById] does not resolve for one. *)
Definition well_formed (e : Event) : bool :=
  match e with
  | Connect socket => is_socket_id (socket_id socket)
  | JoinDocument socket documentId _ answer _ =>
      is_socket_id (socket_id socket)
      && match answer with
         | FindResolved _ => negb (is_socket_id documentId)
         | FindRejected => true
         end
  | _ => true
  end.

Definition find_timer (h : TimeoutHandle) (ts : list Timer) : option Timer :=
  find (fun t => Nat.eqb (timer_handle t) h) ts.

Definition find_suspended (h : TimeoutHandle)
    (l : list (TimeoutHandle * AutoSaveJob)) : option AutoSaveJob :=
  option_map snd (find (fun p => Nat.eqb (fst p) h) l).

(** The event loop runs a due timer: the timer leaves the queue and its
    callback runs up to the [await], where it is suspended. *)
Definition fire_timer (t : Timer) : Handler unit :=
  modify (fun w =>
    with_timers w
      (filter (fun t' => negb (Nat.eqb (timer_handle t') (timer_handle t))) (timers w))) ;;
  modify (fun w =>
    with_suspended w (suspended w ++ [(timer_handle t, timer_job t)])) ;;
  autosave_begin (timer_job t).

(** The awaited update settles: the suspended callback resumes. *)
Definition settle_autosave (h : TimeoutHandle) (job : AutoSaveJob)
    (answer : UpdateResult) : Handler unit :=
  modify (fun w =>
    with_suspended w (filter (fun p => negb (Nat.eqb (fst p) h)) (suspended w))) ;;
  autosave_resume job answer.

(** What the server does with an event.  [None]: a timer that is not armed
    or not yet due, a promise that is not pending. *)
Definition handle (w : World) (e : Event) : option (Outcome unit) :=
  match e with
  | Connect socket =>
      Some (on_connection socket w)
  | JoinDocument socket documentId uName answer rnd =>
      Some (on_join_document socket documentId uName answer rnd w)
  | TextChange socket documentId delta content =>
      Some (on_text_change socket documentId delta content w)
  | CursorMove socket documentId position =>
      Some (on_cursor_move socket documentId position w)
  | SaveDocument socket documentId content answer =>
      Some (on_save_document socket documentId content answer w)
  | LeaveDocument socket documentId =>
      Some (on_leave_document socket documentId w)
  | Disconnect socket =>
      Some (on_disconnect socket w)
  | Elapse ms =>
      Some (mkOutcome tt (with_now w (now w + ms)) [])
  | TimerFire h =>
      match find_timer h (timers w) with
      | Some t =>
          if N.leb (timer_deadline t) (now w) then
            Some (fire_timer t w)
          else None
      | None => None
      end
  | AutoSaveSettled h answer =>
      match find_suspended h (suspended w) with
      | Some job =>
          Some (settle_autosave h job answer w)
      | None => None
      end
  end.

(** One turn of the event loop.  [None]: the environment cannot take this
    step now. *)
Definition step (w : World) (e : Event) : option (Outcome unit) :=
  if well_formed e then handle w e else None.

(** A run of the event loop: the final world and everything performed. *)
Fixpoint run (w : World) (es : list Event) : option (World * list Effect) :=
  match es with
  | [] => Some (w, [])
  | e :: rest =>
      match step w e with
      | Some r =>
          match run (world r) rest with
          | Some (w', out) => Some (w', effects r ++ out)
          | None => None
          end
      | None => None
      end
  end.

(** The worlds the server can be in. *)
Inductive Reachable : World -> Prop :=
| Reachable_initial : Reachable initial
| Reachable_step : forall w e r,
    Reachable w -> step w e = Some r -> Reachable (world r).

(** ** Observations used by the statements *)

(** The roster of a document: the connection ids of its room, none when the
    room does not exist. *)
Definition roster_of (rooms : JsMap.t DocumentRoom) (documentId : string) : list string :=
  match JsMap.get rooms documentId with
  | Some room => JsMap.keys (users room)
  | None => []
  end.

Definition roster (w : World) (documentId : string) : list string :=
  roster_of (documentRooms w) documentId.

(** The presence of a connection in the room of a document, if any. *)
Definition presence_of (w : World) (documentId sid : string) : option SocketUser :=
  match JsMap.get (documentRooms w) documentId with
  | Some room => JsMap.get (users room) sid
  | None => None
  end.

(** The presences of the room of a document. *)
Definition room_users (w : World) (documentId : string) : list SocketUser :=
  match JsMap.get (documentRooms w) documentId with
  | Some room => JsMap.values (users room)
  | None => []
  end.

(** The events delivered to one connection, in order. *)
Fixpoint delivered (sid : string) (out : list Effect) : list ServerEvent :=
  match out with
  | [] => []
  | Emit r ev :: rest =>
      if String.eqb r sid then ev :: delivered sid rest else delivered sid rest
  | _ :: rest => delivered sid rest
  end.

(** The connections that were sent something, in order. *)
Fixpoint recipients (out : list Effect) : list string :=
  match out with
  | [] => []
  | Emit r _ :: rest => r :: recipients rest
  | _ :: rest => recipients rest
  end.

(** The contents written to the store for one document, in order. *)
Fixpoint store_writes (documentId : string) (out : list Effect) : list string :=
  match out with
  | [] => []
  | StoreUpdate d c :: rest =>
      if String.eqb d documentId then c :: store_writes documentId rest
      else store_writes documentId rest
  | _ :: rest => store_writes documentId rest
  end.

(** The number of store reads performed. *)
Fixpoint store_reads (out : list Effect) : nat :=
  match out with
  | [] => 0
  | StoreFind _ :: rest => S (store_reads rest)
  | _ :: rest => store_reads rest
  end.

(** The armed auto-save timers of one document. *)
Definition pending_timers (w : World) (documentId : string) : list Timer :=
  filter (fun t => String.eqb (job_documentId (timer_job t)) documentId) (timers w).

Definition armed (w : World) (h : TimeoutHandle) : bool :=
  existsb (fun t => Nat.eqb (timer_handle t) h) (timers w).

(** The room a join works on: the existing one, or the one it creates. *)
Definition room_or_new (rooms : JsMap.t DocumentRoom) (documentId : string)
    : DocumentRoom :=
  match JsMap.get rooms documentId with
  | Some room => room
  | None => mkDocumentRoom documentId JsMap.empty
  end.

(** The room directory once a connection has been admitted to a document. *)
Definition directory_with (rooms : JsMap.t DocumentRoom) (documentId sid : string)
    (u : SocketUser) : JsMap.t DocumentRoom :=
  let room := room_or_new rooms documentId in
  JsMap.set rooms documentId
    (mkDocumentRoom (room_documentId room) (JsMap.set (users room) sid u)).

(** The transport's rooms once a connection has joined one. *)
Definition sio_with (l : list (string * string)) (room sid : string)
    : list (string * string) :=
  if in_room l room sid then l else l ++ [(room, sid)].

(** The presence record a join stores. *)
Definition presence (socket : Socket) (uName : string) (rnd : nat) : SocketUser :=
  mkSocketUser (socket_id socket) (socket_user socket) uName (generateUserColor rnd).

Definition not_socket (socket : Socket) (sid : string) : bool :=
  negb (String.eqb sid (socket_id socket)).

(** The room directory once a connection has left a document: the room
    without that connection, or no room when nobody is left. *)
Definition directory_without (rooms : JsMap.t DocumentRoom) (documentId sid : string)
    : JsMap.t DocumentRoom :=
  match JsMap.get rooms documentId with
  | None => rooms
  | Some room =>
      match JsMap.delete (users room) sid with
      | [] => JsMap.delete rooms documentId
      | us => JsMap.set rooms documentId (mkDocumentRoom (room_documentId room) us)
      end
  end.

(** The transport's rooms once a connection has left one. *)
Definition sio_without (l : list (string * string)) (room sid : string)
    : list (string * string) :=
  filter (fun p => negb (String.eqb (fst p) room && String.eqb (snd p) sid)) l.

(** The transport's rooms once a connection has left them all. *)
Definition sio_closed (l : list (string * string)) (sid : string)
    : list (string * string) :=
  filter (fun p => negb (String.eqb (snd p) sid)) l.

(** Is the connection still in the room socket.io named after it? *)
Definition own_room (w : World) (socket : Socket) : bool :=
  in_room (sioRooms w) (socket_id socket) (socket_id socket).

(** The members of a document's room that a relay of [socket] goes to: the
    others, and the sender too once it has left the room of its own id. *)
Definition reached (w : World) (socket : Socket) (documentId : string) : list string :=
  if own_room w socket
  then filter (not_socket socket) (roster w documentId)
  else roster w documentId.

(** The world once socket.io has taken a closing connection out of its
    rooms. *)
Definition closed (w : World) (socket : Socket) : World :=
  with_sioRooms w (sio_closed (sioRooms w) (socket_id socket)).

(** The armed timers once every timer named by an entry of [saves] has been
    cleared. *)
Definition cancel_all (saves : JsMap.t DocumentAutoSave) (ts : list Timer) : list Timer :=
  filter (fun t =>
            negb (existsb (fun e => Nat.eqb (timer_handle t) (timeout (snd e))) saves))
         ts.

(** The armed timers once a text change has cleared the registered one. *)
Definition cancel_registered (saves : JsMap.t DocumentAutoSave) (documentId : string)
    (ts : list Timer) : list Timer :=
  match JsMap.get saves documentId with
  | Some existing => filter (fun t => negb (Nat.eqb (timer_handle t) (timeout existing))) ts
  | None => ts
  end.

(** Does the disconnect loop call [handleUserLeave] for this document? *)
Definition visited (rooms : JsMap.t DocumentRoom) (sid documentId : string) : bool :=
  existsb (fun e => String.eqb (fst e) documentId && JsMap.has (users (snd e)) sid) rooms.

(** What ties the room directory to the transport's rooms between two turns
    of the event loop. *)
Record RoomsInv (w : World) : Prop := mkRoomsInv {
  inv_directory : NoDup (JsMap.keys (documentRooms w));
  inv_nonempty : forall d room,
      JsMap.get (documentRooms w) d = Some room -> users room <> [];
  inv_roster : forall d room,
      JsMap.get (documentRooms w) d = Some room -> NoDup (JsMap.keys (users room));
  inv_presence : forall d room,
      JsMap.get (documentRooms w) d = Some room ->
      Forall (fun e => socketId (snd e) = fst e) (users room);
  inv_names : forall d room,
      JsMap.get (documentRooms w) d = Some room -> is_socket_id d = false;
  inv_ids : forall d room,
      JsMap.get (documentRooms w) d = Some room ->
      Forall (fun e => is_socket_id (fst e) = true) (users room);
  inv_members : forall d,
      is_socket_id d = false -> members (sioRooms w) d = roster w d;
  inv_private : forall d sid,
      is_socket_id d = true -> In sid (members (sioRooms w) d) -> sid = d
}.

(** Armed timers have distinct handles, all handed out already. *)
Record TimersInv (w : World) : Prop := mkTimersInv {
  inv_handles : NoDup (map timer_handle (timers w));
  inv_fresh : Forall (fun t => timer_handle t < nextHandle w) (timers w)
}.

(** ** A small session, used to instantiate the statements *)

Module Scenario.
Definition alice : Socket := mkSocket "socket-alice-0000001" "user-1".
Definition bob : Socket := mkSocket "socket-bob-000000002" "user-2".
Definition carol : Socket := mkSocket "socket-carol-0000003" "user-3".

(** "doc-1": owned by user-1, shared with user-2. *)
Definition doc1 : StoredDocument := mkStoredDocument "user-1" ["user-1"; "user-2"].

Definition both_join : list Event :=
  [ Connect alice;
    Connect bob;
    JoinDocument alice "doc-1" "Alice" (FindResolved (Some doc1)) 0;
    JoinDocument bob "doc-1" "Bob" (FindResolved (Some doc1)) 1 ].

Definition world_after (es : list Event) : World :=
  match run initial es with
  | Some (w, _) => w
  | None => initial
  end.

(** Alice and Bob are in the room of "doc-1". *)
Definition two_in_room : World := Eval vm_compute in world_after both_join.

(** Alice and Bob are in the room of "doc-1", and Alice has then sent
    leave-document with her own connection id as the document id. *)
Definition own_id_leave : list Event :=
  both_join ++ [LeaveDocument alice (socket_id alice)].

Definition left_own_room : World := Eval vm_compute in world_after own_id_leave.

(** Alice and Bob are connected; Alice alone is in the room of "doc-1". *)
Definition alice_joins : list Event :=
  [ Connect alice;
    Connect bob;
    JoinDocument alice "doc-1" "Alice" (FindResolved (Some doc1)) 0 ].

Definition one_in_room : World := Eval vm_compute in world_after alice_joins.

(** An edit arrives while the write of a fired auto-save is in flight, the
    write then resolves, and another edit follows a millisecond later. *)
Definition flush_race : list Event :=
  [ TextChange alice "doc-1" "delta-1" "a";
    Elapse 30000;
    TimerFire 0;
    Elapse 1;
    TextChange alice "doc-1" "delta-2" "ab";
    AutoSaveSettled 0 UpdateResolved;
    Elapse 1;
    TextChange alice "doc-1" "delta-3" "abc" ].

Definition both_fire : list Event :=
  [ Elapse 30000; TimerFire 1; TimerFire 2 ].

Definition job_of (content : string) : AutoSaveJob :=
  mkAutoSaveJob "doc-1" content "user-1".
End Scenario.

(** A burst of edits of one document, nothing else happening in between. *)
Definition edit_burst (documentId : string) (edits : list (Socket * Delta * string))
    (w : World) : World :=
  fold_left
    (fun w e => world (on_text_change (fst (fst e)) documentId (snd (fst e)) (snd e) w))
    edits w.

(** The registry names the one armed timer of the document. *)
Definition registered (w : World) (documentId : string) (t : Timer) : Prop :=
  pending_timers w documentId = [t] /\
  exists e, JsMap.get (autoSaveTimers w) documentId = Some e /\
            timeout e = timer_handle t.

(** The user-left events a disconnect of [sid] sends to [other]: one for each
    room, in directory order, that holds them both. *)
Definition left_events (rooms : JsMap.t DocumentRoom) (sid other : string)
    : list ServerEvent :=
  flat_map
    (fun e =>
       match JsMap.get (users (snd e)) sid with
       | Some user =>
           if JsMap.has (users (snd e)) other
           then [EvUserLeft (userId user) (userName user)] else []
       | None => []
       end)
    rooms.

(** Suspended callbacks have distinct handles, handed out already and no
    longer armed. *)
Record SuspendedInv (w : World) : Prop := mkSuspendedInv {
  inv_susp_distinct : NoDup (map fst (suspended w));
  inv_susp_below : Forall (fun p => fst p < nextHandle w) (suspended w);
  inv_susp_apart : forall t p,
      In t (timers w) -> In p (suspended w) -> timer_handle t <> fst p
}.

(** Every presence of the directory has a colour of the palette. *)
Definition palette_ok (rooms : JsMap.t DocumentRoom) : Prop :=
  forall d room, JsMap.get rooms d = Some room ->
                 Forall (fun e => In (color (snd e)) colors) (users room).

(** The connection and the document a client event is about. *)
Definition event_target (e : Event) : option (Socket * string) :=
  match e with
  | JoinDocument socket d _ _ _ => Some (socket, d)
  | TextChange socket d _ _ => Some (socket, d)
  | CursorMove socket d _ => Some (socket, d)
  | SaveDocument socket d _ _ => Some (socket, d)
  | LeaveDocument socket d => Some (socket, d)
  | _ => None
  end.

(** ** The connection middleware ([io.use]) and [utils/jwt] *)

From Stdlib Require Import Ascii.

(** [s.split(' ')]: the pieces of [s] between its spaces; never empty. *)
Fixpoint split_space (s : string) : list string :=
  match s with
  | EmptyString => [EmptyString]
  | String c rest =>
      if Ascii.eqb c " "%char then EmptyString :: split_space rest
      else match split_space rest with
           | piece :: pieces => String c piece :: pieces
           | [] => [String c EmptyString]
           end
  end.

(** A JavaScript value that is a string or [undefined], as a condition. *)
Definition truthy (v : option string) : bool :=
  match v with
  | Some EmptyString => false
  | Some _ => true
  | None => false
  end.

(** [a || b] on such values. *)
Definition js_or (a b : option string) : option string :=
  if truthy a then a else b.

(** The object [jwt.verify] decodes: [id], [email], and the [type] that only
    refresh tokens carry. *)
Record TokenPayload := mkTokenPayload {
  token_id : string;
  token_email : string;
  token_type : option string
}.

(** What the middleware reads of [socket.handshake]. *)
Record Handshake := mkHandshake {
  auth_token : option string;
  authorization : option string
}.

(** How the middleware calls [next]. *)
Inductive AuthResult :=
| AuthNext (data_user : TokenPayload)
| AuthError (message : string).

Section Jwt.
(** [jwt.verify(token, secret)]: the payload, or [None] when it throws. *)
Variable jwt_verify : string -> string -> option TokenPayload.
(** [process.env.JWT_SECRET] *)
Variable JWT_SECRET : option string.

Definition verifyAccessToken (token : string) : option TokenPayload :=
  let secret :=
    match js_or JWT_SECRET (Some "your-default-secret-key") with
    | Some secret => secret
    | None => "your-default-secret-key"
    end in
  jwt_verify token secret.

Definition verifyToken (token : string) : option TokenPayload :=
  verifyAccessToken token.

(** [process.env.JWT_REFRESH_SECRET] *)
Variable JWT_REFRESH_SECRET : option string.

(** [None] when [jwt.verify] throws or the payload is not of a refresh
    token. *)
Definition verifyRefreshToken (token : string) : option TokenPayload :=
  let secret :=
    match js_or JWT_REFRESH_SECRET
                (js_or JWT_SECRET (Some "your-default-refresh-secret-key")) with
    | Some secret => secret
    | None => "your-default-refresh-secret-key"
    end in
  match jwt_verify token secret with
  | Some payload =>
      match token_type payload with
      | Some type => if String.eqb type "refresh" then Some payload else None
      | None => None
      end
  | None => None
  end.

(** The token the middleware picks:
    [handshake.auth.token || handshake.headers.authorization?.split(' ')[1]]. *)
Definition handshake_token (h : Handshake) : option string :=
  js_or (auth_token h)
        (match authorization h with
         | Some header => nth_error (split_space header) 1
         | None => None
         end).

Definition authenticate (h : Handshake) : AuthResult :=
  let token := handshake_token h in
  if negb (truthy token) then AuthError "Authentication error"
  else
    match token with
    | Some token =>
        match verifyToken token with
        | Some decoded => AuthNext decoded
        | None => AuthError "Authentication error"
        end
    | None => AuthError "Authentication error"
    end.
End Jwt.

(** The secret tokens are checked against: [JWT_SECRET] when set and not
    empty, the built-in default otherwise. *)
Definition secret_in_use (env : option string) : string :=
  if truthy env
  then match env with Some secret => secret | None => EmptyString end
  else "your-default-secret-key".

(** The answer of the middleware for a token it has picked. *)
Definition verdict (jwt_verify : string -> string -> option TokenPayload)
    (env : option string) (token : string) : AuthResult :=
  match jwt_verify token (secret_in_use env) with
  | Some decoded => AuthNext decoded
  | None => AuthError "Authentication error"
  end.

(** A string without spaces. *)
Fixpoint spaceless (s : string) : bool :=
  match s with
  | EmptyString => true
  | String c rest => negb (Ascii.eqb c " "%char) && spaceless rest
  end.

(** ** The document routes *)

Inductive Permission := PermOwner | PermEditor | PermViewer.

Record Collaborator := mkCollaborator {
  collab_user : string;
  collab_permission : Permission
}.

(** A document as the routes handle it. *)
Record DocumentModel := mkDocumentModel {
  model_title : string;
  model_content : string;
  model_owner : string;
  model_collaborators : list Collaborator;
  model_shareToken : option string
}.

(** What the socket handlers read of such a document. *)
Definition stored (document : DocumentModel) : StoredDocument :=
  mkStoredDocument (model_owner document)
                   (map collab_user (model_collaborators document)).

(** How [Document.findById] settles for a route. *)
Inductive Loaded :=
| LoadResolved (document : option DocumentModel)
| LoadRejected.

(** The JSON bodies the routes answer with. *)
Inductive Payload :=
| PayloadDocument (document : DocumentModel)
| PayloadFailure (message : string)
| PayloadErrors
| PayloadMessage (message : string)
| PayloadShare (shareToken : option string) (shareUrl : string).

Record Response := mkResponse {
  status : nat;
  payload : Payload
}.

(** The writes a route asks of the store. *)
Inductive StoreCall :=
| CallCreate (document : DocumentModel)
| CallSave (document : DocumentModel)
| CallDelete.

(** [s === req.user?.id] for a string [s]. *)
Definition is_user (s : string) (user : option string) : bool :=
  match user with
  | Some uid => String.eqb s uid
  | None => false
  end.

(** [GET /api/documents/:id] *)
Definition get_document (user : option string) (answer : Loaded) : Response :=
  match answer with
  | LoadRejected => mkResponse 500 (PayloadFailure "Error fetching document")
  | LoadResolved None => mkResponse 404 (PayloadFailure "Document not found")
  | LoadResolved (Some document) =>
      let hasAccess :=
        is_user (model_owner document) user
        || existsb (fun c => is_user (collab_user c) user)
                   (model_collaborators document) in
      if negb hasAccess
      then mkResponse 403 (PayloadFailure "Not authorized to access this document")
      else mkResponse 200 (PayloadDocument document)
  end.

(** [PUT /api/documents/:id].  [valid] is [errors.isEmpty()], [title] and
    [content] the fields of the body as the validator chain leaves them (the
    title trimmed), [saved] and [populated] how [document.save()] and the
    two [populate] calls settle. *)
Definition put_document (user : option string) (valid : bool) (answer : Loaded)
    (title content : option string) (saved populated : UpdateResult)
    : Response * list StoreCall :=
  if negb valid then (mkResponse 400 PayloadErrors, [])
  else
    match answer with
    | LoadRejected => (mkResponse 500 (PayloadFailure "Error updating document"), [])
    | LoadResolved None => (mkResponse 404 (PayloadFailure "Document not found"), [])
    | LoadResolved (Some document) =>
        let userCollaborator :=
          find (fun c => is_user (collab_user c) user) (model_collaborators document) in
        let isOwner := is_user (model_owner document) user in
        let isEditor :=
          match userCollaborator with
          | Some c =>
              match collab_permission c with
              | PermEditor => true
              | PermOwner => true
              | PermViewer => false
              end
          | None => false
          end in
        if negb isOwner && negb isEditor
        then (mkResponse 403 (PayloadFailure "Not authorized to edit this document"), [])
        else
          let document1 :=
            match title with
            | Some title =>
                mkDocumentModel title (model_content document) (model_owner document)
                                (model_collaborators document) (model_shareToken document)
            | None => document
            end in
          let document2 :=
            match content with
            | Some content =>
                mkDocumentModel (model_title document1) content (model_owner document1)
                                (model_collaborators document1)
                                (model_shareToken document1)
            | None => document1
            end in
          match saved, populated with
          | UpdateResolved, UpdateResolved =>
              (mkResponse 200 (PayloadDocument document2), [CallSave document2])
          | _, _ =>
              (mkResponse 500 (PayloadFailure "Error updating document"),
               [CallSave document2])
          end
    end.

(** [DELETE /api/documents/:id].  [deleted] is how [deleteOne] settles. *)
Definition delete_document (user : option string) (answer : Loaded)
    (deleted : UpdateResult) : Response * list StoreCall :=
  match answer with
  | LoadRejected => (mkResponse 500 (PayloadFailure "Error deleting document"), [])
  | LoadResolved None => (mkResponse 404 (PayloadFailure "Document not found"), [])
  | LoadResolved (Some document) =>
      if negb (is_user (model_owner document) user)
      then (mkResponse 403 (PayloadFailure "Only the owner can delete this document"), [])
      else
        match deleted with
        | UpdateResolved =>
            (mkResponse 200 (PayloadMessage "Document deleted successfully"), [CallDelete])
        | UpdateRejected =>
            (mkResponse 500 (PayloadFailure "Error deleting document"), [CallDelete])
        end
  end.

(** [`${a}`] for a string or [undefined]. *)
Definition template (v : option string) : string :=
  match v with
  | Some s => s
  | None => "undefined"
  end.

(** [POST /api/documents/:id/share].  [fresh] is what
    [crypto.randomBytes(16).toString('hex')] gives [generateShareToken],
    [CLIENT_URL] the environment variable. *)
Definition share_document (user : option string) (answer : Loaded) (fresh : string)
    (saved : UpdateResult) (CLIENT_URL : option string) : Response * list StoreCall :=
  match answer with
  | LoadRejected => (mkResponse 500 (PayloadFailure "Error generating share link"), [])
  | LoadResolved None => (mkResponse 404 (PayloadFailure "Document not found"), [])
  | LoadResolved (Some document) =>
      if negb (is_user (model_owner document) user)
      then (mkResponse 403 (PayloadFailure "Only the owner can generate a share link"), [])
      else
        let answer_with (document : DocumentModel) :=
          mkResponse 200
            (PayloadShare (model_shareToken document)
               (template CLIENT_URL ++ "/documents/shared/"
                ++ template (model_shareToken document))%string) in
        if negb (truthy (model_shareToken document)) then
          let document1 :=
            mkDocumentModel (model_title document) (model_content document)
                            (model_owner document) (model_collaborators document)
                            (Some fresh) in
          match saved with
          | UpdateResolved => (answer_with document1, [CallSave document1])
          | UpdateRejected =>
              (mkResponse 500 (PayloadFailure "Error generating share link"),
               [CallSave document1])
          end
        else (answer_with document, [])
  end.

(** [POST /api/documents].  [trim] strips the white space around a string:
    the validator chain ([body('title').optional().trim()]) applies it to a
    title that was sent, before the handler reads the body, and the schema
    ([trim: true]) applies it to the title that is stored.  [valid] is
    [errors.isEmpty()], [title] and [content] the fields of the body as sent,
    [created] how [Document.create] settles for a document that passes the
    schema, [populated] how [populate] does; the schema requires an owner, so
    without a user the creation is rejected. *)
Definition create_document (trim : string -> string) (user : option string)
    (valid : bool) (title content : option string) (created populated : UpdateResult)
    : Response * list StoreCall :=
  if negb valid then (mkResponse 400 PayloadErrors, [])
  else
    match user with
    | None => (mkResponse 500 (PayloadFailure "Error creating document"), [])
    | Some uid =>
        let title := option_map trim title in
        let document :=
          mkDocumentModel
            (trim (match js_or title (Some "Untitled Document") with
                   | Some title => title
                   | None => "Untitled Document"
                   end))
            (match js_or content (Some EmptyString) with
             | Some content => content
             | None => EmptyString
             end)
            uid
            [mkCollaborator uid PermOwner]
            None in
        match created, populated with
        | UpdateResolved, UpdateResolved =>
            (mkResponse 201 (PayloadDocument document), [CallCreate document])
        | _, _ =>
            (mkResponse 500 (PayloadFailure "Error creating document"),
             [CallCreate document])
        end
    end.

(** The permission the [PUT] route reads for a user: that of the user's
    first entry in the collaborator list. *)
Definition first_permission (document : DocumentModel) (uid : string)
    : option Permission :=
  option_map collab_permission
    (find (fun c => String.eqb (collab_user c) uid) (model_collaborators document)).

(** ** More of the small session *)

Module Session.
Import Scenario.

(** Alice and Bob are in the room of "doc-1"; Alice has typed "Hello" and
    thirty seconds have passed. *)
Definition after_edit : World :=
  Eval vm_compute in
    world_after (both_join ++ [TextChange alice "doc-1" "delta" "Hello"; Elapse 30000]).

(** The timer armed by that edit. *)
Definition hello_timer : Timer :=
  mkTimer 0 30000 (mkAutoSaveJob "doc-1" "Hello" "user-1").

(** A verifier that accepts the token "good" under the default secret. *)
Definition accept_good (token secret : string) : option TokenPayload :=
  if String.eqb token "good" && String.eqb secret "your-default-secret-key"
  then Some (mkTokenPayload "user-1" "alice@example.org" None)
  else None.

(** "doc-1" as the routes see it: owned by user-1; user-3 is listed first
    as viewer and then as editor; user-2 has the permission "owner". *)
Definition doc1_model : DocumentModel :=
  mkDocumentModel "Notes" "Hello" "user-1"
    [ mkCollaborator "user-3" PermViewer;
      mkCollaborator "user-3" PermEditor;
      mkCollaborator "user-2" PermOwner ]
    None.
End Session.

(** ** Timed bursts of edits *)

(** One edit of a burst: the time since the previous event, the connection,
    the payload. *)
Record Edit := mkEdit {
  edit_gap : N;
  edit_socket : Socket;
  edit_delta : Delta;
  edit_content : string
}.

(** The events of a burst of edits of one document: time passes, an edit
    arrives, and so on; nothing else happens. *)
Definition burst_events (documentId : string) (edits : list Edit) : list Event :=
  flat_map
    (fun e => [ Elapse (edit_gap e);
                TextChange (edit_socket e) documentId (edit_delta e) (edit_content e) ])
    edits.

(** The registry and the armed timers agree: a registry entry is filed under
    its own document, names a handle handed out already, and an armed timer
    with that handle will write the registered content to that document. *)
Record RegistryInv (w : World) : Prop := mkRegistryInv {
  inv_entry : forall d e,
      JsMap.get (autoSaveTimers w) d = Some e ->
      save_documentId e = d /\ timeout e < nextHandle w;
  inv_entry_timer : forall d e t,
      JsMap.get (autoSaveTimers w) d = Some e ->
      In t (timers w) -> timer_handle t = timeout e ->
      job_documentId (timer_job t) = d /\ job_content (timer_job t) = save_content e
}.

(** ** Facts about [JsMap] *)

Module JsMapFacts.
Import JsMap.
Section WithValue.
Variable V : Type.
Implicit Types (m : JsMap.t V) (k : string) (v : V).

Lemma get_set_same m k v : get (set m k v) k = Some v.
Proof.
induction m as [|[k' v'] rest IH]; simpl.
- now rewrite String.eqb_refl.
- destruct (String.eqb k' k) eqn:E; simpl.
  + now rewrite String.eqb_refl.
  + now rewrite E.
Qed.

Lemma get_set_other m k k' v : k <> k' -> get (set m k v) k' = get m k'.
Proof.
intros Hne. induction m as [|[k0 v0] rest IH]; simpl.
- apply String.eqb_neq in Hne. now rewrite Hne.
- destruct (String.eqb k0 k) eqn:E; simpl.
  + apply String.eqb_eq in E. subst k0.
    apply String.eqb_neq in Hne. now rewrite Hne.
  + destruct (String.eqb k0 k'); auto.
Qed.

Lemma get_none_keys m k : get m k = None <-> ~ In k (keys m).
Proof.
induction m as [|[k' v'] rest IH]; simpl.
- tauto.
- destruct (String.eqb k' k) eqn:E.
  + apply String.eqb_eq in E. split; [discriminate | intros H; exfalso; auto].
  + apply String.eqb_neq in E. rewrite IH. tauto.
Qed.

Lemma get_some_keys m k v : get m k = Some v -> In k (keys m).
Proof.
intros H. destruct (in_dec string_dec k (keys m)) as [|Hn]; auto.
apply get_none_keys in Hn. congruence.
Qed.

Lemma get_some_In m k v : get m k = Some v -> In (k, v) m.
Proof.
induction m as [|[k' v'] rest IH]; simpl; [discriminate|].
destruct (String.eqb k' k) eqn:E.
- apply String.eqb_eq in E. intros [= ->]. subst. now left.
- auto.
Qed.

Lemma has_true m k : has m k = true <-> In k (keys m).
Proof.
unfold has. destruct (get m k) eqn:E.
- split; auto. intros _. eapply get_some_keys; eauto.
- apply get_none_keys in E. split; [discriminate | tauto].
Qed.

Lemma keys_set m k v :
keys (set m k v) = if has m k then keys m else keys m ++ [k].
Proof.
unfold has. induction m as [|[k' v'] rest IH]; simpl; auto.
destruct (String.eqb k' k) eqn:E; simpl.
- apply String.eqb_eq in E. now subst.
- rewrite IH. now destruct (get rest k).
Qed.

Lemma keys_delete m k :
keys (delete m k) = filter (fun k' => negb (String.eqb k' k)) (keys m).
Proof.
unfold delete, keys. induction m as [|[k' v'] rest IH]; simpl; auto.
destruct (String.eqb k' k); simpl; now rewrite IH.
Qed.

Lemma get_delete_same m k : get (delete m k) k = None.
Proof.
apply get_none_keys. rewrite keys_delete, filter_In.
intros [_ H]. now rewrite String.eqb_refl in H.
Qed.

Lemma get_delete_other m k k' : k <> k' -> get (delete m k) k' = get m k'.
Proof.
intros Hne. unfold delete. induction m as [|[k0 v0] rest IH]; simpl; auto.
destruct (String.eqb k0 k) eqn:E; simpl.
- apply String.eqb_eq in E. subst k0.
  apply String.eqb_neq in Hne. now rewrite Hne.
- now rewrite IH.
Qed.

Lemma NoDup_keys_set m k v : NoDup (keys m) -> NoDup (keys (set m k v)).
Proof.
intros Hnd. rewrite keys_set. destruct (has m k) eqn:E; auto.
apply NoDup_app; auto.
- constructor; [intros [] | constructor].
- intros x Hx [<-|[]]. apply has_true in Hx. congruence.
Qed.

Lemma NoDup_keys_delete m k : NoDup (keys m) -> NoDup (keys (delete m k)).
Proof. intros Hnd. rewrite keys_delete. now apply NoDup_filter. Qed.

Lemma Forall_set (P : string * V -> Prop) m k v :
Forall P m -> P (k, v) -> Forall P (set m k v).
Proof.
intros Hm Hk. induction m as [|[k' v'] rest IH]; simpl.
- auto.
- inversion Hm; subst. destruct (String.eqb k' k); auto.
Qed.

Lemma Forall_delete (P : string * V -> Prop) m k :
Forall P m -> Forall P (delete m k).
Proof.
unfold delete. rewrite !Forall_forall. intros H x Hx.
apply filter_In in Hx. apply H, Hx.
Qed.

Lemma delete_absent m k : get m k = None -> delete m k = m.
Proof.
unfold delete. induction m as [|[k' v'] rest IH]; simpl; auto.
destruct (String.eqb k' k); [discriminate|]. intros H. simpl. now rewrite IH.
Qed.

Lemma set_same m k v : get m k = Some v -> set m k v = m.
Proof.
induction m as [|[k' v'] rest IH]; simpl; [discriminate|].
destruct (String.eqb k' k) eqn:E.
- apply String.eqb_eq in E. now intros [= ->]; subst.
- intros H. now rewrite IH.
Qed.

Lemma delete_set m k v : delete (set m k v) k = delete m k.
Proof.
unfold delete. induction m as [|[k' v'] rest IH]; simpl.
- now rewrite String.eqb_refl.
- destruct (String.eqb k' k) eqn:E; simpl.
  + now rewrite String.eqb_refl.
  + now rewrite E, IH.
Qed.

Lemma set_set m k v v' : set (set m k v) k v' = set m k v'.
Proof.
induction m as [|[k0 v0] rest IH]; simpl.
- now rewrite String.eqb_refl.
- destruct (String.eqb k0 k) eqn:E; simpl.
  + now rewrite String.eqb_refl.
  + now rewrite E, IH.
Qed.

Lemma set_not_nil m k v : set m k v <> [].
Proof.
destruct m as [|[k' v'] rest]; simpl; [discriminate|].
destruct (String.eqb k' k); discriminate.
Qed.

Lemma has_false m k : has m k = false <-> ~ In k (keys m).
Proof.
rewrite <- has_true. destruct (has m k); split; congruence.
Qed.

Lemma size_zero m : Nat.eqb (size m) 0 = true <-> m = [].
Proof. destruct m; simpl; split; congruence. Qed.
End WithValue.
End JsMapFacts.

Arguments JsMap.delete {V} m k : simpl never.
Arguments JsMap.keys {V} m : simpl never.
Arguments JsMap.values {V} m : simpl never.
Arguments JsMap.has {V} m k : simpl never.

(** ** Facts about the transport's rooms *)

Section Transport.
Implicit Types (l : list (string * string)) (r s d : string).

Lemma members_app l l' d : members (l ++ l') d = members l d ++ members l' d.
Proof. unfold members. now rewrite filter_app, map_app. Qed.

Lemma in_room_members l r s : in_room l r s = true <-> In s (members l r).
Proof.
  unfold in_room, members. rewrite existsb_exists, in_map_iff. split.
  - intros [[r' s'] [Hin H]]. simpl in H. apply andb_true_iff in H as [H1 H2].
    apply String.eqb_eq in H2. subst s'. exists (r', s). split; auto.
    apply filter_In. auto.
  - intros [[r' s'] [<- Hin]]. apply filter_In in Hin as [Hin H]. simpl in *.
    exists (r', s'). split; auto. simpl. now rewrite H, String.eqb_refl.
Qed.

Lemma members_join l r s d :
  members (sio_with l r s) d =
  if String.eqb r d && negb (in_room l r s) then members l d ++ [s] else members l d.
Proof.
  unfold sio_with. destruct (in_room l r s); simpl.
  - now rewrite andb_false_r.
  - rewrite andb_true_r, members_app. unfold members at 2. simpl.
    destruct (String.eqb r d); simpl; auto using app_nil_r.
Qed.

Lemma members_leave l r s d :
  members (sio_without l r s) d =
  if String.eqb r d then filter (fun x => negb (String.eqb x s)) (members l d)
  else members l d.
Proof.
  unfold sio_without, members. destruct (String.eqb r d) eqn:Erd.
  - apply String.eqb_eq in Erd. subst d.
    induction l as [|[r' s'] rest IH]; simpl; auto.
    destruct (String.eqb r' r) eqn:E1; simpl.
    + destruct (String.eqb s' s) eqn:E2; simpl; rewrite ?E1; simpl;
        rewrite ?E2; simpl; now rewrite IH.
    + now rewrite E1.
  - induction l as [|[r' s'] rest IH]; simpl; auto.
    destruct (String.eqb r' r) eqn:E1; simpl.
    + apply String.eqb_eq in E1. subst r'. rewrite Erd.
      destruct (String.eqb s' s); simpl; rewrite ?Erd; auto.
    + destruct (String.eqb r' d); simpl; now rewrite IH.
Qed.

Lemma filter_absent (s : string) (xs : list string) :
  ~ In s xs -> filter (fun x => negb (String.eqb x s)) xs = xs.
Proof.
  induction xs as [|x xs IH]; simpl; auto.
  intros H. destruct (String.eqb x s) eqn:E; simpl.
  - apply String.eqb_eq in E. subst. exfalso. auto.
  - rewrite IH; auto.
Qed.

Lemma members_closed l s d :
  members (sio_closed l s) d = filter (fun x => negb (String.eqb x s)) (members l d).
Proof.
  unfold sio_closed, members.
  induction l as [|[r' s'] rest IH]; simpl; auto.
  destruct (String.eqb s' s) eqn:E1; destruct (String.eqb r' d) eqn:E2; simpl;
    rewrite ?E1, ?E2; simpl; now rewrite IH.
Qed.

Lemma closed_without l r s : sio_without (sio_closed l s) r s = sio_closed l s.
Proof.
  unfold sio_without, sio_closed.
  induction l as [|[r' s'] rest IH]; simpl; auto.
  destruct (String.eqb s' s) eqn:E1; simpl; auto.
  rewrite E1, andb_false_r. simpl. now rewrite IH.
Qed.

Lemma without_closed l r s : sio_closed (sio_without l r s) s = sio_closed l s.
Proof.
  unfold sio_without, sio_closed.
  induction l as [|[r' s'] rest IH]; simpl; auto.
  destruct (String.eqb s' s) eqn:E1; simpl.
  - rewrite andb_true_r. destruct (String.eqb r' r); simpl; rewrite ?E1; auto.
  - rewrite andb_false_r. simpl. rewrite E1. simpl. now rewrite IH.
Qed.

Lemma socket_id_apart r d :
  is_socket_id r = true -> is_socket_id d = false -> String.eqb r d = false.
Proof.
  intros Hr Hd. apply String.eqb_neq. intros ->. congruence.
Qed.

(** The members [socket.to] leaves out when the room named by the sender's
    id holds nobody else. *)
Lemma except_own l s x :
  (forall y, In y (members l s) -> y = s) ->
  existsb (String.eqb x) (members l s) = String.eqb x s && in_room l s s.
Proof.
  intros Hown. apply eq_true_iff_eq.
  rewrite existsb_exists, andb_true_iff, String.eqb_eq, in_room_members. split.
  - intros [y [Hin Hy]]. apply String.eqb_eq in Hy. subst y.
    pose proof (Hown _ Hin). subst x. auto.
  - intros [-> Hin]. exists s. split; auto. apply String.eqb_refl.
Qed.
End Transport.

(** ** What each handler does to the world *)

Ltac run_handler :=
  unfold bind, gets, modify, perform, ret, socket_emit, socket_to_emit,
    socket_join, socket_leave, clearTimeout, setTimeout, Document_findById,
    Document_findByIdAndUpdate, room_users_set, room_users_delete; cbn;
  unfold with_documentRooms, with_autoSaveTimers, with_sioRooms, with_timers,
    with_suspended, with_now; cbn.

Lemma room_eta (room : DocumentRoom) :
  mkDocumentRoom (room_documentId room) (users room) = room.
Proof. now destruct room. Qed.

Lemma handleUserLeave_world socket d w :
  world (handleUserLeave socket d w) =
  mkWorld (directory_without (documentRooms w) d (socket_id socket))
          (autoSaveTimers w)
          (sio_without (sioRooms w) d (socket_id socket))
          (timers w) (nextHandle w) (suspended w) (now w).
Proof.
  unfold handleUserLeave, directory_without, sio_without. run_handler.
  destruct (JsMap.get (documentRooms w) d) as [room|] eqn:Hroom; cbn; auto.
  destruct (JsMap.get (users room) (socket_id socket)) as [user|] eqn:Huser; cbn.
  - rewrite JsMapFacts.get_set_same. cbn.
    destruct (JsMap.delete (users room) (socket_id socket)) eqn:Hdel; cbn.
    + now rewrite JsMapFacts.delete_set.
    + reflexivity.
  - rewrite Hroom. rewrite (JsMapFacts.delete_absent _ _ Huser).
    destruct (users room) eqn:Hus; cbn; auto.
    rewrite <- Hus, room_eta, (JsMapFacts.set_same _ _ Hroom). now destruct w.
Qed.

Lemma handleUserLeave_effects socket d w :
  effects (handleUserLeave socket d w) =
  match JsMap.get (documentRooms w) d with
  | Some room =>
      match JsMap.get (users room) (socket_id socket) with
      | Some user =>
          map (fun sid => Emit sid (EvUserLeft (userId user) (userName user)))
              (audience w socket d)
      | None => []
      end
  | None => []
  end.
Proof.
  unfold handleUserLeave. run_handler.
  destruct (JsMap.get (documentRooms w) d) as [room|] eqn:Hroom; cbn; auto.
  destruct (JsMap.get (users room) (socket_id socket)) as [user|] eqn:Huser; cbn.
  - rewrite JsMapFacts.get_set_same. cbn.
    destruct (Nat.eqb _ 0); cbn; now rewrite !app_nil_r.
  - rewrite Hroom. now destruct (Nat.eqb _ 0).
Qed.

(** ** The invariant of the room directory *)

Section Invariant.
Import JsMapFacts.

Lemma RoomsInv_initial : RoomsInv initial.
Proof.
  constructor; cbn; try discriminate; auto; try contradiction. constructor.
Qed.

Lemma RoomsInv_frame w w' :
  documentRooms w' = documentRooms w -> sioRooms w' = sioRooms w ->
  RoomsInv w -> RoomsInv w'.
Proof.
  intros Hd Hs [H1 H2 H3 H4 H5 H6 H7 H8].
  constructor; unfold roster in *; rewrite ?Hd, ?Hs; auto.
Qed.

Lemma roster_without rooms d sid d0 :
  roster_of (directory_without rooms d sid) d0 =
  if String.eqb d d0
  then filter (fun x => negb (String.eqb x sid)) (roster_of rooms d0)
  else roster_of rooms d0.
Proof.
  unfold directory_without, roster_of.
  destruct (String.eqb d d0) eqn:E.
  - apply String.eqb_eq in E. subst d0.
    destruct (JsMap.get rooms d) as [room|] eqn:Hroom.
    + rewrite <- keys_delete.
      destruct (JsMap.delete (users room) sid) eqn:Hdel.
      * now rewrite get_delete_same.
      * now rewrite get_set_same.
    + now rewrite Hroom.
  - apply String.eqb_neq in E.
    destruct (JsMap.get rooms d) as [room|] eqn:Hroom; auto.
    destruct (JsMap.delete (users room) sid).
    + now rewrite get_delete_other.
    + now rewrite get_set_other.
Qed.

Lemma get_without rooms d sid d0 room' :
  JsMap.get (directory_without rooms d sid) d0 = Some room' ->
  (d0 <> d /\ JsMap.get rooms d0 = Some room') \/
  (d0 = d /\ users room' <> [] /\
   exists room, JsMap.get rooms d = Some room /\
                users room' = JsMap.delete (users room) sid).
Proof.
  unfold directory_without.
  destruct (string_dec d0 d) as [->|Hne].
  - destruct (JsMap.get rooms d) as [room|] eqn:Hroom; [|congruence].
    destruct (JsMap.delete (users room) sid) eqn:Hdel.
    + now rewrite get_delete_same.
    + rewrite get_set_same. intros [= <-]. right. cbn.
      split; auto. split; [discriminate|]. eauto.
  - intros H. left. split; auto.
    destruct (JsMap.get rooms d) as [room|] eqn:Hroom; auto.
    destruct (JsMap.delete (users room) sid).
    + now rewrite get_delete_other in H by auto.
    + now rewrite get_set_other in H by auto.
Qed.

Lemma NoDup_directory_without rooms d sid :
  NoDup (JsMap.keys rooms) -> NoDup (JsMap.keys (directory_without rooms d sid)).
Proof.
  intros H. unfold directory_without.
  destruct (JsMap.get rooms d) as [room|]; auto.
  destruct (JsMap.delete (users room) sid).
  - now apply NoDup_keys_delete.
  - now apply NoDup_keys_set.
Qed.

Lemma RoomsInv_leave w w' d sid :
  documentRooms w' = directory_without (documentRooms w) d sid ->
  sioRooms w' = sio_without (sioRooms w) d sid ->
  RoomsInv w -> RoomsInv w'.
Proof.
  intros Hd Hs [H1 H2 H3 H4 H5 H6 H7 H8].
  constructor; unfold roster in *; rewrite ?Hd, ?Hs.
  - now apply NoDup_directory_without.
  - intros d0 room' Hget.
    apply get_without in Hget as [[_ Hg]|[_ [Hn _]]]; eauto.
  - intros d0 room' Hget.
    apply get_without in Hget as [[_ Hg]|[_ [_ [room [Hg ->]]]]]; eauto.
    apply NoDup_keys_delete; eauto.
  - intros d0 room' Hget.
    apply get_without in Hget as [[_ Hg]|[_ [_ [room [Hg ->]]]]]; eauto.
    apply Forall_delete; eauto.
  - intros d0 room' Hget.
    apply get_without in Hget as [[_ Hg]|[-> [_ [room [Hg _]]]]]; eauto.
  - intros d0 room' Hget.
    apply get_without in Hget as [[_ Hg]|[_ [_ [room [Hg ->]]]]]; eauto.
    apply Forall_delete; eauto.
  - intros d0 Hd0. now rewrite members_leave, roster_without, H7.
  - intros d0 s Hd0. rewrite members_leave.
    destruct (String.eqb d d0); auto.
    intros Hin. apply filter_In in Hin as [Hin _]. auto.
Qed.

(** Closing a connection that is in no roster keeps the invariant. *)
Lemma RoomsInv_closed w socket :
  (forall d, ~ In (socket_id socket) (roster w d)) ->
  RoomsInv w -> RoomsInv (closed w socket).
Proof.
  intros Hout [H1 H2 H3 H4 H5 H6 H7 H8].
  constructor; unfold roster in *; cbn [closed with_sioRooms documentRooms sioRooms];
    auto.
  - intros d0 Hd0. rewrite members_closed, H7 by auto.
    apply filter_absent, Hout.
  - intros d0 s Hd0. rewrite members_closed.
    intros Hin. apply filter_In in Hin as [Hin _]. auto.
Qed.

(** A new connection enters the room named by its id. *)
Lemma RoomsInv_connect w w' sid :
  is_socket_id sid = true ->
  documentRooms w' = documentRooms w ->
  sioRooms w' = sio_with (sioRooms w) sid sid ->
  RoomsInv w -> RoomsInv w'.
Proof.
  intros Hsid Hd Hs [H1 H2 H3 H4 H5 H6 H7 H8].
  constructor; unfold roster in *; rewrite ?Hd, ?Hs; auto.
  - intros d0 Hd0. rewrite members_join, (socket_id_apart _ _ Hsid Hd0). cbn. auto.
  - intros d0 s Hd0. rewrite members_join.
    destruct (String.eqb sid d0) eqn:E; cbn [andb]; auto.
    apply String.eqb_eq in E. subst d0.
    destruct (in_room (sioRooms w) sid sid); cbn [negb]; auto.
    intros Hin. apply in_app_or in Hin as [Hin|[<-|[]]]; auto.
Qed.

Lemma RoomsInv_handleUserLeave socket d w :
  RoomsInv w -> RoomsInv (world (handleUserLeave socket d w)).
Proof.
  apply RoomsInv_leave with (d := d) (sid := socket_id socket);
    now rewrite handleUserLeave_world.
Qed.
End Invariant.

(** ** What a join does *)

Section Join.
Import JsMapFacts.
Variables (socket : Socket) (d uName : string) (rnd : nat) (w : World).

Lemma join_not_found :
  on_join_document socket d uName (FindResolved None) rnd w =
  mkOutcome tt w [StoreFind d; Emit (socket_id socket) (EvError "Document not found")].
Proof. reflexivity. Qed.

Lemma join_denied document :
  hasAccess document (socket_user socket) = false ->
  on_join_document socket d uName (FindResolved (Some document)) rnd w =
  mkOutcome tt w [StoreFind d; Emit (socket_id socket) (EvError "Access denied")].
Proof.
  intros H. unfold on_join_document. run_handler. now rewrite H.
Qed.

Lemma join_admitted_world document :
  hasAccess document (socket_user socket) = true ->
  world (on_join_document socket d uName (FindResolved (Some document)) rnd w) =
  mkWorld (directory_with (documentRooms w) d (socket_id socket)
                          (presence socket uName rnd))
          (autoSaveTimers w)
          (sio_with (sioRooms w) d (socket_id socket))
          (timers w) (nextHandle w) (suspended w) (now w).
Proof.
  intros H. unfold on_join_document, directory_with, sio_with, room_or_new, presence.
  run_handler. rewrite H. cbn.
  destruct (in_room (sioRooms w) d (socket_id socket)); cbn;
    unfold JsMap.has; destruct (JsMap.get (documentRooms w) d) as [room|] eqn:Hroom;
    cbn; rewrite ?Hroom, ?get_set_same; cbn; rewrite ?set_set; reflexivity.
Qed.

Lemma join_admitted_effects document :
  hasAccess document (socket_user socket) = true ->
  effects (on_join_document socket d uName (FindResolved (Some document)) rnd w) =
  StoreFind d ::
  map (fun sid => Emit sid (EvUserJoined (socket_user socket) uName
                                         (generateUserColor rnd)))
      (audience (world (on_join_document socket d uName
                                         (FindResolved (Some document)) rnd w))
                socket d) ++
  [Emit (socket_id socket)
     (EvUsersList
        (filter (fun u => negb (String.eqb (socketId u) (socket_id socket)))
           (JsMap.values
              (JsMap.set (users (room_or_new (documentRooms w) d))
                 (socket_id socket) (presence socket uName rnd)))))].
Proof.
  intros H. rewrite (join_admitted_world document H).
  unfold on_join_document, directory_with, sio_with, room_or_new, presence, audience.
  run_handler. rewrite H. cbn.
  destruct (in_room (sioRooms w) d (socket_id socket)); cbn;
    unfold JsMap.has; destruct (JsMap.get (documentRooms w) d) as [room|] eqn:Hroom;
    cbn; rewrite ?Hroom, ?get_set_same; cbn; rewrite ?get_set_same; cbn;
    reflexivity.
Qed.
End Join.

Section InvariantJoin.
Import JsMapFacts.

Lemma roster_with rooms d sid u d0 :
  roster_of (directory_with rooms d sid u) d0 =
  if String.eqb d d0
  then (if JsMap.has (users (room_or_new rooms d)) sid
        then roster_of rooms d0 else roster_of rooms d0 ++ [sid])
  else roster_of rooms d0.
Proof.
  unfold directory_with, roster_of.
  destruct (String.eqb d d0) eqn:E.
  - apply String.eqb_eq in E. subst d0. rewrite get_set_same. cbn.
    rewrite keys_set. unfold room_or_new.
    now destruct (JsMap.get rooms d).
  - apply String.eqb_neq in E. now rewrite get_set_other.
Qed.

Lemma get_with rooms d sid u d0 room' :
  JsMap.get (directory_with rooms d sid u) d0 = Some room' ->
  (d0 <> d /\ JsMap.get rooms d0 = Some room') \/
  (d0 = d /\ users room' = JsMap.set (users (room_or_new rooms d)) sid u).
Proof.
  unfold directory_with. destruct (string_dec d0 d) as [->|Hne].
  - rewrite get_set_same. intros [= <-]. now right.
  - rewrite get_set_other by auto. now left.
Qed.

Lemma RoomsInv_join w w' d sid u :
  is_socket_id sid = true -> is_socket_id d = false ->
  socketId u = sid ->
  documentRooms w' = directory_with (documentRooms w) d sid u ->
  sioRooms w' = sio_with (sioRooms w) d sid ->
  RoomsInv w -> RoomsInv w'.
Proof.
  intros Hsid Hdoc Hu Hd Hs [H1 H2 H3 H4 H5 H6 H7 H8].
  assert (Hnew : forall room, room = room_or_new (documentRooms w) d ->
            NoDup (JsMap.keys (users room)) /\
            Forall (fun e => socketId (snd e) = fst e) (users room) /\
            Forall (fun e => is_socket_id (fst e) = true) (users room)).
  { intros room ->. unfold room_or_new.
    destruct (JsMap.get (documentRooms w) d) eqn:E; [repeat split; eauto|].
    cbn. repeat split; constructor. }
  destruct (Hnew _ eq_refl) as (Hn1 & Hn2 & Hn3).
  constructor; unfold roster in *; rewrite ?Hd, ?Hs.
  - apply NoDup_keys_set, H1.
  - intros d0 room' Hget.
    apply get_with in Hget as [[_ Hg]|[_ ->]]; eauto using set_not_nil.
  - intros d0 room' Hget.
    apply get_with in Hget as [[_ Hg]|[_ ->]]; eauto.
    now apply NoDup_keys_set.
  - intros d0 room' Hget.
    apply get_with in Hget as [[_ Hg]|[_ ->]]; eauto.
    apply Forall_set; auto.
  - intros d0 room' Hget.
    apply get_with in Hget as [[_ Hg]|[-> _]]; eauto.
  - intros d0 room' Hget.
    apply get_with in Hget as [[_ Hg]|[_ ->]]; eauto.
    apply Forall_set; auto.
  - intros d0 Hd0. rewrite members_join, roster_with, H7 by auto.
    destruct (String.eqb d d0) eqn:E; cbn; auto.
    apply String.eqb_eq in E. subst d0.
    assert (Heq : in_room (sioRooms w) d sid =
                  JsMap.has (users (room_or_new (documentRooms w) d)) sid).
    { apply eq_true_iff_eq. rewrite in_room_members, H7, has_true by auto.
      unfold roster_of, room_or_new.
      now destruct (JsMap.get (documentRooms w) d). }
    rewrite Heq.
    now destruct (JsMap.has (users (room_or_new (documentRooms w) d)) sid).
  - intros d0 s Hd0. rewrite members_join.
    assert (E : String.eqb d d0 = false).
    { apply String.eqb_neq. intros ->. congruence. }
    rewrite E. cbn. auto.
Qed.
End InvariantJoin.

(** ** What the other handlers do to the world *)

Section Frames.
Import JsMapFacts.
Variables (socket : Socket) (d : string).

Lemma text_change_world delta content w :
  world (on_text_change socket d delta content w) =
  mkWorld (documentRooms w)
          (JsMap.set (autoSaveTimers w) d (mkDocumentAutoSave d content (nextHandle w)))
          (sioRooms w)
          (cancel_registered (autoSaveTimers w) d (timers w) ++
           [mkTimer (nextHandle w) (now w + AUTO_SAVE_DEBOUNCE_MS)
                    (mkAutoSaveJob d content (socket_user socket))])
          (S (nextHandle w)) (suspended w) (now w).
Proof.
  unfold on_text_change, cancel_registered. run_handler.
  now destruct (JsMap.get (autoSaveTimers w) d).
Qed.

Lemma text_change_effects delta content w :
  effects (on_text_change socket d delta content w) =
  map (fun sid => Emit sid (EvTextChange delta content (socket_user socket)))
      (audience w socket d).
Proof.
  unfold on_text_change. run_handler.
  destruct (JsMap.get (autoSaveTimers w) d); cbn; now rewrite !app_nil_r.
Qed.

Lemma cursor_move_world position w :
  world (on_cursor_move socket d position w) = w.
Proof.
  unfold on_cursor_move. run_handler.
  destruct (JsMap.get (documentRooms w) d) as [room|]; cbn; auto.
  now destruct (JsMap.get (users room) (socket_id socket)).
Qed.

Lemma cursor_move_effects position w :
  effects (on_cursor_move socket d position w) =
  match JsMap.get (documentRooms w) d with
  | Some room =>
      match JsMap.get (users room) (socket_id socket) with
      | Some user =>
          map (fun sid => Emit sid (EvCursorMove (userId user) (userName user)
                                                 (color user) position))
              (audience w socket d)
      | None => []
      end
  | None => []
  end.
Proof.
  unfold on_cursor_move. run_handler.
  destruct (JsMap.get (documentRooms w) d) as [room|]; cbn; auto.
  now destruct (JsMap.get (users room) (socket_id socket)).
Qed.

Lemma connection_effects w : effects (on_connection socket w) = [].
Proof. reflexivity. Qed.

Lemma connection_world w :
  world (on_connection socket w) =
  mkWorld (documentRooms w) (autoSaveTimers w)
          (sio_with (sioRooms w) (socket_id socket) (socket_id socket))
          (timers w) (nextHandle w) (suspended w) (now w).
Proof.
  unfold on_connection, sio_with. run_handler.
  destruct (in_room (sioRooms w) (socket_id socket) (socket_id socket)); auto.
  now destruct w.
Qed.

Lemma save_document_world content answer w :
  world (on_save_document socket d content answer w) = w.
Proof. unfold on_save_document. run_handler. now destruct answer. Qed.

Lemma save_document_effects content answer w :
  effects (on_save_document socket d content answer w) =
  StoreUpdate d content ::
  match answer with
  | UpdateResolved =>
      Emit (socket_id socket) (EvDocumentSaved true (Some (now w))) ::
      map (fun sid => Emit sid (EvDocumentSaved true (Some (now w))))
          (audience w socket d)
  | UpdateRejected => [Emit (socket_id socket) (EvDocumentSaved false None)]
  end.
Proof. unfold on_save_document. run_handler. now destruct answer. Qed.
End Frames.

(** ** What a disconnect does *)

Section Disconnect.
Import JsMapFacts.
Variable socket : Socket.

Let leave_if_member : DocumentRoom -> string -> Handler unit :=
  fun room documentId =>
    if JsMap.has (users room) (socket_id socket)
    then handleUserLeave socket documentId
    else ret tt.

Let cancel_and_delete : DocumentAutoSave -> string -> Handler unit :=
  fun save documentId =>
    clearTimeout (timeout save) ;;
    modify (fun w =>
      with_autoSaveTimers w (JsMap.delete (autoSaveTimers w) documentId)).

Lemma filter_idem (xs : list string) :
  filter (not_socket socket) (filter (not_socket socket) xs) =
  filter (not_socket socket) xs.
Proof.
  induction xs as [|x xs IH]; cbn; auto.
  destruct (not_socket socket x) eqn:E; cbn; rewrite ?E, IH; auto.
Qed.

Lemma filter_twice {A} (f g : A -> bool) (l : list A) :
  filter f (filter g l) = filter (fun x => g x && f x) l.
Proof.
  induction l as [|x l IH]; cbn; auto.
  destruct (g x); cbn; [destruct (f x)|]; now rewrite IH.
Qed.

Lemma leave_loop es : forall w,
  let w' := world (forEach es leave_if_member w) in
  (autoSaveTimers w' = autoSaveTimers w /\ timers w' = timers w /\
   nextHandle w' = nextHandle w /\ suspended w' = suspended w /\ now w' = now w) /\
  (RoomsInv w -> RoomsInv w') /\
  (forall d0, roster w' d0 =
     if visited es (socket_id socket) d0
     then filter (not_socket socket) (roster w d0) else roster w d0).
Proof.
  induction es as [|[k room] rest IH]; intros w; cbn.
  - tauto.
  - specialize (IH (world (leave_if_member room k w))).
    cbn in IH. destruct IH as [Hframe [Hinv Hroster]].
    unfold leave_if_member in *.
    destruct (JsMap.has (users room) (socket_id socket)) eqn:Hhas.
    + rewrite handleUserLeave_world in *. cbn in *.
      split; [exact Hframe|]. split.
      * intros Hw. apply Hinv.
        apply RoomsInv_leave with (w := w) (d := k) (sid := socket_id socket); auto.
      * intros d0. rewrite Hroster. unfold roster. cbn.
        rewrite roster_without. rewrite andb_true_r.
        fold (not_socket socket).
        destruct (String.eqb k d0) eqn:E; cbn.
        -- destruct (visited rest (socket_id socket) d0); auto using filter_idem.
        -- reflexivity.
    + cbn in *. split; [exact Hframe|]. split; auto.
      intros d0. rewrite Hroster. now rewrite andb_false_r.
Qed.

Lemma visited_roster rooms d0 :
  (if visited rooms (socket_id socket) d0
   then filter (not_socket socket) (roster_of rooms d0) else roster_of rooms d0)
  = filter (not_socket socket) (roster_of rooms d0).
Proof.
  destruct (visited rooms (socket_id socket) d0) eqn:Hv; auto.
  unfold roster_of. destruct (JsMap.get rooms d0) as [room|] eqn:Hroom; auto.
  symmetry. apply filter_absent. apply has_false.
  destruct (JsMap.has (users room) (socket_id socket)) eqn:Hhas; auto.
  exfalso. apply get_some_In in Hroom.
  assert (visited rooms (socket_id socket) d0 = true); [|congruence].
  apply existsb_exists. exists (d0, room). cbn.
  now rewrite String.eqb_refl, Hhas.
Qed.

Lemma cancel_loop es : forall w,
  let r := forEach es cancel_and_delete w in
  effects r = [] /\
  documentRooms (world r) = documentRooms w /\ sioRooms (world r) = sioRooms w /\
  nextHandle (world r) = nextHandle w /\ suspended (world r) = suspended w /\
  now (world r) = now w /\
  timers (world r) = cancel_all es (timers w) /\
  autoSaveTimers (world r) =
    filter (fun e => negb (existsb (fun e' => String.eqb (fst e) (fst e')) es))
           (autoSaveTimers w).
Proof.
  induction es as [|[k save] rest IH]; intros w; cbn.
  - unfold cancel_all. cbn. rewrite !filter_true. tauto.
  - specialize (IH (world (cancel_and_delete save k w))).
    cbn in IH. destruct IH as (He & Hd & Hs & Hn & Hsu & Hno & Ht & Ha).
    unfold cancel_and_delete in *. revert He Hd Hs Hn Hsu Hno Ht Ha. run_handler.
    intros He Hd Hs Hn Hsu Hno Ht Ha.
    rewrite He, Hd, Hs, Hn, Hsu, Hno, Ht, Ha. repeat split; auto.
    + unfold cancel_all. rewrite filter_twice. apply filter_ext.
      intros t. cbn. now rewrite negb_orb.
    + unfold JsMap.delete. rewrite filter_twice. apply filter_ext.
      intros e. cbn. now rewrite negb_orb.
Qed.

Lemma filter_all_keys {V} (m : JsMap.t V) :
  filter (fun e => negb (existsb (fun e' => String.eqb (fst e) (fst e')) m)) m = [].
Proof.
  assert (H : forall l, incl l m ->
            filter (fun e => negb (existsb (fun e' => String.eqb (fst e) (fst e')) m)) l = []).
  { induction l as [|e l IH]; intros Hincl; cbn; auto.
    assert (He : existsb (fun e' => String.eqb (fst e) (fst e')) m = true).
    { apply existsb_exists. exists e. split; [apply Hincl; now left|].
      apply String.eqb_refl. }
    rewrite He. cbn. apply IH. intros x Hx. apply Hincl. now right. }
  apply H, incl_refl.
Qed.

Lemma closed_leave w d :
  world (handleUserLeave socket d (closed w socket))
  = closed (world (handleUserLeave socket d w)) socket.
Proof.
  rewrite !handleUserLeave_world. unfold closed, with_sioRooms.
  cbn [documentRooms autoSaveTimers sioRooms timers nextHandle suspended now].
  now rewrite closed_without, without_closed.
Qed.

(** The leave loop of a closing connection, seen from the world where the
    connection is still in its rooms. *)
Lemma closed_leave_if room k w :
  world (leave_if_member room k (closed w socket))
  = closed (world (leave_if_member room k w)) socket.
Proof.
  unfold leave_if_member.
  destruct (JsMap.has (users room) (socket_id socket)); auto using closed_leave.
Qed.

Lemma leave_loop_closed es : forall w,
  world (forEach es leave_if_member (closed w socket))
  = closed (world (forEach es leave_if_member w)) socket.
Proof.
  induction es as [|[k room] rest IH]; intros w; auto.
  cbn [forEach]. unfold bind. cbn [world].
  rewrite closed_leave_if. apply IH.
Qed.

Lemma disconnect_unfold w :
  on_disconnect socket w =
  let r1 := forEach (documentRooms w) leave_if_member (closed w socket) in
  let r2 := forEach (autoSaveTimers (world r1)) cancel_and_delete (world r1) in
  mkOutcome (value r2) (world r2) (effects r1 ++ effects r2).
Proof. reflexivity. Qed.

Lemma disconnect_transport w :
  sioRooms (world (on_disconnect socket w))
  = sio_closed (sioRooms (world (forEach (documentRooms w) leave_if_member w)))
               (socket_id socket).
Proof.
  rewrite disconnect_unfold. cbn zeta. cbn [world].
  set (w1 := world (forEach (documentRooms w) leave_if_member (closed w socket))).
  destruct (cancel_loop (autoSaveTimers w1) w1) as (_ & _ & Hs & _).
  cbn zeta in Hs. rewrite Hs. unfold w1. now rewrite leave_loop_closed.
Qed.

Lemma disconnect_world w :
  let w' := world (on_disconnect socket w) in
  autoSaveTimers w' = [] /\
  timers w' = cancel_all (autoSaveTimers w) (timers w) /\
  nextHandle w' = nextHandle w /\ suspended w' = suspended w /\ now w' = now w /\
  (RoomsInv w -> RoomsInv w') /\
  (forall d0, roster w' d0 = filter (not_socket socket) (roster w d0)).
Proof.
  rewrite disconnect_unfold. cbn zeta. cbn [world].
  pose proof (leave_loop (documentRooms w) w) as [(Ha & Ht & Hn & Hs & Hno) [Hinv Hroster]].
  cbn zeta in *.
  pose proof (leave_loop_closed (documentRooms w) w) as Hw1.
  set (w2 := world (forEach (documentRooms w) leave_if_member w)) in *.
  set (w1 := world (forEach (documentRooms w) leave_if_member (closed w socket))) in *.
  pose proof (cancel_loop (autoSaveTimers w1) w1) as (_ & Hd' & Hs' & Hn' & Hsu' & Hno' & Ht' & Ha').
  cbn zeta in *. rewrite Ha', Ht', Hn', Hsu', Hno', filter_all_keys.
  assert (Hout : forall d0, ~ In (socket_id socket) (roster w2 d0)).
  { intros d0. rewrite Hroster. unfold roster. rewrite visited_roster.
    intros Hin. apply filter_In in Hin as [_ Hin].
    unfold not_socket in Hin. now rewrite String.eqb_refl in Hin. }
  clearbody w1. subst w1.
  cbn [closed with_sioRooms autoSaveTimers timers nextHandle suspended now] in *.
  split; [reflexivity|]. split; [now rewrite Ha, Ht|].
  split; [assumption|]. split; [assumption|]. split; [assumption|]. split.
  - intros Hw. eapply RoomsInv_frame; [exact Hd' | exact Hs' |].
    apply RoomsInv_closed; auto.
  - intros d0. unfold roster in *. rewrite Hd'.
    cbn [closed with_sioRooms documentRooms]. rewrite Hroster. apply visited_roster.
Qed.
End Disconnect.

(** ** The invariant holds in every reachable world *)

Lemma step_handle w e r :
  step w e = Some r -> well_formed e = true /\ handle w e = Some r.
Proof.
  unfold step. destruct (well_formed e); [auto|discriminate].
Qed.

Lemma step_RoomsInv w e r :
  step w e = Some r -> RoomsInv w -> RoomsInv (world r).
Proof.
  intros Hstep. apply step_handle in Hstep as [Hwf Hstep]. revert Hwf Hstep.
  destruct e as [socket d uName answer rnd | socket d delta content
                | socket d position | socket d content answer | socket d
                | socket | ms | h | h answer | socket]; cbn [well_formed handle].
  - intros Hwf [= <-] Hw. apply andb_true_iff in Hwf as [Hsid Hdoc].
    destruct answer as [[document|]|]; auto.
    destruct (hasAccess document (socket_user socket)) eqn:Hacc.
    + apply negb_true_iff in Hdoc.
      apply RoomsInv_join with (w := w) (d := d) (sid := socket_id socket)
                               (u := presence socket uName rnd);
        auto; now rewrite join_admitted_world.
    + now rewrite join_denied.
  - intros _ [= <-] Hw.
    apply RoomsInv_frame with (w := w); auto; now rewrite text_change_world.
  - intros _ [= <-] Hw. now rewrite cursor_move_world.
  - intros _ [= <-] Hw. now rewrite save_document_world.
  - intros _ [= <-] Hw. now apply RoomsInv_handleUserLeave.
  - intros _ [= <-] Hw. now apply disconnect_world.
  - intros _ [= <-] Hw. now apply RoomsInv_frame with (w := w).
  - intros _. destruct (find_timer h (timers w)) as [t|]; [|discriminate].
    destruct (N.leb (timer_deadline t) (now w)); [|discriminate].
    intros [= <-] Hw. now apply RoomsInv_frame with (w := w).
  - intros _. destruct (find_suspended h (suspended w)) as [job|]; [|discriminate].
    intros [= <-] Hw. destruct answer; now apply RoomsInv_frame with (w := w).
  - intros Hsid [= <-] Hw.
    apply RoomsInv_connect with (w := w) (sid := socket_id socket); auto;
      now rewrite connection_world.
Qed.

Lemma Reachable_RoomsInv w : Reachable w -> RoomsInv w.
Proof.
  induction 1 as [|w e r _ IH Hstep].
  - apply RoomsInv_initial.
  - eapply step_RoomsInv; eauto.
Qed.

Lemma Reachable_run w es w' out :
  Reachable w -> run w es = Some (w', out) -> Reachable w'.
Proof.
  revert w out. induction es as [|e rest IH]; cbn; intros w out Hw.
  - now intros [= <- _].
  - destruct (step w e) as [r|] eqn:Hstep; [|discriminate].
    destruct (run (world r) rest) as [[w2 out2]|] eqn:Hrun; [|discriminate].
    intros [= <- _]. eapply IH; [|exact Hrun].
    eapply Reachable_step; eauto.
Qed.

(** ** Whom [socket.to] reaches *)

Lemma roster_ids w d sid :
  RoomsInv w -> In sid (roster w d) ->
  is_socket_id sid = true /\ is_socket_id d = false.
Proof.
  intros Hw. unfold roster, roster_of.
  destruct (JsMap.get (documentRooms w) d) as [room|] eqn:E; [|contradiction].
  intros Hin. split; [|exact (inv_names Hw _ E)].
  apply in_map_iff in Hin as [[k u] [<- Hin]].
  pose proof (inv_ids Hw _ E) as Hall. rewrite Forall_forall in Hall.
  exact (Hall _ Hin).
Qed.

Lemma audience_reached w socket d :
  RoomsInv w ->
  is_socket_id (socket_id socket) = true -> is_socket_id d = false ->
  audience w socket d = reached w socket d.
Proof.
  intros Hw Hsid Hd. unfold audience, reached, own_room.
  rewrite (inv_members Hw d Hd).
  rewrite (filter_ext _
             (fun x => negb (String.eqb x (socket_id socket)
                             && in_room (sioRooms w) (socket_id socket) (socket_id socket)))).
  - destruct (in_room (sioRooms w) (socket_id socket) (socket_id socket)).
    + apply filter_ext. intros x. unfold not_socket. now rewrite andb_true_r.
    + transitivity (filter (fun _ => true) (roster w d)).
      * apply filter_ext. intros x. now rewrite andb_false_r.
      * apply filter_true.
  - intros x. f_equal. apply except_own. intros y. now apply (inv_private Hw).
Qed.

Lemma audience_member w socket d :
  RoomsInv w -> In (socket_id socket) (roster w d) ->
  audience w socket d = reached w socket d.
Proof.
  intros Hw Hin. destruct (roster_ids _ _ Hw Hin). now apply audience_reached.
Qed.

Lemma reached_NoDup w socket d : RoomsInv w -> NoDup (reached w socket d).
Proof.
  intros Hw. assert (Hnd : NoDup (roster w d)).
  { unfold roster, roster_of.
    destruct (JsMap.get (documentRooms w) d) eqn:E; [|constructor].
    eapply inv_roster; eauto. }
  unfold reached. destruct (own_room w socket); auto. now apply NoDup_filter.
Qed.

Lemma reached_other w socket d sid :
  sid <> socket_id socket -> In sid (roster w d) -> In sid (reached w socket d).
Proof.
  intros Hne Hin. unfold reached. destruct (own_room w socket); auto.
  apply filter_In. split; auto. unfold not_socket.
  now apply negb_true_iff, String.eqb_neq.
Qed.

Lemma reached_in_roster w socket d sid :
  In sid (reached w socket d) -> In sid (roster w d).
Proof.
  unfold reached. destruct (own_room w socket); auto.
  intros Hin. now apply filter_In in Hin.
Qed.

Lemma reached_self w socket d :
  In (socket_id socket) (reached w socket d) <->
  own_room w socket = false /\ In (socket_id socket) (roster w d).
Proof.
  unfold reached. destruct (own_room w socket).
  - rewrite filter_In. unfold not_socket. rewrite String.eqb_refl. cbn.
    split; [intros [_ H]; discriminate | intros [H _]; discriminate].
  - tauto.
Qed.

(** ** Access gate and join *)

Lemma hasAccess_spec document uid :
  hasAccess document uid = true <->
  owner document = uid \/ In uid (collaborators document).
Proof.
  unfold hasAccess. rewrite orb_true_iff, String.eqb_eq, existsb_exists.
  split; intros [H|H]; auto.
  - destruct H as [c [Hin Hc]]. apply String.eqb_eq in Hc. subst. now right.
  - right. exists uid. split; auto. apply String.eqb_refl.
Qed.

Lemma in_room_sio_with l d sid : in_room (sio_with l d sid) d sid = true.
Proof.
  unfold sio_with. destruct (in_room l d sid) eqn:E; auto.
  unfold in_room. rewrite existsb_app. cbn.
  rewrite !String.eqb_refl. cbn. apply orb_true_r.
Qed.

Lemma presence_after_join w socket d uName rnd document :
  hasAccess document (socket_user socket) = true ->
  presence_of (world (on_join_document socket d uName
                        (FindResolved (Some document)) rnd w))
              d (socket_id socket)
  = Some (presence socket uName rnd).
Proof.
  intros H. rewrite join_admitted_world by auto.
  unfold presence_of, directory_with. cbn.
  rewrite JsMapFacts.get_set_same. cbn. apply JsMapFacts.get_set_same.
Qed.

Lemma roster_after_join w socket d uName rnd document d0 :
  hasAccess document (socket_user socket) = true ->
  roster (world (on_join_document socket d uName
                   (FindResolved (Some document)) rnd w)) d0
  = if String.eqb d d0
    then (if in_dec string_dec (socket_id socket) (roster w d0)
          then roster w d0 else roster w d0 ++ [socket_id socket])
    else roster w d0.
Proof.
  intros H. rewrite join_admitted_world by auto. unfold roster. cbn.
  rewrite roster_with. destruct (String.eqb d d0) eqn:E; auto.
  apply String.eqb_eq in E. subst d0.
  unfold roster_of, room_or_new.
  destruct (JsMap.get (documentRooms w) d) as [room|]; cbn.
  - destruct (JsMap.has (users room) (socket_id socket)) eqn:Hhas;
      destruct (in_dec string_dec (socket_id socket) (JsMap.keys (users room)))
        as [Hin|Hin]; auto.
    + apply JsMapFacts.has_false in Hin. congruence.
    + apply JsMapFacts.has_true in Hin. congruence.
  - reflexivity.
Qed.

(** C1.  A join of a document the store does not have answers the connection
    with "Document not found" and leaves the world as it was.  A join of a
    document whose owner is not the user and whose collaborators do not
    list the user answers "Access denied" and leaves the world as it was.
    The access test holds exactly when the user is the owner or a listed
    collaborator; when it holds the connection gets its presence in the room
    and joins the transport room; and the connection is in the roster after
    the join exactly when access was granted or it was there before. *)
Theorem C1_join_access_gate (w : World) (socket : Socket) (d uName : string)
    (rnd : nat) (document : StoredDocument) :
  let absent := on_join_document socket d uName (FindResolved None) rnd w in
  let r := on_join_document socket d uName (FindResolved (Some document)) rnd w in
  (absent = mkOutcome tt w [StoreFind d;
              Emit (socket_id socket) (EvError "Document not found")]) /\
  (hasAccess document (socket_user socket) = true <->
     owner document = socket_user socket \/
     In (socket_user socket) (collaborators document)) /\
  (if hasAccess document (socket_user socket)
   then presence_of (world r) d (socket_id socket) = Some (presence socket uName rnd)
        /\ in_room (sioRooms (world r)) d (socket_id socket) = true
   else r = mkOutcome tt w [StoreFind d;
              Emit (socket_id socket) (EvError "Access denied")]) /\
  (In (socket_id socket) (roster (world r) d) <->
     hasAccess document (socket_user socket) = true \/
     In (socket_id socket) (roster w d)).
Proof.
  cbn zeta. split; [reflexivity|]. split; [apply hasAccess_spec|].
  destruct (hasAccess document (socket_user socket)) eqn:Hacc.
  - split.
    + split; [now apply presence_after_join|].
      rewrite join_admitted_world by auto. cbn. apply in_room_sio_with.
    + rewrite roster_after_join, String.eqb_refl by auto.
      destruct (in_dec string_dec (socket_id socket) (roster w d)); [tauto|].
      rewrite in_app_iff. cbn. tauto.
  - rewrite join_denied by auto. split; [reflexivity|]. cbn.
    split; [tauto | intros [H|H]; [discriminate | exact H]].
Qed.

(** ** Who receives a broadcast *)

Section Deliveries.
Variable socket : Socket.
Variable ev : ServerEvent.

Lemma recipients_broadcast (l : list string) :
  recipients (map (fun sid => Emit sid ev) l) = l.
Proof. induction l as [|x l IH]; cbn; congruence. Qed.

Lemma delivered_broadcast_other (sid : string) (l : list string) :
  ~ In sid l -> delivered sid (map (fun s => Emit s ev) l) = [].
Proof.
  induction l as [|x l IH]; cbn; auto. intros H.
  destruct (String.eqb x sid) eqn:E.
  - apply String.eqb_eq in E. exfalso. auto.
  - auto.
Qed.

Lemma delivered_broadcast_once (sid : string) (l : list string) :
  NoDup l -> In sid l -> delivered sid (map (fun s => Emit s ev) l) = [ev].
Proof.
  induction 1 as [|x l Hx Hnd IH]; cbn; [tauto|]. intros [->|Hin].
  - rewrite String.eqb_refl. now rewrite delivered_broadcast_other.
  - destruct (String.eqb x sid) eqn:E; auto.
    apply String.eqb_eq in E. subst. contradiction.
Qed.

Lemma In_others (sid : string) (l : list string) :
  In sid (filter (not_socket socket) l) <-> In sid l /\ sid <> socket_id socket.
Proof.
  rewrite filter_In. unfold not_socket. rewrite negb_true_iff, String.eqb_neq. tauto.
Qed.

Lemma length_others (l : list string) :
  NoDup l -> In (socket_id socket) l ->
  List.length (filter (not_socket socket) l) = List.length l - 1.
Proof.
  induction 1 as [|x l Hx Hnd IH]; cbn; [tauto|]. intros [->|Hin].
  - unfold not_socket. rewrite String.eqb_refl. cbn.
    rewrite filter_absent by assumption. lia.
  - unfold not_socket at 1. destruct (String.eqb x (socket_id socket)) eqn:E.
    + apply String.eqb_eq in E. subst. contradiction.
    + cbn. rewrite IH by auto. destruct l; [destruct Hin | cbn; lia].
Qed.
End Deliveries.

Lemma roster_NoDup w d : RoomsInv w -> NoDup (roster w d).
Proof.
  intros Hw. unfold roster, roster_of.
  destruct (JsMap.get (documentRooms w) d) eqn:E; [|constructor].
  eapply inv_roster; eauto.
Qed.

(** ** Relays *)

Lemma delivered_reached_other w socket d ev sid :
  RoomsInv w -> In sid (roster w d) -> sid <> socket_id socket ->
  delivered sid (map (fun s => Emit s ev) (reached w socket d)) = [ev].
Proof.
  intros Hw Hin Hne. apply delivered_broadcast_once.
  - now apply reached_NoDup.
  - now apply reached_other.
Qed.

Lemma delivered_reached_self w socket d ev :
  RoomsInv w -> In (socket_id socket) (roster w d) ->
  delivered (socket_id socket) (map (fun s => Emit s ev) (reached w socket d))
  = if own_room w socket then [] else [ev].
Proof.
  intros Hw Hin. destruct (own_room w socket) eqn:Hown.
  - apply delivered_broadcast_other. rewrite reached_self. intros [H _]. congruence.
  - apply delivered_broadcast_once; [now apply reached_NoDup|].
    apply reached_self. auto.
Qed.

(** C2.  In a reachable world, a text change sent by a member of the room of
    the document is relayed, with the delta, the content and the sender's
    user id, once to each other member of the room and to nobody outside
    the room.  The sender is left out only while it is in the room named by
    its own connection id: once it has left that room (a leave-document
    carrying its own id does it), the relay comes back to the sender as
    well. *)
Theorem C2_text_change_fan_out (w : World) (socket : Socket) (d : string)
    (delta : Delta) (content : string) :
  Reachable w ->
  In (socket_id socket) (roster w d) ->
  let out := effects (on_text_change socket d delta content w) in
  let relay := EvTextChange delta content (socket_user socket) in
  out = map (fun sid => Emit sid relay) (reached w socket d) /\
  NoDup (recipients out) /\
  (forall sid, In sid (recipients out) -> In sid (roster w d)) /\
  (forall sid, In sid (roster w d) -> sid <> socket_id socket ->
               delivered sid out = [relay]) /\
  delivered (socket_id socket) out = (if own_room w socket then [] else [relay]) /\
  List.length (recipients out)
  = (if own_room w socket then List.length (roster w d) - 1
     else List.length (roster w d)).
Proof.
  intros Hreach Hin. cbn zeta.
  pose proof (Reachable_RoomsInv Hreach) as Hw.
  rewrite text_change_effects, audience_member by auto.
  rewrite recipients_broadcast.
  split; [reflexivity|]. split; [now apply reached_NoDup|].
  split; [intros sid; apply reached_in_roster|].
  split; [intros sid H1 H2; now apply delivered_reached_other|].
  split; [now apply delivered_reached_self|].
  unfold reached. destruct (own_room w socket); auto.
  apply length_others; auto. now apply roster_NoDup.
Qed.

(** C9.  A cursor move from a connection that has no presence in the room
    of the document (the room may not exist) emits nothing and leaves the
    world as it was.  Otherwise, in a reachable world, the world is left as
    it was and a cursor move with the user id, name and colour of the
    sender's presence and the position is sent once to every other member of
    the room, to nobody outside the room, and back to the sender only when
    it has left the room named by its own connection id. *)
Theorem C9_cursor_move (w : World) (socket : Socket) (d : string) (position : N) :
  Reachable w ->
  let r := on_cursor_move socket d position w in
  match presence_of w d (socket_id socket) with
  | None => r = mkOutcome tt w []
  | Some user =>
      let move := EvCursorMove (userId user) (userName user) (color user) position in
      world r = w /\
      effects r = map (fun sid => Emit sid move) (reached w socket d) /\
      (forall sid, In sid (roster w d) -> sid <> socket_id socket ->
                   delivered sid (effects r) = [move]) /\
      (forall sid, In sid (recipients (effects r)) -> In sid (roster w d))
  end.
Proof.
  intros Hreach. cbn zeta.
  pose proof (Reachable_RoomsInv Hreach) as Hw.
  pose proof (cursor_move_world socket d position w) as Hworld.
  pose proof (cursor_move_effects socket d position w) as Heff.
  destruct (presence_of w d (socket_id socket)) as [user|] eqn:Hp.
  - assert (Hin : In (socket_id socket) (roster w d)).
    { revert Hp. unfold presence_of, roster, roster_of.
      destruct (JsMap.get (documentRooms w) d) as [room|]; [|discriminate].
      apply JsMapFacts.get_some_keys. }
    unfold presence_of in Hp. rewrite Heff.
    destruct (JsMap.get (documentRooms w) d) as [room|]; [|discriminate].
    rewrite Hp, audience_member by auto.
    split; [exact Hworld|]. split; [reflexivity|]. split.
    + intros sid H1 H2. now apply delivered_reached_other.
    + intros sid. rewrite recipients_broadcast. apply reached_in_roster.
  - unfold presence_of in Hp.
    destruct (on_cursor_move socket d position w) as [[] w' out]. cbn in *.
    subst w'. rewrite Heff.
    destruct (JsMap.get (documentRooms w) d) as [room|]; auto.
    now rewrite Hp.
Qed.

(** C8.  An explicit save first issues the store update with the supplied
    content and leaves the world, pending timers and registry included,
    as it was.  When the update resolves, the requester is sent
    document-saved with success and a timestamp, and then every other
    member of the room of the document is sent the same once (and the
    requester once more when it is a member that has left the room named by
    its own connection id); when it rejects, the requester alone is sent
    document-saved without success and nobody else is sent anything. *)
Theorem C8_save_document (w : World) (socket : Socket) (d content : string)
    (answer : UpdateResult) :
  Reachable w ->
  is_socket_id (socket_id socket) = true ->
  is_socket_id d = false ->
  let r := on_save_document socket d content answer w in
  world r = w /\
  effects r =
    StoreUpdate d content ::
    match answer with
    | UpdateResolved =>
        Emit (socket_id socket) (EvDocumentSaved true (Some (now w))) ::
        map (fun sid => Emit sid (EvDocumentSaved true (Some (now w))))
            (reached w socket d)
    | UpdateRejected =>
        [Emit (socket_id socket) (EvDocumentSaved false None)]
    end /\
  (answer = UpdateResolved ->
   forall sid, In sid (roster w d) -> sid <> socket_id socket ->
               delivered sid (effects r) = [EvDocumentSaved true (Some (now w))]).
Proof.
  intros Hreach Hsid Hd. cbn zeta.
  pose proof (Reachable_RoomsInv Hreach) as Hw.
  rewrite save_document_world, save_document_effects.
  rewrite audience_reached by auto.
  split; auto. split; [reflexivity|]. intros -> sid Hin Hne.
  cbn [delivered]. apply String.eqb_neq in Hne as Hne'.
  rewrite String.eqb_sym, Hne'. now apply delivered_reached_other.
Qed.

(** ** Notifications of a join *)

Lemma delivered_app sid (a b : list Effect) :
  delivered sid (a ++ b) = delivered sid a ++ delivered sid b.
Proof.
  induction a as [|[r ev| |] a IH]; cbn; auto.
  destruct (String.eqb r sid); cbn; now rewrite IH.
Qed.

Lemma users_list_keys (socket : Socket) (us : JsMap.t SocketUser) :
  Forall (fun e => socketId (snd e) = fst e) us ->
  map socketId
      (filter (fun u => negb (String.eqb (socketId u) (socket_id socket)))
              (JsMap.values us))
  = filter (not_socket socket) (JsMap.keys us).
Proof.
  unfold JsMap.values, JsMap.keys, not_socket.
  induction 1 as [|[k u] us Hk _ IH]; cbn in *; auto.
  rewrite Hk. destruct (String.eqb k (socket_id socket)); cbn; now rewrite IH, ?Hk.
Qed.

Lemma get_In_values {V} (m : JsMap.t V) k v :
  JsMap.get m k = Some v -> In v (JsMap.values m).
Proof.
  intros H. apply JsMapFacts.get_some_In in H.
  unfold JsMap.values. apply in_map_iff. now exists (k, v).
Qed.

Lemma in_room_join l r s r' s' :
  in_room (sio_with l r s) r' s' = in_room l r' s' || (String.eqb r r' && String.eqb s s').
Proof.
  unfold sio_with. destruct (in_room l r s) eqn:E.
  - destruct (String.eqb r r' && String.eqb s s') eqn:E'; [|now rewrite orb_false_r].
    apply andb_true_iff in E' as [E1 E2].
    apply String.eqb_eq in E1, E2. subst. now rewrite E.
  - unfold in_room. rewrite existsb_app. cbn. now rewrite orb_false_r.
Qed.

(** A granted join of a document leaves the room named by the joiner's own
    id as it was. *)
Lemma own_room_after_join w socket d uName rnd document (other : Socket) :
  hasAccess document (socket_user socket) = true ->
  is_socket_id (socket_id other) = true -> is_socket_id d = false ->
  own_room (world (on_join_document socket d uName (FindResolved (Some document)) rnd w))
           other
  = own_room w other.
Proof.
  intros Hacc Hsid Hd. rewrite join_admitted_world by auto.
  unfold own_room. cbn [sioRooms]. rewrite in_room_join.
  assert (E : String.eqb d (socket_id other) = false).
  { rewrite String.eqb_sym. now apply socket_id_apart. }
  rewrite E. apply orb_false_r.
Qed.

Section JoinNotifications.
Variables (w : World) (socket : Socket) (d uName : string) (rnd : nat).
Variable document : StoredDocument.
Hypothesis Hreach : Reachable w.
Hypothesis Hacc : hasAccess document (socket_user socket) = true.
Hypothesis Hsid : is_socket_id (socket_id socket) = true.
Hypothesis Hdoc : is_socket_id d = false.

Let r := on_join_document socket d uName (FindResolved (Some document)) rnd w.
Let joined := EvUserJoined (socket_user socket) uName (generateUserColor rnd).
Let others :=
  filter (fun u => negb (String.eqb (socketId u) (socket_id socket)))
         (room_users (world r) d).

Lemma join_reachable : Reachable (world r).
Proof.
  apply Reachable_step with (w := w) (e := JoinDocument socket d uName
                                            (FindResolved (Some document)) rnd); auto.
  unfold step. cbn [well_formed]. now rewrite Hsid, Hdoc.
Qed.

Lemma join_effects :
  effects r =
  StoreFind d ::
  map (fun sid => Emit sid joined) (reached (world r) socket d) ++
  [Emit (socket_id socket) (EvUsersList others)].
Proof.
  pose proof (Reachable_RoomsInv join_reachable) as Hw'.
  rewrite <- audience_reached by auto.
  unfold others, room_users, r. rewrite join_admitted_effects by exact Hacc.
  rewrite join_admitted_world by exact Hacc.
  cbn [documentRooms]. unfold directory_with.
  now rewrite JsMapFacts.get_set_same.
Qed.

Lemma join_others_roster :
  map socketId others = filter (not_socket socket) (roster (world r) d).
Proof.
  pose proof (Reachable_RoomsInv join_reachable) as Hw'.
  unfold others, room_users, roster, roster_of.
  destruct (JsMap.get (documentRooms (world r)) d) as [room|] eqn:E; auto.
  apply users_list_keys. eapply inv_presence; eauto.
Qed.

Lemma join_in_roster : In (socket_id socket) (roster (world r) d).
Proof.
  unfold r. rewrite roster_after_join, String.eqb_refl by auto.
  destruct (in_dec string_dec (socket_id socket) (roster w d)); auto.
  apply in_or_app. right. now left.
Qed.

Lemma join_delivered_other sid :
  In sid (roster (world r) d) -> sid <> socket_id socket ->
  delivered sid (effects r) = [joined].
Proof.
  intros Hin Hne. pose proof (Reachable_RoomsInv join_reachable) as Hw'.
  rewrite join_effects. cbn [delivered]. rewrite delivered_app. cbn [delivered].
  apply String.eqb_neq in Hne as Hne'. rewrite String.eqb_sym, Hne', app_nil_r.
  now apply delivered_reached_other.
Qed.

Lemma join_delivered_self :
  delivered (socket_id socket) (effects r)
  = (if own_room w socket then [] else [joined]) ++ [EvUsersList others].
Proof.
  pose proof (Reachable_RoomsInv join_reachable) as Hw'.
  rewrite join_effects. cbn [delivered]. rewrite delivered_app. cbn [delivered].
  rewrite String.eqb_refl.
  rewrite delivered_reached_self by auto using join_in_roster.
  unfold r. now rewrite own_room_after_join by auto.
Qed.
End JoinNotifications.

Lemma presence_kept w socket d uName rnd document sid u :
  hasAccess document (socket_user socket) = true ->
  sid <> socket_id socket ->
  presence_of w d sid = Some u ->
  presence_of (world (on_join_document socket d uName
                        (FindResolved (Some document)) rnd w)) d sid = Some u.
Proof.
  intros Hacc Hne. rewrite join_admitted_world by auto.
  unfold presence_of, directory_with, room_or_new. cbn.
  rewrite JsMapFacts.get_set_same. cbn.
  destruct (JsMap.get (documentRooms w) d) as [room|]; [|discriminate].
  intros H. rewrite JsMapFacts.get_set_other; auto.
Qed.

Lemma presence_in_room_users w d sid u :
  presence_of w d sid = Some u -> In u (room_users w d).
Proof.
  unfold presence_of, room_users.
  destruct (JsMap.get (documentRooms w) d) as [room|]; [|discriminate].
  apply get_In_values.
Qed.

Lemma presence_in_roster w d sid u :
  presence_of w d sid = Some u -> In sid (roster w d).
Proof.
  unfold presence_of, roster, roster_of.
  destruct (JsMap.get (documentRooms w) d) as [room|]; [|discriminate].
  apply JsMapFacts.get_some_keys.
Qed.

(** C7.  In a reachable world, a granted join of a document by a connection
    delivers to every other member of the room exactly one user-joined event
    with the joiner's user id, name and colour, and to the joiner one
    users-list: the presences of the room after the join without the joiner's
    own, which are those of the other connections of the roster.  The
    users-list is all the joiner is sent, unless it has left the room named
    by its own connection id: then its own user-joined comes first.  When a
    second connection then joins the same document, the first receives the
    user-joined event of the second, and the second receives a users-list
    that holds the presence of the first and no presence of its own. *)
Theorem C7_join_notifications (w : World) (socket : Socket) (d uName : string)
    (rnd : nat) (document : StoredDocument) :
  Reachable w ->
  hasAccess document (socket_user socket) = true ->
  is_socket_id (socket_id socket) = true ->
  is_socket_id d = false ->
  let r := on_join_document socket d uName (FindResolved (Some document)) rnd w in
  let joined := EvUserJoined (socket_user socket) uName (generateUserColor rnd) in
  let others :=
    filter (fun u => negb (String.eqb (socketId u) (socket_id socket)))
           (room_users (world r) d) in
  (forall sid, In sid (roster (world r) d) -> sid <> socket_id socket ->
               delivered sid (effects r) = [joined]) /\
  delivered (socket_id socket) (effects r)
    = (if own_room w socket then [] else [joined]) ++ [EvUsersList others] /\
  map socketId others = filter (not_socket socket) (roster (world r) d) /\
  (forall (second : Socket) (name2 : string) (rnd2 : nat) (document2 : StoredDocument),
     socket_id second <> socket_id socket ->
     is_socket_id (socket_id second) = true ->
     hasAccess document2 (socket_user second) = true ->
     let r2 := on_join_document second d name2 (FindResolved (Some document2))
                                rnd2 (world r) in
     let joined2 := EvUserJoined (socket_user second) name2 (generateUserColor rnd2) in
     delivered (socket_id socket) (effects r2) = [joined2] /\
     exists l,
       delivered (socket_id second) (effects r2)
         = (if own_room w second then [] else [joined2]) ++ [EvUsersList l] /\
       In (presence socket uName rnd) l /\
       Forall (fun u => socketId u <> socket_id second) l).
Proof.
  intros Hreach Hacc Hsid Hdoc. cbn zeta.
  split; [intros sid; now apply join_delivered_other|].
  split; [now apply join_delivered_self|].
  split; [now apply join_others_roster|].
  intros second name2 rnd2 document2 Hne Hsid2 Hacc2.
  pose proof (@join_reachable w socket d uName rnd document Hreach Hsid Hdoc)
    as Hreach1.
  pose proof (presence_after_join w socket d uName rnd document Hacc) as Hpres.
  pose proof (@presence_kept _ second d name2 rnd2 document2 _ _ Hacc2
                (not_eq_sym Hne) Hpres) as Hpres2.
  split.
  - apply join_delivered_other; auto.
    eapply presence_in_roster; eauto.
  - eexists. split; [|split].
    + rewrite join_delivered_self by auto.
      now rewrite own_room_after_join by auto.
    + apply filter_In. split.
      * eapply presence_in_room_users; eauto.
      * cbn. apply negb_true_iff, String.eqb_neq. auto.
    + apply Forall_forall. intros u Hu. apply filter_In in Hu as [_ Hu].
      now apply negb_true_iff, String.eqb_neq in Hu.
Qed.

(** ** Empty rooms *)

Lemma no_roster_no_room w d :
  RoomsInv w -> roster w d = [] -> JsMap.get (documentRooms w) d = None.
Proof.
  intros Hw. unfold roster, roster_of.
  destruct (JsMap.get (documentRooms w) d) as [room|] eqn:E; auto.
  intros Hk. exfalso. apply (inv_nonempty Hw _ E).
  unfold JsMap.keys in Hk. now apply map_eq_nil in Hk.
Qed.

Lemma roster_after_leave socket d w d0 :
  roster (world (on_leave_document socket d w)) d0 =
  if String.eqb d d0 then filter (not_socket socket) (roster w d0) else roster w d0.
Proof.
  unfold on_leave_document, roster. rewrite handleUserLeave_world. cbn.
  apply roster_without.
Qed.

Lemma only_self_filtered socket :
  filter (not_socket socket) [socket_id socket] = [].
Proof. cbn. unfold not_socket. now rewrite String.eqb_refl. Qed.

Lemma join_fresh w socket d uName rnd document :
  Reachable w ->
  JsMap.get (documentRooms w) d = None ->
  hasAccess document (socket_user socket) = true ->
  is_socket_id (socket_id socket) = true ->
  is_socket_id d = false ->
  let r := on_join_document socket d uName (FindResolved (Some document)) rnd w in
  effects r =
    StoreFind d ::
    (if own_room w socket then []
     else [Emit (socket_id socket)
             (EvUserJoined (socket_user socket) uName (generateUserColor rnd))]) ++
    [Emit (socket_id socket) (EvUsersList [])] /\
  roster (world r) d = [socket_id socket].
Proof.
  intros Hreach Hnone Hacc Hsid Hd. cbn zeta.
  assert (Hroster : roster (world (on_join_document socket d uName
                                     (FindResolved (Some document)) rnd w)) d
                    = [socket_id socket]).
  { rewrite roster_after_join, String.eqb_refl by auto.
    unfold roster, roster_of. rewrite Hnone.
    now destruct (in_dec string_dec (socket_id socket) []). }
  split; [|exact Hroster].
  pose proof (Reachable_RoomsInv
                (@join_reachable w socket d uName rnd document Hreach Hsid Hd)) as Hw'.
  rewrite join_admitted_effects, audience_reached by auto.
  unfold reached. rewrite Hroster, own_room_after_join by auto.
  unfold room_or_new. rewrite Hnone. unfold JsMap.values. cbn [users JsMap.empty JsMap.set map snd filter presence socketId].
  rewrite String.eqb_refl. cbn [negb].
  destruct (own_room w socket); [|reflexivity].
  unfold not_socket. now rewrite String.eqb_refl.
Qed.

(** C5.  No reachable world has a room without members.  When the roster
    of a document is down to one connection, the step in which that
    connection leaves the document, and equally the step in which it
    disconnects, removes the room from the directory; a join granted after
    either step is sent an empty users-list and makes the joiner the only
    member of a new room.  (A joiner that has left the room named by its own
    connection id is sent its own user-joined first.) *)
Theorem C5_empty_room_removed (w : World) (socket : Socket) (d : string) :
  Reachable w ->
  (forall d0 room, JsMap.get (documentRooms w) d0 = Some room -> users room <> []) /\
  (roster w d = [socket_id socket] ->
   let left := world (on_leave_document socket d w) in
   let gone := world (on_disconnect socket w) in
   JsMap.get (documentRooms left) d = None /\
   JsMap.get (documentRooms gone) d = None /\
   forall (joiner : Socket) (uName : string) (rnd : nat) (document : StoredDocument)
          (w' : World),
     hasAccess document (socket_user joiner) = true ->
     is_socket_id (socket_id joiner) = true ->
     w' = left \/ w' = gone ->
     let r := on_join_document joiner d uName (FindResolved (Some document)) rnd w' in
     effects r =
       StoreFind d ::
       (if own_room w' joiner then []
        else [Emit (socket_id joiner)
                (EvUserJoined (socket_user joiner) uName (generateUserColor rnd))]) ++
       [Emit (socket_id joiner) (EvUsersList [])] /\
     roster (world r) d = [socket_id joiner]).
Proof.
  intros Hreach. pose proof (Reachable_RoomsInv Hreach) as Hw.
  split; [exact (inv_nonempty Hw)|]. intros Hlast. cbn zeta.
  assert (Hin : In (socket_id socket) (roster w d)) by (rewrite Hlast; now left).
  destruct (roster_ids _ _ Hw Hin) as [Hsid Hd].
  assert (Hleft : Reachable (world (on_leave_document socket d w)))
    by now apply Reachable_step with (w := w) (e := LeaveDocument socket d).
  assert (Hgone : Reachable (world (on_disconnect socket w)))
    by now apply Reachable_step with (w := w) (e := Disconnect socket).
  assert (Hl : JsMap.get (documentRooms (world (on_leave_document socket d w))) d = None).
  { apply no_roster_no_room; [now apply Reachable_RoomsInv|].
    rewrite roster_after_leave, String.eqb_refl, Hlast. apply only_self_filtered. }
  assert (Hg : JsMap.get (documentRooms (world (on_disconnect socket w))) d = None).
  { apply no_roster_no_room; [now apply Reachable_RoomsInv|].
    destruct (disconnect_world socket w) as (_ & _ & _ & _ & _ & _ & Hr).
    rewrite Hr, Hlast. apply only_self_filtered. }
  split; [exact Hl|]. split; [exact Hg|].
  intros joiner uName rnd document w' Hacc Hjoiner [->| ->]; now apply join_fresh.
Qed.

(** ** Pending saves on leave and disconnect *)

Lemma find_timer_not_armed w h : armed w h = false -> find_timer h (timers w) = None.
Proof.
  unfold armed, find_timer. induction (timers w) as [|t ts IH]; cbn; auto.
  destruct (Nat.eqb (timer_handle t) h); cbn; [discriminate | auto].
Qed.

Lemma cancel_all_not_armed (saves : JsMap.t DocumentAutoSave) (ts : list Timer) e :
  In e saves ->
  existsb (fun t => Nat.eqb (timer_handle t) (timeout (snd e))) (cancel_all saves ts) = false.
Proof.
  intros Hin. unfold cancel_all. induction ts as [|t ts IH]; cbn; auto.
  destruct (existsb (fun e0 => Nat.eqb (timer_handle t) (timeout (snd e0))) saves) eqn:E;
    cbn; auto.
  rewrite IH, orb_false_r.
  destruct (Nat.eqb (timer_handle t) (timeout (snd e))) eqn:Ht; auto.
  assert (existsb (fun e0 => Nat.eqb (timer_handle t) (timeout (snd e0))) saves = true);
    [|congruence].
  apply existsb_exists. eauto.
Qed.

(** C6.  A disconnect of any connection empties the registry of pending
    saves, and every timer the registry named (whatever the document, and
    whether or not the connection was in its room) is no longer armed and
    cannot fire.  An explicit leave changes neither the registry nor the
    armed timers. *)
Theorem C6_disconnect_cancels_every_save (w : World) (socket : Socket) (d : string) :
  let gone := world (on_disconnect socket w) in
  let left := world (on_leave_document socket d w) in
  autoSaveTimers gone = [] /\
  Forall (fun e => armed gone (timeout (snd e)) = false /\
                   step gone (TimerFire (timeout (snd e))) = None)
         (autoSaveTimers w) /\
  autoSaveTimers left = autoSaveTimers w /\
  timers left = timers w.
Proof.
  cbn zeta.
  destruct (disconnect_world socket w) as (Ha & Ht & _).
  split; [exact Ha|]. split.
  - apply Forall_forall. intros e He.
    assert (Harm : armed (world (on_disconnect socket w)) (timeout (snd e)) = false).
    { unfold armed. rewrite Ht. now apply cancel_all_not_armed. }
    split; auto. unfold step. cbn [well_formed handle].
    now rewrite (find_timer_not_armed _ _ Harm).
  - unfold on_leave_document. now rewrite handleUserLeave_world.
Qed.

(** ** Store calls *)

Lemma store_reads_app (a b : list Effect) :
  store_reads (a ++ b) = store_reads a + store_reads b.
Proof. induction a as [|[| |] a IH]; cbn; auto. Qed.

Lemma store_reads_broadcast ev (l : list string) :
  store_reads (map (fun sid => Emit sid ev) l) = 0.
Proof. induction l; cbn; auto. Qed.

Lemma store_writes_broadcast d ev (l : list string) :
  store_writes d (map (fun sid => Emit sid ev) l) = [].
Proof. induction l; cbn; auto. Qed.

Lemma store_reads_leave socket d w :
  store_reads (effects (handleUserLeave socket d w)) = 0.
Proof.
  rewrite handleUserLeave_effects.
  destruct (JsMap.get (documentRooms w) d) as [room|]; auto.
  destruct (JsMap.get (users room) (socket_id socket)); auto.
  apply store_reads_broadcast.
Qed.

Lemma effects_bind {A B} (m : Handler A) (f : A -> Handler B) w :
  effects (bind m f w) = effects (m w) ++ effects (f (value (m w)) (world (m w))).
Proof. reflexivity. Qed.

Lemma store_reads_disconnect socket w :
  store_reads (effects (on_disconnect socket w)) = 0.
Proof.
  rewrite disconnect_unfold. cbn zeta. cbn [effects].
  set (leave := fun (room : DocumentRoom) (documentId : string) =>
                  if JsMap.has (users room) (socket_id socket)
                  then handleUserLeave socket documentId else ret tt).
  assert (H1 : forall es w0, store_reads (effects (forEach es leave w0)) = 0).
  { induction es as [|[k room] rest IH]; intros w0; cbn [forEach]; auto.
    rewrite effects_bind, store_reads_app, IH. unfold leave.
    destruct (JsMap.has (users room) (socket_id socket)); auto.
    now rewrite store_reads_leave. }
  rewrite store_reads_app, H1.
  match goal with
  | |- context [effects (forEach ?es ?f ?w0)] =>
      destruct (cancel_loop es w0) as [He _]
  end.
  cbn zeta in He. rewrite He. reflexivity.
Qed.

Lemma store_reads_handle w e :
  match handle w e with
  | Some r =>
      store_reads (effects r) =
      match e with JoinDocument _ _ _ _ _ => 1 | _ => 0 end
  | None => True
  end.
Proof.
  destruct e as [socket d uName answer rnd | socket d delta content
                | socket d position | socket d content answer | socket d
                | socket | ms | h | h answer | socket]; cbn [handle].
  - destruct answer as [[document|]|]; auto.
    destruct (hasAccess document (socket_user socket)) eqn:Hacc.
    + rewrite join_admitted_effects by auto. cbn [store_reads].
      now rewrite store_reads_app, store_reads_broadcast.
    + now rewrite join_denied.
  - rewrite text_change_effects. apply store_reads_broadcast.
  - rewrite cursor_move_effects.
    destruct (JsMap.get (documentRooms w) d) as [room|]; auto.
    destruct (JsMap.get (users room) (socket_id socket)); auto.
    apply store_reads_broadcast.
  - rewrite save_document_effects. destruct answer; cbn; auto.
    apply store_reads_broadcast.
  - apply store_reads_leave.
  - apply store_reads_disconnect.
  - reflexivity.
  - destruct (find_timer h (timers w)) as [t|]; auto.
    now destruct (N.leb (timer_deadline t) (now w)).
  - destruct (find_suspended h (suspended w)) as [job|]; auto.
    now destruct answer.
  - reflexivity.
Qed.

Lemma store_reads_step w e :
  match step w e with
  | Some r =>
      store_reads (effects r) =
      match e with JoinDocument _ _ _ _ _ => 1 | _ => 0 end
  | None => True
  end.
Proof.
  unfold step. destruct (well_formed e); [apply store_reads_handle | exact I].
Qed.

(** ** Timer handles *)

Lemma handles_kept_distinct (keep : Timer -> bool) (ts : list Timer) :
  NoDup (map timer_handle ts) -> NoDup (map timer_handle (filter keep ts)).
Proof.
  induction ts as [|t ts IH]; cbn; intros Hnd; [constructor|].
  apply NoDup_cons_iff in Hnd as [Hfresh Hrest].
  destruct (keep t); cbn; auto.
  apply NoDup_cons; auto. rewrite in_map_iff. intros [t' [Hh Hin]].
  apply filter_In in Hin as [Hin _]. apply Hfresh. rewrite <- Hh. now apply in_map.
Qed.

Lemma handles_kept_below (n : nat) (keep : Timer -> bool) (ts : list Timer) :
  Forall (fun t => timer_handle t < n) ts ->
  Forall (fun t => timer_handle t < n) (filter keep ts).
Proof.
  rewrite !Forall_forall. intros Hall t Ht. apply filter_In in Ht. now apply Hall.
Qed.

Lemma TimersInv_filter w w' (p : Timer -> bool) :
  timers w' = filter p (timers w) -> nextHandle w' = nextHandle w ->
  TimersInv w -> TimersInv w'.
Proof.
  intros Ht Hn [H1 H2]. constructor; rewrite Ht, ?Hn.
  - now apply handles_kept_distinct.
  - now apply handles_kept_below.
Qed.

Lemma TimersInv_frame w w' :
  timers w' = timers w -> nextHandle w' = nextHandle w ->
  TimersInv w -> TimersInv w'.
Proof. intros Ht Hn [H1 H2]. constructor; now rewrite Ht, ?Hn. Qed.

Lemma TimersInv_text_change socket d delta content w :
  TimersInv w -> TimersInv (world (on_text_change socket d delta content w)).
Proof.
  intros [H1 H2]. rewrite text_change_world.
  assert (Hsub : NoDup (map timer_handle (cancel_registered (autoSaveTimers w) d (timers w)))
                 /\ Forall (fun t => timer_handle t < nextHandle w)
                           (cancel_registered (autoSaveTimers w) d (timers w))).
  { unfold cancel_registered. destruct (JsMap.get (autoSaveTimers w) d); auto.
    split; [now apply handles_kept_distinct | now apply handles_kept_below]. }
  destruct Hsub as [Hnd Hlt]. constructor; cbn [timers nextHandle].
  - rewrite map_app. cbn. apply NoDup_app; auto.
    + constructor; [intros [] | constructor].
    + intros h Hin [<-|[]]. apply in_map_iff in Hin as [t [Ht Hin]].
      rewrite Forall_forall in Hlt. apply Hlt in Hin. lia.
  - apply Forall_app. split.
    + eapply Forall_impl; [|exact Hlt]. cbn. intros; lia.
    + constructor; [cbn; lia | constructor].
Qed.

Lemma step_TimersInv w e r :
  step w e = Some r -> TimersInv w -> TimersInv (world r).
Proof.
  intros Hstep. apply step_handle in Hstep as [_ Hstep]. revert Hstep.
  destruct e as [socket d uName answer rnd | socket d delta content
                | socket d position | socket d content answer | socket d
                | socket | ms | h | h answer | socket]; cbn [handle].
  - intros [= <-] Hw. destruct answer as [[document|]|]; auto.
    destruct (hasAccess document (socket_user socket)) eqn:Hacc.
    + apply TimersInv_frame with (w := w); auto; now rewrite join_admitted_world.
    + now rewrite join_denied.
  - intros [= <-]. apply TimersInv_text_change.
  - intros [= <-] Hw. now rewrite cursor_move_world.
  - intros [= <-] Hw. now rewrite save_document_world.
  - intros [= <-] Hw. unfold on_leave_document.
    apply TimersInv_frame with (w := w); auto; now rewrite handleUserLeave_world.
  - intros [= <-] Hw.
    destruct (disconnect_world socket w) as (_ & Ht & Hn & _).
    eapply TimersInv_filter; eauto.
  - intros [= <-] Hw. now apply TimersInv_frame with (w := w).
  - destruct (find_timer h (timers w)) as [t|]; [|discriminate].
    destruct (N.leb (timer_deadline t) (now w)); [|discriminate].
    intros [= <-] Hw. eapply TimersInv_filter with (w := w); eauto; reflexivity.
  - destruct (find_suspended h (suspended w)) as [job|]; [|discriminate].
    intros [= <-] Hw. destruct answer; now apply TimersInv_frame with (w := w).
  - intros [= <-] Hw.
    apply TimersInv_frame with (w := w); auto; now rewrite connection_world.
Qed.

Lemma Reachable_TimersInv w : Reachable w -> TimersInv w.
Proof.
  induction 1 as [|w e r _ IH Hstep].
  - constructor; cbn; constructor.
  - eapply step_TimersInv; eauto.
Qed.

Lemma find_timer_In w t :
  TimersInv w -> In t (timers w) -> find_timer (timer_handle t) (timers w) = Some t.
Proof.
  intros [Hnd _]. unfold find_timer.
  induction (timers w) as [|x ts IH]; cbn in *; [tauto|].
  inversion Hnd as [|? ? Hx Hnd']. subst. intros [->|Hin].
  - now rewrite Nat.eqb_refl.
  - destruct (Nat.eqb (timer_handle x) (timer_handle t)) eqn:E; auto.
    apply Nat.eqb_eq in E. exfalso. apply Hx. rewrite E. now apply in_map.
Qed.

(** An armed timer cannot fire before its deadline. *)
Lemma timer_not_due w t :
  Reachable w -> In t (timers w) -> (now w < timer_deadline t)%N ->
  step w (TimerFire (timer_handle t)) = None.
Proof.
  intros Hr Hin Hlt. unfold step. cbn [well_formed handle].
  rewrite (@find_timer_In _ _ (Reachable_TimersInv Hr) Hin).
  apply N.leb_gt in Hlt. now rewrite Hlt.
Qed.

(** The registered timer of a document, once due, issues one store update
    with the registered content and leaves no timer armed for the document. *)
Lemma registered_timer_fires w d t :
  Reachable w -> registered w d t -> (timer_deadline t <= now w)%N ->
  exists r, step w (TimerFire (timer_handle t)) = Some r /\
            effects r = [StoreUpdate (job_documentId (timer_job t))
                                     (job_content (timer_job t))] /\
            pending_timers (world r) d = [].
Proof.
  intros Hr [Hp _] Hdue.
  assert (Hin : In t (timers w)).
  { unfold pending_timers in Hp.
    assert (H : In t (filter (fun t0 => String.eqb (job_documentId (timer_job t0)) d)
                             (timers w))) by (rewrite Hp; now left).
    now apply filter_In in H. }
  unfold step. cbn [well_formed handle].
  rewrite (@find_timer_In _ _ (Reachable_TimersInv Hr) Hin).
  apply N.leb_le in Hdue. rewrite Hdue. eexists. split; [reflexivity|].
  split; [reflexivity|].
  unfold fire_timer. run_handler. unfold pending_timers in *. cbn [timers].
  rewrite filter_twice.
  rewrite (filter_ext _ (fun x => String.eqb (job_documentId (timer_job x)) d &&
                                  negb (Nat.eqb (timer_handle x) (timer_handle t))))
    by (intros; apply andb_comm).
  rewrite <- filter_twice, Hp. cbn. now rewrite Nat.eqb_refl.
Qed.

(** The timer a text change arms is the one its handle names. *)
Lemma text_change_timer socket d delta content w :
  Reachable w ->
  find_timer (nextHandle w) (timers (world (on_text_change socket d delta content w)))
  = Some (mkTimer (nextHandle w) (now w + AUTO_SAVE_DEBOUNCE_MS)
                  (mkAutoSaveJob d content (socket_user socket))).
Proof.
  intros Hr.
  assert (Hinv : TimersInv (world (on_text_change socket d delta content w)))
    by (apply TimersInv_text_change; now apply Reachable_TimersInv).
  apply (@find_timer_In _ (mkTimer (nextHandle w) (now w + AUTO_SAVE_DEBOUNCE_MS)
                                    (mkAutoSaveJob d content (socket_user socket))) Hinv).
  rewrite text_change_world. cbn [timers]. apply in_or_app. right. now left.
Qed.

(** C10.  In any reachable world and whoever the connection: an explicit
    save issues the store update with the supplied content without reading
    the store; a text change, without reading or writing the store itself,
    registers the supplied content as the pending save of the document and
    arms a timer under a new handle.  That timer cannot fire now; once one
    debounce interval has passed, its firing issues the store update with
    that content.  Of all the steps of the event loop only a join reads the
    store. *)
Theorem C10_no_access_check (w : World) (socket : Socket) (d content : string)
    (delta : Delta) (answer : UpdateResult) :
  Reachable w ->
  let saved := on_save_document socket d content answer w in
  let edited := on_text_change socket d delta content w in
  let job := mkAutoSaveJob d content (socket_user socket) in
  store_reads (effects saved) = 0 /\
  store_writes d (effects saved) = [content] /\
  store_reads (effects edited) = 0 /\
  store_writes d (effects edited) = [] /\
  JsMap.get (autoSaveTimers (world edited)) d
    = Some (mkDocumentAutoSave d content (nextHandle w)) /\
  find_timer (nextHandle w) (timers (world edited))
    = Some (mkTimer (nextHandle w) (now w + AUTO_SAVE_DEBOUNCE_MS) job) /\
  step (world edited) (TimerFire (nextHandle w)) = None /\
  option_map snd (run (world edited)
                      [Elapse AUTO_SAVE_DEBOUNCE_MS; TimerFire (nextHandle w)])
    = Some [StoreUpdate d content] /\
  (forall w0 e,
     match step w0 e with
     | Some r =>
         store_reads (effects r) =
         match e with JoinDocument _ _ _ _ _ => 1 | _ => 0 end
     | None => True
     end).
Proof.
  intros Hreach. cbn zeta.
  pose proof (text_change_timer socket d delta content Hreach) as Hfind.
  split; [rewrite save_document_effects; destruct answer; cbn;
          auto using store_reads_broadcast|].
  split; [rewrite save_document_effects; cbn [store_writes];
          rewrite String.eqb_refl; destruct answer; cbn;
          now rewrite ?store_writes_broadcast|].
  split; [rewrite text_change_effects; apply store_reads_broadcast|].
  split; [rewrite text_change_effects; apply store_writes_broadcast|].
  split; [rewrite text_change_world; apply JsMapFacts.get_set_same|].
  split; [exact Hfind|].
  split.
  - unfold step. cbn [well_formed handle]. rewrite Hfind. cbn [timer_deadline].
    rewrite text_change_world. cbn [now].
    assert (E : N.leb (now w + AUTO_SAVE_DEBOUNCE_MS) (now w) = false).
    { apply N.leb_gt. unfold AUTO_SAVE_DEBOUNCE_MS. lia. }
    now rewrite E.
  - split; [|apply store_reads_step].
    cbn [run]. unfold step at 1. cbn [well_formed handle world].
    unfold step. cbn [well_formed handle timers with_now now].
    rewrite Hfind. cbn [timer_deadline].
    assert (E : N.leb (now w + AUTO_SAVE_DEBOUNCE_MS)
                      (now (world (on_text_change socket d delta content w))
                       + AUTO_SAVE_DEBOUNCE_MS) = true).
    { apply N.leb_le. rewrite text_change_world. cbn [now]. lia. }
    rewrite E. reflexivity.
Qed.

(** ** Debounced auto-save *)

Section Debounce.
Variable d : string.

Let for_d (t : Timer) : bool := String.eqb (job_documentId (timer_job t)) d.

Lemma pending_after_text_change socket delta content w :
  pending_timers (world (on_text_change socket d delta content w)) d =
  filter for_d (cancel_registered (autoSaveTimers w) d (timers w)) ++
  [mkTimer (nextHandle w) (now w + AUTO_SAVE_DEBOUNCE_MS)
           (mkAutoSaveJob d content (socket_user socket))].
Proof.
  rewrite text_change_world. unfold pending_timers. cbn [timers].
  rewrite filter_app. cbn. now rewrite String.eqb_refl.
Qed.

(** A text change for a document whose only armed timer is the registered
    one (or which has none) leaves exactly the new timer armed. *)
Lemma text_change_rearms socket delta content w :
  pending_timers w d = [] \/ (exists t, registered w d t) ->
  registered (world (on_text_change socket d delta content w)) d
             (mkTimer (nextHandle w) (now w + AUTO_SAVE_DEBOUNCE_MS)
                      (mkAutoSaveJob d content (socket_user socket))).
Proof.
  intros H. split.
  - rewrite pending_after_text_change.
    replace (filter for_d (cancel_registered (autoSaveTimers w) d (timers w)))
      with (@nil Timer); auto.
    symmetry. unfold cancel_registered.
    assert (Hswap : forall f, filter for_d (filter f (timers w)) =
                              filter f (pending_timers w d)).
    { intros f. unfold pending_timers. fold for_d. rewrite !filter_twice.
      apply filter_ext. intros x. apply andb_comm. }
    destruct H as [H | [t [Hp [e [He Hh]]]]].
    + destruct (JsMap.get (autoSaveTimers w) d).
      * now rewrite Hswap, H.
      * exact H.
    + rewrite He, Hswap, Hp. cbn. now rewrite Hh, Nat.eqb_refl.
  - rewrite text_change_world. cbn [autoSaveTimers].
    rewrite JsMapFacts.get_set_same. eauto.
Qed.

Lemma edit_burst_now (edits : list (Socket * Delta * string)) :
  forall w, now (edit_burst d edits w) = now w.
Proof.
  unfold edit_burst. induction edits as [|e rest IH]; intros w; cbn [fold_left]; auto.
  rewrite IH. now rewrite text_change_world.
Qed.

Lemma edit_burst_reachable (edits : list (Socket * Delta * string)) :
  forall w, Reachable w -> Reachable (edit_burst d edits w).
Proof.
  unfold edit_burst. induction edits as [|e rest IH]; intros w Hw; cbn [fold_left]; auto.
  apply IH.
  apply Reachable_step
    with (w := w) (e := TextChange (fst (fst e)) d (snd (fst e)) (snd e)); auto.
Qed.

(** A burst of edits of a document with no armed timer (or only the
    registered one) leaves one armed timer: it carries the content of the
    last edit and is due one debounce interval after it. *)
Lemma debounce_burst (edits : list (Socket * Delta * string)) :
  forall w last,
    pending_timers w d = [] \/ (exists t, registered w d t) ->
    exists t, registered (edit_burst d (edits ++ [last]) w) d t /\
              timer_job t = mkAutoSaveJob d (snd last) (socket_user (fst (fst last))) /\
              timer_deadline t = (now w + AUTO_SAVE_DEBOUNCE_MS)%N.
Proof.
  unfold edit_burst.
  induction edits as [|e rest IH]; intros w last H; cbn [app fold_left].
  - eexists. split; [now apply text_change_rearms|]. now cbn.
  - destruct (IH (world (on_text_change (fst (fst e)) d (snd (fst e)) (snd e) w)) last)
      as [t (Hreg & Hjob & Hdl)].
    + right. eexists. now apply text_change_rearms.
    + exists t. split; [exact Hreg|]. split; [exact Hjob|].
      rewrite Hdl. now rewrite text_change_world.
Qed.

(** After such a burst: within the debounce interval the timer cannot fire;
    from then on it fires with one store update, of the last content. *)
Lemma debounce_flush (edits : list (Socket * Delta * string)) w last (ms : N) :
  Reachable w ->
  pending_timers w d = [] ->
  let w1 := edit_burst d (edits ++ [last]) w in
  let w2 := with_now w1 (now w1 + ms) in
  exists t, registered w1 d t /\
    if (ms <? AUTO_SAVE_DEBOUNCE_MS)%N
    then step w2 (TimerFire (timer_handle t)) = None
    else exists r, step w2 (TimerFire (timer_handle t)) = Some r /\
                   effects r = [StoreUpdate d (snd last)] /\
                   pending_timers (world r) d = [].
Proof.
  intros Hr Hp. cbn zeta.
  destruct (@debounce_burst edits w last (or_introl Hp)) as [t (Hreg & Hjob & Hdl)].
  pose proof (@edit_burst_reachable (edits ++ [last]) w Hr) as Hr1.
  set (w1 := edit_burst d (edits ++ [last]) w) in *.
  assert (Hr2 : Reachable (with_now w1 (now w1 + ms))).
  { exact (@Reachable_step w1 (Elapse ms) (mkOutcome tt (with_now w1 (now w1 + ms)) [])
                           Hr1 eq_refl). }
  assert (Hreg2 : registered (with_now w1 (now w1 + ms)) d t) by exact Hreg.
  assert (Hnow : now w1 = now w) by apply edit_burst_now.
  exists t. split; [exact Hreg|].
  destruct (N.ltb_spec ms AUTO_SAVE_DEBOUNCE_MS) as [Hlt|Hge].
  - apply timer_not_due; auto.
    + destruct Hreg as [Hpt _]. unfold pending_timers in Hpt.
      assert (H : In t (filter (fun t0 => String.eqb (job_documentId (timer_job t0)) d)
                               (timers w1))) by (rewrite Hpt; now left).
      now apply filter_In in H.
    + cbn. rewrite Hdl, Hnow. lia.
  - destruct (registered_timer_fires Hr2 Hreg2) as [r (Hs & He & Hpend)].
    + cbn. rewrite Hdl, Hnow. lia.
    + exists r. split; [exact Hs|]. split; [|exact Hpend].
      rewrite He, Hjob. reflexivity.
Qed.
End Debounce.

(** The issue behind C3 and C4, run on the handlers.  The timer of a first
    edit fires and its store update is in flight; a second edit arrives and
    registers timer 1; the update resolves and the callback deletes the
    registry entry, which by now names timer 1; a third edit, one millisecond
    after the second, finds no entry, clears nothing and arms timer 2. *)

(** C4.  After the race, two timers are armed for "doc-1" and the registry
    names only the second. *)
Theorem C4_two_pending_timers :
  option_map (fun r => (pending_timers (fst r) "doc-1", autoSaveTimers (fst r)))
             (run initial Scenario.flush_race)
  = Some ([ mkTimer 1 60001 (Scenario.job_of "ab");
            mkTimer 2 60002 (Scenario.job_of "abc") ],
          [ ("doc-1", mkDocumentAutoSave "doc-1" "abc" 2) ]).
Proof. vm_compute. reflexivity. Qed.

(** C3.  Both timers then fire: the two edits made one millisecond apart
    cause two store updates, the first with the content of the earlier
    edit. *)
Theorem C3_two_writes_in_one_window :
  option_map (fun r => store_writes "doc-1" (snd r))
             (run initial (Scenario.flush_race ++ Scenario.both_fire))
  = Some ["a"; "ab"; "abc"].
Proof. vm_compute. reflexivity. Qed.

(** ** The statements on the small session *)

Lemma reachable_world_after (es : list Event) : Reachable (Scenario.world_after es).
Proof.
  unfold Scenario.world_after.
  destruct (run initial es) as [[w out]|] eqn:E.
  - eapply Reachable_run; [apply Reachable_initial | exact E].
  - apply Reachable_initial.
Qed.

Lemma two_in_room_reachable : Reachable Scenario.two_in_room.
Proof. exact (reachable_world_after Scenario.both_join). Qed.

Lemma one_in_room_reachable : Reachable Scenario.one_in_room.
Proof. exact (reachable_world_after Scenario.alice_joins). Qed.

Lemma left_own_room_reachable : Reachable Scenario.left_own_room.
Proof. exact (reachable_world_after Scenario.own_id_leave). Qed.

Lemma C2_witness :
  Reachable Scenario.left_own_room /\
  In (socket_id Scenario.alice) (roster Scenario.left_own_room "doc-1") /\
  effects (on_text_change Scenario.alice "doc-1" "delta" "Hello" Scenario.left_own_room)
  = [ Emit "socket-alice-0000001" (EvTextChange "delta" "Hello" "user-1");
      Emit "socket-bob-000000002" (EvTextChange "delta" "Hello" "user-1") ] /\
  delivered "socket-alice-0000001"
    (effects (on_text_change Scenario.alice "doc-1" "delta" "Hello"
                Scenario.left_own_room))
  = [EvTextChange "delta" "Hello" "user-1"].
Proof.
  assert (Hr : Reachable Scenario.left_own_room) by exact left_own_room_reachable.
  assert (Hin : In (socket_id Scenario.alice) (roster Scenario.left_own_room "doc-1"))
    by (vm_compute; auto).
  split; [exact Hr|]. split; [exact Hin|].
  destruct (@C2_text_change_fan_out _ Scenario.alice "doc-1" "delta" "Hello" Hr Hin)
    as (Hout & _ & _ & _ & Hself & _).
  split; [exact Hout | exact Hself].
Defined.

Lemma C5_witness :
  Reachable Scenario.one_in_room /\
  roster Scenario.one_in_room "doc-1" = [socket_id Scenario.alice] /\
  JsMap.get (documentRooms (world (on_leave_document Scenario.alice "doc-1"
                                     Scenario.one_in_room))) "doc-1" = None /\
  JsMap.get (documentRooms (world (on_disconnect Scenario.alice
                                     Scenario.one_in_room))) "doc-1" = None /\
  effects (on_join_document Scenario.bob "doc-1" "Bob" (FindResolved (Some Scenario.doc1)) 1
             (world (on_leave_document Scenario.alice "doc-1" Scenario.one_in_room)))
  = [StoreFind "doc-1"; Emit "socket-bob-000000002" (EvUsersList [])].
Proof.
  assert (Hr : Reachable Scenario.one_in_room) by exact one_in_room_reachable.
  assert (Hlast : roster Scenario.one_in_room "doc-1" = [socket_id Scenario.alice])
    by reflexivity.
  split; [exact Hr|]. split; [exact Hlast|].
  destruct (@C5_empty_room_removed _ Scenario.alice "doc-1" Hr) as [_ H].
  destruct (H Hlast) as (Hleft & Hgone & Hjoin).
  split; [exact Hleft|]. split; [exact Hgone|].
  exact (proj1 (Hjoin Scenario.bob "Bob" 1 Scenario.doc1 _
                      eq_refl eq_refl (or_introl eq_refl))).
Defined.

Lemma C7_witness :
  Reachable Scenario.one_in_room /\
  hasAccess Scenario.doc1 (socket_user Scenario.bob) = true /\
  is_socket_id (socket_id Scenario.bob) = true /\
  is_socket_id "doc-1" = false /\
  delivered "socket-alice-0000001"
    (effects (on_join_document Scenario.bob "doc-1" "Bob"
                (FindResolved (Some Scenario.doc1)) 1 Scenario.one_in_room))
  = [EvUserJoined "user-2" "Bob" "#4ECDC4"] /\
  delivered "socket-bob-000000002"
    (effects (on_join_document Scenario.bob "doc-1" "Bob"
                (FindResolved (Some Scenario.doc1)) 1 Scenario.one_in_room))
  = [EvUsersList [mkSocketUser "socket-alice-0000001" "user-1" "Alice" "#FF6B6B"]].
Proof.
  assert (Hr : Reachable Scenario.one_in_room) by exact one_in_room_reachable.
  assert (Hacc : hasAccess Scenario.doc1 (socket_user Scenario.bob) = true)
    by reflexivity.
  assert (Hsid : is_socket_id (socket_id Scenario.bob) = true) by reflexivity.
  assert (Hdoc : is_socket_id "doc-1" = false) by reflexivity.
  split; [exact Hr|]. split; [exact Hacc|]. split; [exact Hsid|]. split; [exact Hdoc|].
  destruct (@C7_join_notifications _ Scenario.bob "doc-1" "Bob" 1 Scenario.doc1
              Hr Hacc Hsid Hdoc)
    as (Hothers & Hself & _).
  split; [|exact Hself].
  apply (Hothers "socket-alice-0000001"); [vm_compute; auto | discriminate].
Defined.

Lemma C8_witness :
  Reachable Scenario.two_in_room /\
  is_socket_id (socket_id Scenario.bob) = true /\
  is_socket_id "doc-1" = false /\
  effects (on_save_document Scenario.bob "doc-1" "Hello" UpdateResolved
             Scenario.two_in_room)
  = [ StoreUpdate "doc-1" "Hello";
      Emit "socket-bob-000000002" (EvDocumentSaved true (Some 0%N));
      Emit "socket-alice-0000001" (EvDocumentSaved true (Some 0%N)) ] /\
  effects (on_save_document Scenario.bob "doc-1" "Hello" UpdateRejected
             Scenario.two_in_room)
  = [ StoreUpdate "doc-1" "Hello";
      Emit "socket-bob-000000002" (EvDocumentSaved false None) ].
Proof.
  assert (Hr : Reachable Scenario.two_in_room) by exact two_in_room_reachable.
  assert (Hsid : is_socket_id (socket_id Scenario.bob) = true) by reflexivity.
  assert (Hdoc : is_socket_id "doc-1" = false) by reflexivity.
  split; [exact Hr|]. split; [exact Hsid|]. split; [exact Hdoc|]. split.
  - exact (proj1 (proj2 (@C8_save_document _ Scenario.bob "doc-1" "Hello"
                           UpdateResolved Hr Hsid Hdoc))).
  - exact (proj1 (proj2 (@C8_save_document _ Scenario.bob "doc-1" "Hello"
                           UpdateRejected Hr Hsid Hdoc))).
Defined.

Lemma C9_witness :
  Reachable Scenario.two_in_room /\
  effects (on_cursor_move Scenario.bob "doc-1" 7 Scenario.two_in_room)
  = [Emit "socket-alice-0000001" (EvCursorMove "user-2" "Bob" "#4ECDC4" 7)].
Proof.
  assert (Hr : Reachable Scenario.two_in_room) by exact two_in_room_reachable.
  split; [exact Hr|].
  exact (proj1 (proj2 (@C9_cursor_move _ Scenario.bob "doc-1" 7%N Hr))).
Defined.

Lemma C10_witness :
  Reachable Scenario.two_in_room /\
  hasAccess Scenario.doc1 (socket_user Scenario.carol) = false /\
  option_map snd
    (run (world (on_text_change Scenario.carol "doc-1" "delta" "Mine"
                   Scenario.two_in_room))
         [Elapse AUTO_SAVE_DEBOUNCE_MS; TimerFire 0])
  = Some [StoreUpdate "doc-1" "Mine"].
Proof.
  assert (Hr : Reachable Scenario.two_in_room) by exact two_in_room_reachable.
  split; [exact Hr|]. split; [reflexivity|].
  destruct (@C10_no_access_check _ Scenario.carol "doc-1" "Mine" "delta"
              UpdateResolved Hr)
    as (_ & _ & _ & _ & _ & _ & _ & Hfire & _).
  exact Hfire.
Defined.

(** * Further properties of the handlers *)

(** ** Leaving a document *)

Lemma sio_without_absent l d sid :
  ~ In sid (members l d) -> sio_without l d sid = l.
Proof.
  unfold sio_without, members. induction l as [|[r s] rest IH]; cbn; auto.
  intros Hn. destruct (String.eqb r d) eqn:Er; cbn in *.
  - destruct (String.eqb s sid) eqn:Es; cbn.
    + apply String.eqb_eq in Es. subst. exfalso. apply Hn. now left.
    + rewrite IH; auto.
  - rewrite IH; auto.
Qed.

Lemma directory_without_absent rooms d sid :
  (forall room, JsMap.get rooms d = Some room ->
                users room <> [] /\ JsMap.get (users room) sid = None) ->
  directory_without rooms d sid = rooms.
Proof.
  intros H. unfold directory_without.
  destruct (JsMap.get rooms d) as [room|] eqn:Hroom; auto.
  destruct (H room eq_refl) as [Hne Hnone].
  rewrite (JsMapFacts.delete_absent _ _ Hnone).
  destruct (users room) eqn:Hus; [congruence|].
  rewrite <- Hus, room_eta. now apply JsMapFacts.set_same.
Qed.

Lemma presence_none_roster w d sid :
  presence_of w d sid = None <-> ~ In sid (roster w d).
Proof.
  unfold presence_of, roster, roster_of.
  destruct (JsMap.get (documentRooms w) d) as [room|].
  - apply JsMapFacts.get_none_keys.
  - cbn. tauto.
Qed.

Lemma world_eta (w : World) :
  mkWorld (documentRooms w) (autoSaveTimers w) (sioRooms w) (timers w)
          (nextHandle w) (suspended w) (now w) = w.
Proof. now destruct w. Qed.

Lemma outcome_eta (r : Outcome unit) : mkOutcome tt (world r) (effects r) = r.
Proof. now destruct r as [[] w out]. Qed.

Lemma in_room_without l d sid : in_room (sio_without l d sid) d sid = false.
Proof.
  apply not_true_iff_false. rewrite in_room_members, members_leave, String.eqb_refl.
  intros Hin. apply filter_In in Hin as [_ Hin].
  now rewrite String.eqb_refl in Hin.
Qed.

(** The transport room of a document holds a connection only if the roster
    does; the room named by a connection id holds no other connection. *)
Lemma member_of_room w d sid :
  RoomsInv w -> In sid (members (sioRooms w) d) -> In sid (roster w d) \/ sid = d.
Proof.
  intros Hw Hin. destruct (is_socket_id d) eqn:Hd.
  - right. exact (inv_private Hw _ _ Hd Hin).
  - left. now rewrite <- (inv_members Hw d Hd).
Qed.

Lemma leave_absent_world w socket d :
  RoomsInv w -> presence_of w d (socket_id socket) = None ->
  world (on_leave_document socket d w)
  = with_sioRooms w (sio_without (sioRooms w) d (socket_id socket)) /\
  effects (on_leave_document socket d w) = [].
Proof.
  intros Hw Hnone.
  unfold on_leave_document. rewrite handleUserLeave_world, handleUserLeave_effects.
  split.
  - rewrite directory_without_absent; [reflexivity|].
    intros room Hroom. split; [eapply inv_nonempty; eauto|].
    unfold presence_of in Hnone. now rewrite Hroom in Hnone.
  - unfold presence_of in Hnone.
    destruct (JsMap.get (documentRooms w) d) as [room|]; auto. now rewrite Hnone.
Qed.

Lemma leave_absent w socket d :
  RoomsInv w -> presence_of w d (socket_id socket) = None ->
  in_room (sioRooms w) d (socket_id socket) = false ->
  on_leave_document socket d w = mkOutcome tt w [].
Proof.
  intros Hw Hnone Hout. rewrite <- (outcome_eta (on_leave_document socket d w)).
  destruct (leave_absent_world socket d Hw Hnone) as [-> ->].
  f_equal. unfold with_sioRooms. rewrite sio_without_absent; [apply world_eta|].
  rewrite <- in_room_members. congruence.
Qed.

Lemma presence_after_leave w socket d :
  presence_of (world (on_leave_document socket d w)) d (socket_id socket) = None.
Proof.
  apply presence_none_roster. rewrite roster_after_leave, String.eqb_refl.
  rewrite In_others. tauto.
Qed.

(** A leave by a member: every other member is sent one user-left with the
    user id and name of the stored presence, nobody outside the room is sent
    anything, and the leaver itself is sent it only when it has left the room
    named by its own connection id; the connection leaves the roster and the
    transport room; the other rosters are untouched.  A leave by a
    connection without presence in the room sends nothing and touches only
    the transport: the connection is taken out of the room named by what
    the client sent, which changes something only when it is in that room. *)
Theorem leave_notifies_remaining (w : World) (socket : Socket) (d : string) :
  Reachable w ->
  let r := on_leave_document socket d w in
  match presence_of w d (socket_id socket) with
  | Some user =>
      let left := EvUserLeft (userId user) (userName user) in
      effects r = map (fun sid => Emit sid left) (reached w socket d) /\
      (forall sid, In sid (roster w d) -> sid <> socket_id socket ->
                   delivered sid (effects r) = [left]) /\
      delivered (socket_id socket) (effects r)
        = (if own_room w socket then [] else [left]) /\
      roster (world r) d = filter (not_socket socket) (roster w d) /\
      (forall d0, d0 <> d -> roster (world r) d0 = roster w d0) /\
      in_room (sioRooms (world r)) d (socket_id socket) = false
  | None =>
      effects r = [] /\
      world r = with_sioRooms w (sio_without (sioRooms w) d (socket_id socket)) /\
      (in_room (sioRooms w) d (socket_id socket) = false -> r = mkOutcome tt w [])
  end.
Proof.
  intros Hreach. cbn zeta. pose proof (Reachable_RoomsInv Hreach) as Hw.
  destruct (presence_of w d (socket_id socket)) as [user|] eqn:Hp.
  - assert (Hin : In (socket_id socket) (roster w d))
      by (eapply presence_in_roster; eauto).
    assert (Heff : effects (on_leave_document socket d w)
                   = map (fun sid => Emit sid (EvUserLeft (userId user) (userName user)))
                         (reached w socket d)).
    { unfold on_leave_document. rewrite handleUserLeave_effects.
      unfold presence_of in Hp.
      destruct (JsMap.get (documentRooms w) d) as [room|]; [|discriminate].
      rewrite Hp. now rewrite audience_member. }
    rewrite Heff. split; [reflexivity|].
    split; [intros sid H1 H2; now apply delivered_reached_other|].
    split; [now apply delivered_reached_self|].
    split; [now rewrite roster_after_leave, String.eqb_refl|]. split.
    + intros d0 Hne. rewrite roster_after_leave.
      apply not_eq_sym, String.eqb_neq in Hne. now rewrite Hne.
    + unfold on_leave_document. rewrite handleUserLeave_world. cbn [sioRooms].
      apply in_room_without.
  - destruct (leave_absent_world socket d Hw Hp) as [Hworld Heff].
    split; [exact Heff|]. split; [exact Hworld|].
    intros Hout. now apply leave_absent.
Qed.

(** A leave is idempotent: after a leave, a second leave of the same document
    by the same connection changes nothing and emits nothing. *)
Theorem leave_twice (w : World) (socket : Socket) (d : string) :
  Reachable w ->
  on_leave_document socket d (world (on_leave_document socket d w))
  = mkOutcome tt (world (on_leave_document socket d w)) [].
Proof.
  intros Hreach. apply leave_absent.
  - apply RoomsInv_handleUserLeave. now apply Reachable_RoomsInv.
  - apply presence_after_leave.
  - unfold on_leave_document. rewrite handleUserLeave_world. cbn [sioRooms].
    apply in_room_without.
Qed.

(** ** Joining, leaving again, joining twice *)

Lemma directory_with_without rooms d sid u :
  (forall room, JsMap.get rooms d = Some room ->
                users room <> [] /\ JsMap.get (users room) sid = None) ->
  directory_without (directory_with rooms d sid u) d sid = rooms.
Proof.
  intros H. unfold directory_without, directory_with, room_or_new.
  rewrite JsMapFacts.get_set_same. cbn [users room_documentId].
  rewrite JsMapFacts.delete_set.
  destruct (JsMap.get rooms d) as [room|] eqn:Hroom.
  - destruct (H room eq_refl) as [Hne Hnone].
    rewrite (JsMapFacts.delete_absent _ _ Hnone).
    destruct (users room) eqn:Hus; [congruence|].
    rewrite <- Hus, JsMapFacts.set_set, room_eta. now apply JsMapFacts.set_same.
  - cbn. rewrite JsMapFacts.delete_set. now apply JsMapFacts.delete_absent.
Qed.

Lemma sio_with_without l d sid :
  ~ In sid (members l d) -> sio_without (sio_with l d sid) d sid = l.
Proof.
  intros Hn. unfold sio_with.
  destruct (in_room l d sid) eqn:E.
  - apply in_room_members in E. contradiction.
  - unfold sio_without. rewrite filter_app. cbn. rewrite !String.eqb_refl. cbn.
    rewrite app_nil_r. now apply sio_without_absent.
Qed.

(** A granted join of a document by a connection that is not in the room,
    followed by its leave, gives back the world as it was: room directory (a
    room created by the join is removed again), transport rooms, timers and
    registry. *)
Theorem join_then_leave (w : World) (socket : Socket) (d uName : string)
    (rnd : nat) (document : StoredDocument) :
  Reachable w ->
  presence_of w d (socket_id socket) = None ->
  hasAccess document (socket_user socket) = true ->
  is_socket_id d = false ->
  let joined := world (on_join_document socket d uName
                         (FindResolved (Some document)) rnd w) in
  world (on_leave_document socket d joined) = w.
Proof.
  intros Hreach Hnone Hacc Hdoc. cbn zeta. pose proof (Reachable_RoomsInv Hreach) as Hw.
  unfold on_leave_document. rewrite handleUserLeave_world.
  rewrite join_admitted_world by exact Hacc. cbn [documentRooms autoSaveTimers
    sioRooms timers nextHandle suspended now].
  rewrite directory_with_without, sio_with_without; [apply world_eta| |].
  - rewrite (inv_members Hw d Hdoc). now apply presence_none_roster.
  - intros room Hroom. split; [eapply inv_nonempty; eauto|].
    unfold presence_of in Hnone. now rewrite Hroom in Hnone.
Qed.

Lemma sio_with_present l d sid : In sid (members l d) -> sio_with l d sid = l.
Proof.
  intros H. apply in_room_members in H. unfold sio_with. now rewrite H.
Qed.

(** A granted join by a connection that is already in the room replaces its
    presence and nothing else: the roster keeps its members and their order,
    the presences of the others and the transport rooms are unchanged, and
    the others are notified once more. *)
Theorem join_again (w : World) (socket : Socket) (d uName : string)
    (rnd : nat) (document : StoredDocument) :
  Reachable w ->
  In (socket_id socket) (roster w d) ->
  hasAccess document (socket_user socket) = true ->
  let r := on_join_document socket d uName (FindResolved (Some document)) rnd w in
  roster (world r) d = roster w d /\
  presence_of (world r) d (socket_id socket) = Some (presence socket uName rnd) /\
  (forall sid, sid <> socket_id socket ->
               presence_of (world r) d sid = presence_of w d sid) /\
  sioRooms (world r) = sioRooms w /\
  (forall sid, In sid (roster w d) -> sid <> socket_id socket ->
     delivered sid (effects r)
     = [EvUserJoined (socket_user socket) uName (generateUserColor rnd)]).
Proof.
  intros Hreach Hin Hacc. cbn zeta. pose proof (Reachable_RoomsInv Hreach) as Hw.
  destruct (roster_ids _ _ Hw Hin) as [Hsid Hdoc].
  assert (Hroster : roster (world (on_join_document socket d uName
                              (FindResolved (Some document)) rnd w)) d = roster w d).
  { rewrite roster_after_join, String.eqb_refl by exact Hacc.
    now destruct (in_dec string_dec (socket_id socket) (roster w d)). }
  split; [exact Hroster|]. split; [now apply presence_after_join|]. split.
  - intros sid Hne. rewrite join_admitted_world by exact Hacc.
    unfold presence_of, directory_with, room_or_new. cbn [documentRooms].
    rewrite JsMapFacts.get_set_same. cbn [users].
    unfold roster, roster_of in Hin.
    destruct (JsMap.get (documentRooms w) d) as [room|]; [|destruct Hin].
    now rewrite JsMapFacts.get_set_other by auto.
  - split.
    + rewrite join_admitted_world by exact Hacc. cbn [sioRooms].
      apply sio_with_present. now rewrite (inv_members Hw d Hdoc).
    + intros sid Hs Hne. apply join_delivered_other; auto. now rewrite Hroster.
Qed.

(** ** Relays from outside the room *)

(** Neither relay tests that the sender is in the room: a text change about
    a document from a connection that is not in its roster is sent to every
    member, and so is the notification of its successful save; a cursor move
    is not relayed.  Nor does a relay test that [documentId] names a
    document: a text change whose [documentId] is the id of another
    connection reaches that connection, as long as it is in the room named
    by its own id. *)
Theorem outsider_relay (w : World) (socket : Socket) (d : string) (delta : Delta)
    (content : string) (position : N) :
  Reachable w ->
  is_socket_id (socket_id socket) = true ->
  (is_socket_id d = false ->
   ~ In (socket_id socket) (roster w d) ->
   recipients (effects (on_text_change socket d delta content w)) = roster w d /\
   recipients (effects (on_save_document socket d content UpdateResolved w))
   = socket_id socket :: roster w d /\
   effects (on_cursor_move socket d position w) = []) /\
  (forall other : Socket,
     socket_id other <> socket_id socket ->
     own_room w other = true ->
     In (Emit (socket_id other) (EvTextChange delta content (socket_user socket)))
        (effects (on_text_change socket (socket_id other) delta content w))).
Proof.
  intros Hreach Hsid. pose proof (Reachable_RoomsInv Hreach) as Hw. split.
  - intros Hdoc Hout.
    assert (Hall : reached w socket d = roster w d).
    { unfold reached. destruct (own_room w socket); auto.
      unfold not_socket. now apply filter_absent. }
    rewrite text_change_effects, save_document_effects, cursor_move_effects.
    rewrite !audience_reached by auto. rewrite Hall. cbn [recipients].
    rewrite !recipients_broadcast. split; [reflexivity|]. split; [reflexivity|].
    apply presence_none_roster in Hout. unfold presence_of in Hout.
    destruct (JsMap.get (documentRooms w) d) as [room|]; auto. now rewrite Hout.
  - intros other Hne Hown. rewrite text_change_effects.
    apply in_map_iff. exists (socket_id other). split; [reflexivity|].
    unfold audience. apply filter_In. split.
    + now apply in_room_members.
    + rewrite except_own by (intros y; now apply (inv_private Hw)).
      apply String.eqb_neq in Hne. now rewrite Hne.
Qed.

(** ** Disconnecting *)

Lemma get_directory_without_other rooms d sid d0 :
  d0 <> d -> JsMap.get (directory_without rooms d sid) d0 = JsMap.get rooms d0.
Proof.
  intros Hne. unfold directory_without.
  destruct (JsMap.get rooms d) as [room|]; auto.
  destruct (JsMap.delete (users room) sid).
  - now rewrite JsMapFacts.get_delete_other by auto.
  - now rewrite JsMapFacts.get_set_other by auto.
Qed.

Lemma presence_after_handleUserLeave socket d w d0 sid :
  sid <> socket_id socket ->
  presence_of (world (handleUserLeave socket d w)) d0 sid = presence_of w d0 sid.
Proof.
  intros Hne. rewrite handleUserLeave_world. unfold presence_of. cbn [documentRooms].
  destruct (string_dec d0 d) as [->|Hd]; [|now rewrite get_directory_without_other].
  unfold directory_without.
  destruct (JsMap.get (documentRooms w) d) as [room|] eqn:Hroom; [|now rewrite Hroom].
  destruct (JsMap.delete (users room) (socket_id socket)) eqn:Hdel.
  - rewrite JsMapFacts.get_delete_same.
    rewrite <- (JsMapFacts.get_delete_other (users room) (not_eq_sym Hne)).
    now rewrite Hdel.
  - rewrite JsMapFacts.get_set_same. cbn [users]. rewrite <- Hdel.
    now rewrite JsMapFacts.get_delete_other by auto.
Qed.

Lemma In_get {V} (m : JsMap.t V) k v :
  NoDup (JsMap.keys m) -> In (k, v) m -> JsMap.get m k = Some v.
Proof.
  unfold JsMap.keys. induction m as [|[k' v'] rest IH]; cbn; [tauto|].
  intros Hnd [Heq|Hin].
  - injection Heq as -> ->. now rewrite String.eqb_refl.
  - apply NoDup_cons_iff in Hnd as [Hfresh Hrest].
    destruct (String.eqb k' k) eqn:E; auto.
    apply String.eqb_eq in E. subst. exfalso. apply Hfresh.
    apply in_map_iff. now exists (k, v).
Qed.

Section DisconnectLoop.
Variable socket : Socket.

Let leave_if_member : DocumentRoom -> string -> Handler unit :=
  fun room documentId =>
    if JsMap.has (users room) (socket_id socket)
    then handleUserLeave socket documentId
    else ret tt.

Let cancel_and_delete : DocumentAutoSave -> string -> Handler unit :=
  fun save documentId =>
    clearTimeout (timeout save) ;;
    modify (fun w =>
      with_autoSaveTimers w (JsMap.delete (autoSaveTimers w) documentId)).

Lemma closed_step room k w :
  world (leave_if_member room k (closed w socket))
  = closed (world (leave_if_member room k w)) socket.
Proof. exact (closed_leave_if socket room k w). Qed.

Lemma closed_loop es w :
  world (forEach es leave_if_member (closed w socket))
  = closed (world (forEach es leave_if_member w)) socket.
Proof. exact (leave_loop_closed socket es w). Qed.

Lemma disconnect_outcome w :
  on_disconnect socket w =
  let r1 := forEach (documentRooms w) leave_if_member (closed w socket) in
  let r2 := forEach (autoSaveTimers (world r1)) cancel_and_delete (world r1) in
  mkOutcome (value r2) (world r2) (effects r1 ++ effects r2).
Proof. reflexivity. Qed.

Lemma cancel_outcome w :
  let r := forEach (autoSaveTimers w) cancel_and_delete w in
  effects r = [] /\ documentRooms (world r) = documentRooms w.
Proof.
  destruct (cancel_loop (autoSaveTimers w) w) as (He & Hd & _). split; assumption.
Qed.

Lemma leave_loop_presence es d0 sid : forall w,
  sid <> socket_id socket ->
  presence_of (world (forEach es leave_if_member w)) d0 sid = presence_of w d0 sid.
Proof.
  induction es as [|[k room] rest IH]; intros w Hne; cbn; auto.
  rewrite IH by auto. unfold leave_if_member.
  destruct (JsMap.has (users room) (socket_id socket)); auto.
  now apply presence_after_handleUserLeave.
Qed.

Lemma delivered_broadcast_member ev other (l : list string) :
  NoDup l ->
  delivered other (map (fun s => Emit s ev) l)
  = if in_dec string_dec other l then [ev] else [].
Proof.
  intros Hnd. destruct (in_dec string_dec other l).
  - now apply delivered_broadcast_once.
  - now apply delivered_broadcast_other.
Qed.

Lemma filter_own (s : string) (xs : list string) :
  (forall y, In y xs -> y = s) -> filter (fun x => negb (String.eqb x s)) xs = [].
Proof.
  induction xs as [|x xs IH]; cbn; auto. intros H.
  rewrite (H x) by now left. rewrite String.eqb_refl. cbn. apply IH. auto.
Qed.

(** Whom a closing connection that was in the room of a document reaches
    there: the others. *)
Lemma audience_closed w k room :
  RoomsInv w ->
  JsMap.get (documentRooms w) k = Some room ->
  JsMap.has (users room) (socket_id socket) = true ->
  audience (closed w socket) socket k = filter (not_socket socket) (roster w k).
Proof.
  intros Hw Hk Hhas.
  assert (Hin : In (socket_id socket) (roster w k)).
  { unfold roster, roster_of. rewrite Hk. now apply JsMapFacts.has_true. }
  destruct (roster_ids _ _ Hw Hin) as [Hsid Hdoc].
  unfold audience, closed. cbn [sioRooms with_sioRooms]. rewrite !members_closed.
  rewrite (@filter_own (socket_id socket) (members (sioRooms w) (socket_id socket)))
    by (intros y; now apply (inv_private Hw)).
  cbn [existsb negb]. rewrite filter_true, (inv_members Hw k Hdoc). reflexivity.
Qed.

Lemma leave_loop_delivered other es : forall w,
  RoomsInv w ->
  NoDup (map fst es) ->
  (forall k room, In (k, room) es -> JsMap.get (documentRooms w) k = Some room) ->
  delivered other (effects (forEach es leave_if_member (closed w socket)))
  = if String.eqb other (socket_id socket) then []
    else left_events es (socket_id socket) other.
Proof.
  induction es as [|[k room] rest IH]; intros w Hw Hnd Hlive.
  - cbn. now destruct (String.eqb other (socket_id socket)).
  - cbn [forEach]. rewrite effects_bind, delivered_app.
    cbn [map fst] in Hnd. apply NoDup_cons_iff in Hnd as [Hfresh Hrest].
    assert (Hk : JsMap.get (documentRooms w) k = Some room)
      by (apply Hlive; now left).
    rewrite closed_step. rewrite IH; auto.
    + unfold left_events. cbn [flat_map snd]. fold (left_events rest (socket_id socket) other).
      assert (Hhead :
        delivered other (effects (leave_if_member room k (closed w socket)))
        = if String.eqb other (socket_id socket) then []
          else match JsMap.get (users room) (socket_id socket) with
               | Some user =>
                   if JsMap.has (users room) other
                   then [EvUserLeft (userId user) (userName user)] else []
               | None => []
               end).
      { unfold leave_if_member.
        destruct (JsMap.has (users room) (socket_id socket)) eqn:Hhas.
        - rewrite handleUserLeave_effects. cbn [closed with_sioRooms documentRooms].
          rewrite Hk. unfold JsMap.has in Hhas.
          destruct (JsMap.get (users room) (socket_id socket)) as [user|] eqn:Hu;
            [|discriminate].
          rewrite (@audience_closed w k room Hw Hk)
            by (unfold JsMap.has; now rewrite Hu).
          rewrite delivered_broadcast_member
            by (apply NoDup_filter; now apply roster_NoDup).
          unfold roster, roster_of. rewrite Hk.
          destruct (in_dec string_dec other
                      (filter (not_socket socket) (JsMap.keys (users room))))
            as [Hin|Hout].
          + apply In_others in Hin as [Hin Hne].
            apply String.eqb_neq in Hne. rewrite Hne.
            apply JsMapFacts.has_true in Hin. now rewrite Hin.
          + destruct (String.eqb other (socket_id socket)) eqn:E; auto.
            apply String.eqb_neq in E.
            destruct (JsMap.has (users room) other) eqn:Hhas'; auto.
            exfalso. apply Hout, In_others. split; auto.
            now apply JsMapFacts.has_true.
        - unfold JsMap.has in Hhas.
          destruct (JsMap.get (users room) (socket_id socket)); [discriminate|].
          cbn. now destruct (String.eqb other (socket_id socket)). }
      rewrite Hhead. now destruct (String.eqb other (socket_id socket)).
    + unfold leave_if_member.
      destruct (JsMap.has (users room) (socket_id socket)); auto.
      now apply RoomsInv_handleUserLeave.
    + intros k' room' Hin.
      assert (Hne : k' <> k).
      { intros ->. apply Hfresh. apply in_map_iff. now exists (k, room'). }
      unfold leave_if_member.
      destruct (JsMap.has (users room) (socket_id socket)).
      * rewrite handleUserLeave_world. cbn [documentRooms].
        rewrite get_directory_without_other by auto. apply Hlive. now right.
      * cbn. apply Hlive. now right.
Qed.

Lemma disconnect_directory w :
  documentRooms (world (on_disconnect socket w))
  = documentRooms (world (forEach (documentRooms w) leave_if_member w)).
Proof.
  rewrite disconnect_outcome. cbn zeta. cbn [world].
  set (w1 := world (forEach (documentRooms w) leave_if_member (closed w socket))).
  destruct (cancel_outcome w1) as [_ Hd]. cbn zeta in Hd. rewrite Hd. unfold w1.
  now rewrite closed_loop.
Qed.

Lemma disconnect_effects w :
  effects (on_disconnect socket w)
  = effects (forEach (documentRooms w) leave_if_member (closed w socket)).
Proof.
  rewrite disconnect_outcome. cbn zeta. cbn [effects].
  set (w1 := world (forEach (documentRooms w) leave_if_member (closed w socket))).
  destruct (cancel_outcome w1) as [He _]. cbn zeta in He. rewrite He.
  apply app_nil_r.
Qed.
End DisconnectLoop.

Lemma in_room_closed l d sid : in_room (sio_closed l sid) d sid = false.
Proof.
  apply not_true_iff_false. rewrite in_room_members, members_closed.
  intros Hin. apply filter_In in Hin as [_ Hin].
  now rewrite String.eqb_refl in Hin.
Qed.

(** A disconnect takes the connection out of every roster and transport room
    and keeps every other member, with its presence and its place. *)
Theorem disconnect_leaves_every_room (w : World) (socket : Socket) (d : string) :
  Reachable w ->
  let gone := world (on_disconnect socket w) in
  roster gone d = filter (not_socket socket) (roster w d) /\
  presence_of gone d (socket_id socket) = None /\
  in_room (sioRooms gone) d (socket_id socket) = false /\
  (forall sid, sid <> socket_id socket -> presence_of gone d sid = presence_of w d sid).
Proof.
  intros Hreach. cbn zeta. pose proof (Reachable_RoomsInv Hreach) as Hw.
  destruct (disconnect_world socket w) as (_ & _ & _ & _ & _ & Hinv & Hroster).
  specialize (Hinv Hw).
  assert (Hout : ~ In (socket_id socket) (roster (world (on_disconnect socket w)) d)).
  { rewrite Hroster, In_others. tauto. }
  split; [apply Hroster|]. split; [now apply presence_none_roster|]. split.
  - rewrite disconnect_transport. apply in_room_closed.
  - intros sid Hne. unfold presence_of at 1. rewrite disconnect_directory.
    fold (presence_of (world (forEach (documentRooms w)
            (fun room documentId =>
               if JsMap.has (users room) (socket_id socket)
               then handleUserLeave socket documentId else ret tt) w)) d sid).
    now apply leave_loop_presence.
Qed.

(** What a disconnect sends: to each other connection, one user-left for
    each room it shares with the disconnecting connection, in the order of
    the room directory, carrying the user id and name of the presence the
    disconnecting connection had in that room; to the disconnecting
    connection, nothing. *)
Theorem disconnect_notifications (w : World) (socket : Socket) (other : string) :
  Reachable w ->
  delivered other (effects (on_disconnect socket w))
  = if String.eqb other (socket_id socket) then []
    else left_events (documentRooms w) (socket_id socket) other.
Proof.
  intros Hreach. pose proof (Reachable_RoomsInv Hreach) as Hw.
  rewrite disconnect_effects. apply leave_loop_delivered; auto.
  - exact (inv_directory Hw).
  - intros k room Hin. apply In_get; auto. exact (inv_directory Hw).
Qed.

(** ** Where store writes come from *)

Lemma store_writes_app d (a b : list Effect) :
  store_writes d (a ++ b) = store_writes d a ++ store_writes d b.
Proof.
  induction a as [|[| |d' c] a IH]; cbn; auto.
  destruct (String.eqb d' d); cbn; now rewrite IH.
Qed.

Lemma store_writes_leave d socket d0 w :
  store_writes d (effects (handleUserLeave socket d0 w)) = [].
Proof.
  rewrite handleUserLeave_effects.
  destruct (JsMap.get (documentRooms w) d0) as [room|]; auto.
  destruct (JsMap.get (users room) (socket_id socket)); auto.
  apply store_writes_broadcast.
Qed.

Lemma store_writes_disconnect d socket w :
  store_writes d (effects (on_disconnect socket w)) = [].
Proof.
  rewrite disconnect_effects. generalize (closed w socket). generalize (documentRooms w).
  intros es. induction es as [|[k room] rest IH]; intros w0; cbn [forEach]; auto.
  rewrite effects_bind, store_writes_app, IH.
  destruct (JsMap.has (users room) (socket_id socket)); auto.
  now rewrite store_writes_leave.
Qed.

(** The store is written by an explicit save, with the content sent, and by
    a timer that fires, with the content captured when it was armed; no
    other step of the event loop writes to it. *)
Theorem store_written_by_save_and_timer_only (w : World) (e : Event) (d : string) :
  match step w e with
  | Some r =>
      store_writes d (effects r) =
      match e with
      | SaveDocument _ d' content _ => if String.eqb d' d then [content] else []
      | TimerFire h =>
          match find_timer h (timers w) with
          | Some t =>
              if String.eqb (job_documentId (timer_job t)) d
              then [job_content (timer_job t)] else []
          | None => []
          end
      | _ => []
      end
  | None => True
  end.
Proof.
  unfold step. destruct (well_formed e) eqn:Hwf; [|exact I].
  destruct e as [socket d0 uName answer rnd | socket d0 delta content
                | socket d0 position | socket d0 content answer | socket d0
                | socket | ms | h | h answer | socket]; cbn [handle].
  - destruct answer as [[document|]|]; auto.
    destruct (hasAccess document (socket_user socket)) eqn:Hacc.
    + rewrite join_admitted_effects by auto. cbn [store_writes].
      now rewrite store_writes_app, store_writes_broadcast.
    + now rewrite join_denied.
  - rewrite text_change_effects. apply store_writes_broadcast.
  - rewrite cursor_move_effects.
    destruct (JsMap.get (documentRooms w) d0) as [room|]; auto.
    destruct (JsMap.get (users room) (socket_id socket)); auto.
    apply store_writes_broadcast.
  - rewrite save_document_effects. cbn.
    destruct answer; cbn; rewrite ?store_writes_broadcast;
      now destruct (String.eqb d0 d).
  - apply store_writes_leave.
  - apply store_writes_disconnect.
  - reflexivity.
  - destruct (find_timer h (timers w)) as [t|]; auto.
    now destruct (N.leb (timer_deadline t) (now w)).
  - destruct (find_suspended h (suspended w)) as [job|]; auto.
    now destruct answer.
  - reflexivity.
Qed.

(** ** Completion of an auto-save *)

Lemma suspended_kept_distinct (keep : TimeoutHandle * AutoSaveJob -> bool)
    (l : list (TimeoutHandle * AutoSaveJob)) :
  NoDup (map fst l) -> NoDup (map fst (filter keep l)).
Proof.
  induction l as [|p l IH]; cbn; intros Hnd; [constructor|].
  apply NoDup_cons_iff in Hnd as [Hfresh Hrest].
  destruct (keep p); cbn; auto.
  apply NoDup_cons; auto. rewrite in_map_iff. intros [q [Hq Hin]].
  apply filter_In in Hin as [Hin _]. apply Hfresh. rewrite <- Hq. now apply in_map.
Qed.

Lemma step_SuspendedInv w e r :
  step w e = Some r -> TimersInv w -> SuspendedInv w -> SuspendedInv (world r).
Proof.
  assert (Hframe : forall w',
            timers w' = timers w -> suspended w' = suspended w ->
            nextHandle w' = nextHandle w -> SuspendedInv w -> SuspendedInv w').
  { intros w' Ht Hs Hn [H1 H2 H3]. constructor; rewrite ?Ht, ?Hs, ?Hn; auto. }
  assert (Hkeep : forall w' keep,
            timers w' = filter keep (timers w) -> suspended w' = suspended w ->
            nextHandle w' = nextHandle w -> SuspendedInv w -> SuspendedInv w').
  { intros w' keep Ht Hs Hn [H1 H2 H3]. constructor; rewrite ?Ht, ?Hs, ?Hn; auto.
    intros t p Hin. apply filter_In in Hin as [Hin _]. auto. }
  intros Hstep0. apply step_handle in Hstep0 as [Hwf Hstep0]. revert Hstep0.
  destruct e as [socket d uName answer rnd | socket d delta content
                | socket d position | socket d content answer | socket d
                | socket | ms | h | h answer | socket]; cbn [handle].
  - intros [= <-] _ Hs. destruct answer as [[document|]|]; auto.
    destruct (hasAccess document (socket_user socket)) eqn:Hacc.
    + apply Hframe; auto; now rewrite join_admitted_world.
    + now rewrite join_denied.
  - intros [= <-] [_ Hbelow] [H1 H2 H3]. rewrite text_change_world.
    constructor; cbn [timers suspended nextHandle]; auto.
    + eapply Forall_impl; [|exact H2]. cbn. intros p Hp. now apply Nat.lt_lt_succ_r.
    + intros t p Hin Hp. apply in_app_or in Hin as [Hin|[<-|[]]].
      * apply H3; auto. unfold cancel_registered in Hin.
        destruct (JsMap.get (autoSaveTimers w) d); auto.
        now apply filter_In in Hin.
      * cbn. rewrite Forall_forall in H2. apply H2 in Hp.
        intros Heq. rewrite Heq in Hp. exact (Nat.lt_irrefl _ Hp).
  - intros [= <-] _ Hs. now rewrite cursor_move_world.
  - intros [= <-] _ Hs. now rewrite save_document_world.
  - intros [= <-] _ Hs. unfold on_leave_document.
    apply Hframe; auto; now rewrite handleUserLeave_world.
  - intros [= <-] _ Hs.
    destruct (disconnect_world socket w) as (_ & Ht & Hn & Hsu & _).
    eapply Hkeep; eauto.
  - intros [= <-] _ Hs. now apply Hframe.
  - destruct (find_timer h (timers w)) as [t|] eqn:Hfind; [|discriminate].
    destruct (N.leb (timer_deadline t) (now w)); [|discriminate].
    intros [= <-] [Hnd Hbelow] [H1 H2 H3].
    apply find_some in Hfind as [Hin Hh]. apply Nat.eqb_eq in Hh.
    constructor; cbn.
    + rewrite map_app. cbn. apply NoDup_app; auto.
      * constructor; [intros [] | constructor].
      * intros x Hx [<-|[]]. apply in_map_iff in Hx as [p [Hp Hinp]].
        apply (H3 t p); auto.
    + apply Forall_app. split; auto. constructor; [|constructor].
      cbn. rewrite Forall_forall in Hbelow. now apply Hbelow.
    + intros t' p Hin' Hp. apply filter_In in Hin' as [Hin' Hne].
      apply negb_true_iff, Nat.eqb_neq in Hne.
      apply in_app_or in Hp as [Hp|[<-|[]]]; auto.
  - destruct (find_suspended h (suspended w)) as [job|]; [|discriminate].
    intros [= <-] _ [H1 H2 H3].
    assert (Hs : SuspendedInv
                   (with_suspended w
                      (filter (fun p => negb (Nat.eqb (fst p) h)) (suspended w)))).
    { constructor; cbn.
      - now apply suspended_kept_distinct.
      - rewrite Forall_forall in *. intros p Hp. apply filter_In in Hp as [Hp _]. auto.
      - intros t p Hin Hp. apply filter_In in Hp as [Hp _]. auto. }
    destruct answer; cbn; auto.
    destruct Hs as [S1 S2 S3]. constructor; auto.
  - intros [= <-] _ Hs. apply Hframe; auto; now rewrite connection_world.
Qed.

Lemma Reachable_SuspendedInv w : Reachable w -> SuspendedInv w.
Proof.
  induction 1 as [|w e r Hr IH Hstep].
  - constructor; cbn; [constructor | constructor | tauto].
  - eapply step_SuspendedInv; eauto. now apply Reachable_TimersInv.
Qed.

Lemma find_suspended_last (l : list (TimeoutHandle * AutoSaveJob)) h job :
  ~ In h (map fst l) -> find_suspended h (l ++ [(h, job)]) = Some job.
Proof.
  unfold find_suspended, TimeoutHandle in *. induction l as [|p l IH]; cbn; intros Hn.
  - now rewrite Nat.eqb_refl.
  - destruct (Nat.eqb (fst p) h) eqn:E.
    + apply Nat.eqb_eq in E. exfalso. apply Hn. now left.
    + apply IH. intros H. apply Hn. now right.
Qed.

(** When the registered timer of a document is due and fires, and the store
    update it issues then settles with no other event in between: one update
    is issued and no client is sent anything; no timer stays armed for the
    document.  If the update resolved, the registry entry is gone; if it was
    rejected, the registry is as before and nothing is armed again until the
    next text change, which arms one timer. *)
Theorem autosave_completion (w : World) (d : string) (t : Timer)
    (answer : UpdateResult) (socket : Socket) (delta : Delta) (content : string) :
  Reachable w ->
  registered w d t ->
  (timer_deadline t <= now w)%N ->
  exists w2,
    run w [TimerFire (timer_handle t); AutoSaveSettled (timer_handle t) answer]
    = Some (w2, [StoreUpdate d (job_content (timer_job t))]) /\
    pending_timers w2 d = [] /\
    match answer with
    | UpdateResolved => JsMap.get (autoSaveTimers w2) d = None
    | UpdateRejected => autoSaveTimers w2 = autoSaveTimers w
    end /\
    registered (world (on_text_change socket d delta content w2)) d
               (mkTimer (nextHandle w2) (now w2 + AUTO_SAVE_DEBOUNCE_MS)
                        (mkAutoSaveJob d content (socket_user socket))).
Proof.
  intros Hreach Hreg Hdue.
  pose proof (Reachable_TimersInv Hreach) as Ht.
  pose proof (Reachable_SuspendedInv Hreach) as [S1 S2 S3].
  assert (Hin : In t (timers w) /\ job_documentId (timer_job t) = d).
  { destruct Hreg as [Hp _]. unfold pending_timers in Hp.
    assert (H : In t (filter (fun t0 => String.eqb (job_documentId (timer_job t0)) d)
                             (timers w))) by (rewrite Hp; now left).
    apply filter_In in H as [H1 H2]. now apply String.eqb_eq in H2. }
  destruct Hin as [Hin Hdoc].
  destruct (registered_timer_fires Hreach Hreg Hdue) as [r (Hstep & Heff & Hpend)].
  assert (Hr : r = fire_timer t w).
  { unfold step in Hstep. cbn [well_formed handle] in Hstep. rewrite (@find_timer_In _ _ Ht Hin) in Hstep.
    destruct (N.leb (timer_deadline t) (now w)); [|discriminate]. congruence. }
  assert (Hsusp : find_suspended (timer_handle t) (suspended (world r))
                  = Some (timer_job t)).
  { subst r. cbn. apply find_suspended_last. intros Hh.
    apply in_map_iff in Hh as [p [Hp Hinp]]. apply (S3 t p); auto. }
  set (w2 := world (settle_autosave (timer_handle t) (timer_job t) answer (world r))).
  assert (Hpend2 : pending_timers w2 d = []).
  { unfold w2. rewrite <- Hpend. unfold pending_timers. now destruct answer. }
  exists w2. split; [|split; [exact Hpend2|split]].
  - cbn [run]. rewrite Hstep. unfold step. cbn [well_formed handle]. rewrite Hsusp. cbn [world effects].
    fold w2. rewrite Heff, Hdoc. now destruct answer.
  - unfold w2. subst r. destruct answer; cbn.
    + rewrite Hdoc. apply JsMapFacts.get_delete_same.
    + reflexivity.
  - apply text_change_rearms. now left.
Qed.

(** ** Presences *)

Lemma generateUserColor_in rnd : In (generateUserColor rnd) colors.
Proof.
  unfold generateUserColor. apply nth_In. apply Nat.mod_upper_bound. discriminate.
Qed.

Lemma disconnect_directory_preserves (P : JsMap.t DocumentRoom -> Prop) :
  (forall rooms d sid, P rooms -> P (directory_without rooms d sid)) ->
  forall socket w, P (documentRooms w) ->
                   P (documentRooms (world (on_disconnect socket w))).
Proof.
  intros Hleave socket w. rewrite disconnect_directory.
  generalize (documentRooms w) at 2. intros es. revert w.
  induction es as [|[k room] rest IH]; intros w Hw; cbn; auto.
  apply IH. destruct (JsMap.has (users room) (socket_id socket)); auto.
  rewrite handleUserLeave_world. cbn. now apply Hleave.
Qed.

Lemma palette_ok_without rooms d sid :
  palette_ok rooms -> palette_ok (directory_without rooms d sid).
Proof.
  intros H d0 room' Hget.
  apply get_without in Hget as [[_ Hg]|[_ [_ [room [Hg ->]]]]]; eauto.
  apply JsMapFacts.Forall_delete. eauto.
Qed.

Lemma palette_ok_with rooms d sid u :
  In (color u) colors -> palette_ok rooms -> palette_ok (directory_with rooms d sid u).
Proof.
  intros Hu H d0 room' Hget.
  apply get_with in Hget as [[_ Hg]|[_ ->]]; eauto.
  apply JsMapFacts.Forall_set; auto.
  unfold room_or_new. destruct (JsMap.get rooms d) eqn:E; [eauto | constructor].
Qed.

Lemma step_palette_ok w e r :
  step w e = Some r -> palette_ok (documentRooms w) ->
  palette_ok (documentRooms (world r)).
Proof.
  intros Hstep0. apply step_handle in Hstep0 as [Hwf Hstep0]. revert Hstep0.
  destruct e as [socket d uName answer rnd | socket d delta content
                | socket d position | socket d content answer | socket d
                | socket | ms | h | h answer | socket]; cbn [handle].
  - intros [= <-] Hw. destruct answer as [[document|]|]; auto.
    destruct (hasAccess document (socket_user socket)) eqn:Hacc.
    + rewrite join_admitted_world by auto. cbn [documentRooms].
      apply palette_ok_with; auto. apply generateUserColor_in.
    + now rewrite join_denied.
  - intros [= <-] Hw. now rewrite text_change_world.
  - intros [= <-] Hw. now rewrite cursor_move_world.
  - intros [= <-] Hw. now rewrite save_document_world.
  - intros [= <-] Hw. unfold on_leave_document. rewrite handleUserLeave_world.
    now apply palette_ok_without.
  - intros [= <-] Hw. apply disconnect_directory_preserves; auto.
    intros rooms d sid. apply palette_ok_without.
  - now intros [= <-] Hw.
  - destruct (find_timer h (timers w)) as [t|]; [|discriminate].
    destruct (N.leb (timer_deadline t) (now w)); [|discriminate].
    now intros [= <-] Hw.
  - destruct (find_suspended h (suspended w)) as [job|]; [|discriminate].
    intros [= <-] Hw. now destruct answer.
  - intros [= <-] Hw. now rewrite connection_world.
Qed.

(** In every reachable world, the presence stored for a connection carries
    that connection's id and a colour of the palette. *)
Theorem presences_well_formed (w : World) (d sid : string) :
  Reachable w ->
  match presence_of w d sid with
  | Some user => socketId user = sid /\ In (color user) colors
  | None => True
  end.
Proof.
  intros Hreach.
  assert (Hpal : palette_ok (documentRooms w)).
  { induction Hreach as [|w e r _ IH Hstep].
    - intros d0 room. discriminate.
    - eapply step_palette_ok; eauto. }
  pose proof (Reachable_RoomsInv Hreach) as Hw.
  unfold presence_of.
  destruct (JsMap.get (documentRooms w) d) as [room|] eqn:Hroom; auto.
  destruct (JsMap.get (users room) sid) as [user|] eqn:Hu; auto.
  apply JsMapFacts.get_some_In in Hu. split.
  - pose proof (inv_presence Hw _ Hroom) as Hp. rewrite Forall_forall in Hp.
    exact (Hp _ Hu).
  - pose proof (Hpal _ _ Hroom) as Hc. rewrite Forall_forall in Hc.
    exact (Hc _ Hu).
Qed.

(** ** Documents do not interfere *)

Lemma presence_with_other rooms d sid u d0 :
  d0 <> d ->
  JsMap.get (directory_with rooms d sid u) d0 = JsMap.get rooms d0.
Proof.
  intros Hne. unfold directory_with. now rewrite JsMapFacts.get_set_other by auto.
Qed.

Lemma audience_in_roster w socket d sid :
  RoomsInv w -> is_socket_id d = false ->
  In sid (audience w socket d) -> In sid (roster w d).
Proof.
  intros Hw Hd Hin. unfold audience in Hin. apply filter_In in Hin as [Hin _].
  now rewrite (inv_members Hw d Hd) in Hin.
Qed.

Lemma recipients_app (a b : list Effect) :
  recipients (a ++ b) = recipients a ++ recipients b.
Proof.
  induction a as [|[| |] a IH]; cbn; auto. now rewrite IH.
Qed.

(** A client event about one document changes neither the room nor the
    pending save of any other document, nor the transport room of any other
    name; and when it names a document (not a connection), everything it
    sends goes to the sender or to members of that one document's room. *)
Theorem other_documents_untouched (w : World) (e : Event) (d0 : string) :
  Reachable w ->
  match event_target e, step w e with
  | Some (socket, d), Some r =>
      (is_socket_id d = false ->
       Forall (fun sid => sid = socket_id socket \/ In sid (roster w d))
              (recipients (effects r))) /\
      (String.eqb d0 d = false ->
       JsMap.get (documentRooms (world r)) d0 = JsMap.get (documentRooms w) d0 /\
       JsMap.get (autoSaveTimers (world r)) d0 = JsMap.get (autoSaveTimers w) d0 /\
       members (sioRooms (world r)) d0 = members (sioRooms w) d0)
  | _, _ => True
  end.
Proof.
  intros Hreach. pose proof (Reachable_RoomsInv Hreach) as Hw.
  assert (Haud : forall socket d ev,
            is_socket_id d = false ->
            Forall (fun sid => sid = socket_id socket \/ In sid (roster w d))
                   (recipients (map (fun sid => Emit sid ev) (audience w socket d)))).
  { intros socket d ev Hd. rewrite recipients_broadcast.
    apply Forall_forall. intros sid Hin. right. eapply audience_in_roster; eauto. }
  unfold step. destruct (well_formed e) eqn:Hwf;
    [|destruct (event_target e) as [[socket d]|]; exact I].
  destruct e as [socket d uName answer rnd | socket d delta content
                | socket d position | socket d content answer | socket d
                | socket | ms | h | h answer | socket]; cbn [event_target handle]; auto.
  - destruct answer as [[document|]|].
    + destruct (hasAccess document (socket_user socket)) eqn:Hacc.
      * cbn [well_formed] in Hwf. apply andb_true_iff in Hwf as [Hsid Hdoc].
        apply negb_true_iff in Hdoc.
        assert (Hw' : RoomsInv (world (on_join_document socket d uName
                                         (FindResolved (Some document)) rnd w))).
        { apply Reachable_RoomsInv. now apply join_reachable. }
        split.
        -- intros _. rewrite join_admitted_effects by auto.
           cbn [recipients]. rewrite recipients_app, recipients_broadcast.
           cbn [recipients]. rewrite Forall_forall. intros sid Hin.
           apply in_app_or in Hin as [Hin|[<-|[]]]; auto.
           apply (audience_in_roster _ _ _ Hw' Hdoc) in Hin.
           rewrite roster_after_join, String.eqb_refl in Hin by auto.
           destruct (in_dec string_dec (socket_id socket) (roster w d)); auto.
           apply in_app_or in Hin as [Hin|[<-|[]]]; auto.
        -- rewrite join_admitted_world by auto.
           cbn [documentRooms autoSaveTimers sioRooms].
           intros Hne. apply String.eqb_neq in Hne. split; [|split; auto].
           ++ now apply presence_with_other.
           ++ rewrite members_join. apply not_eq_sym, String.eqb_neq in Hne.
              now rewrite Hne.
      * rewrite join_denied by auto. cbn. split; auto.
    + cbn. split; auto.
    + cbn. split; auto.
  - rewrite text_change_effects, text_change_world.
    cbn [documentRooms autoSaveTimers sioRooms]. split; auto.
    intros Hne. apply String.eqb_neq in Hne. repeat split.
    now rewrite JsMapFacts.get_set_other by auto.
  - rewrite cursor_move_effects, cursor_move_world. split; auto.
    intros Hd.
    destruct (JsMap.get (documentRooms w) d) as [room|]; [|constructor].
    destruct (JsMap.get (users room) (socket_id socket)); [auto | constructor].
  - rewrite save_document_effects, save_document_world. split; auto.
    intros Hd. destruct answer; cbn [recipients]; constructor; auto.
  - unfold on_leave_document. rewrite handleUserLeave_effects, handleUserLeave_world.
    cbn [documentRooms autoSaveTimers sioRooms]. split.
    + intros Hd. destruct (JsMap.get (documentRooms w) d) as [room|]; [|constructor].
      destruct (JsMap.get (users room) (socket_id socket)); [auto | constructor].
    + intros Hne. apply String.eqb_neq in Hne. split; [|split; auto].
      * now apply get_directory_without_other.
      * rewrite members_leave. apply not_eq_sym, String.eqb_neq in Hne.
        now rewrite Hne.
Qed.

(** * The connection middleware *)

Lemma split_space_spaceless s : spaceless s = true -> split_space s = [s].
Proof.
  induction s as [|c s IH]; cbn; auto.
  destruct (Ascii.eqb c " "%char); cbn; [discriminate|].
  intros H. now rewrite IH.
Qed.

Lemma split_space_app (a b : string) :
  spaceless a = true ->
  split_space (a ++ String " "%char b) =
  a :: split_space b.
Proof.
  induction a as [|c a IH]; cbn.
  - reflexivity.
  - destruct (Ascii.eqb c " "%char); cbn; [discriminate|].
    intros H. now rewrite IH.
Qed.

Lemma split_space_head (a b : string) :
  spaceless a = true ->
  nth_error (split_space (a ++ String " "%char b)) 0 = Some a.
Proof. intros H. now rewrite split_space_app. Qed.

Lemma verifyToken_verdict jwt_verify env token :
  match verifyToken jwt_verify env token with
  | Some decoded => AuthNext decoded
  | None => AuthError "Authentication error"
  end = verdict jwt_verify env token.
Proof.
  unfold verdict, verifyToken, verifyAccessToken, secret_in_use, js_or.
  destruct env as [[|c s]|]; reflexivity.
Qed.

Lemma authenticate_token jwt_verify env h token :
  handshake_token h = Some token -> truthy (Some token) = true ->
  authenticate jwt_verify env h = verdict jwt_verify env token.
Proof.
  intros Ht Htruthy. unfold authenticate. rewrite Ht, Htruthy. cbn.
  apply verifyToken_verdict.
Qed.

Lemma truthy_nonempty t : t <> EmptyString -> truthy (Some t) = true.
Proof. destruct t; [congruence | reflexivity]. Qed.

(** A handshake without [auth.token] whose [authorization] header is a
    word, one space and a token is judged on that token, whatever the word
    and whatever follows the token after another space; the token is
    verified against [JWT_SECRET], or the built-in default when that is unset
    or empty. *)
Theorem authorization_header_token
    (jwt_verify : string -> string -> option TokenPayload) (env : option string)
    (a : option string) (scheme token more : string) :
  truthy a = false ->
  spaceless scheme = true ->
  spaceless token = true ->
  token <> EmptyString ->
  authenticate jwt_verify env
    (mkHandshake a (Some (scheme ++ String " "%char token)%string))
  = verdict jwt_verify env token /\
  authenticate jwt_verify env
    (mkHandshake a (Some (scheme ++ String " "%char (token ++ String " "%char more))%string))
  = verdict jwt_verify env token.
Proof.
  intros Ha Hs Ht Hne. split; apply authenticate_token; auto using truthy_nonempty;
    unfold handshake_token, js_or; cbn [auth_token authorization]; rewrite Ha;
    rewrite split_space_app by exact Hs; cbn [nth_error].
  - now rewrite split_space_spaceless.
  - now rewrite split_space_app.
Qed.

(** A non-empty [auth.token] decides alone: the [authorization] header is
    not looked at, so a token there cannot rescue a connection whose
    [auth.token] does not verify. *)
Theorem auth_token_precedence
    (jwt_verify : string -> string -> option TokenPayload) (env : option string)
    (token : string) (header : option string) :
  token <> EmptyString ->
  authenticate jwt_verify env (mkHandshake (Some token) header)
  = verdict jwt_verify env token.
Proof.
  intros Hne. apply authenticate_token; auto using truthy_nonempty.
  unfold handshake_token, js_or. cbn [auth_token].
  now rewrite truthy_nonempty.
Qed.

(** Without [auth.token], a connection is refused before any verification
    when there is no [authorization] header, when the header has no space,
    and when nothing or another space follows its first space. *)
Theorem malformed_header_refused
    (jwt_verify : string -> string -> option TokenPayload) (env : option string)
    (a : option string) (scheme rest : string) :
  truthy a = false ->
  spaceless scheme = true ->
  let refused h :=
    authenticate jwt_verify env (mkHandshake a h) = AuthError "Authentication error" in
  refused None /\
  refused (Some scheme) /\
  refused (Some (scheme ++ String " "%char EmptyString)%string) /\
  refused (Some (scheme ++ String " "%char (String " "%char rest))%string).
Proof.
  intros Ha Hs. cbn zeta. unfold authenticate, handshake_token, js_or.
  cbn [auth_token authorization]. rewrite Ha.
  rewrite !split_space_app by exact Hs. rewrite split_space_spaceless by exact Hs.
  cbn. repeat split; reflexivity.
Qed.

(** * The document routes *)

Lemma find_user_some (document : DocumentModel) (uid : string) :
  find (fun c => is_user (collab_user c) (Some uid)) (model_collaborators document)
  = find (fun c => String.eqb (collab_user c) uid) (model_collaborators document).
Proof. reflexivity. Qed.

Lemma is_user_spec s uid : is_user s (Some uid) = true <-> s = uid.
Proof. apply String.eqb_eq. Qed.

Lemma first_permission_listed (document : DocumentModel) (uid : string) p :
  first_permission document uid = Some p ->
  existsb (fun c => String.eqb c uid) (map collab_user (model_collaborators document))
  = true.
Proof.
  unfold first_permission.
  destruct (find (fun c => String.eqb (collab_user c) uid) (model_collaborators document))
    as [c|] eqn:Hf; [|discriminate].
  intros _. apply find_some in Hf as [Hin Hc].
  apply existsb_exists. exists (collab_user c). split; auto. now apply in_map.
Qed.

(** [PUT /:id] on a document that exists, with a valid body: the answer is
    403 exactly when the user is not the owner and the first collaborator
    entry of the user is missing or grants only viewing, later entries
    notwithstanding; a request without user is refused; a refusal writes
    nothing. *)
Theorem put_permission_gate (uid : string) (document : DocumentModel)
    (title content : option string) (saved populated : UpdateResult) :
  let found := LoadResolved (Some document) in
  let r := put_document (Some uid) true found title content saved populated in
  (status (fst r) = 403 <->
     model_owner document <> uid /\
     (first_permission document uid = None \/
      first_permission document uid = Some PermViewer)) /\
  (status (fst r) = 403 -> snd r = []) /\
  (forall rest,
     model_owner document <> uid ->
     model_collaborators document = mkCollaborator uid PermViewer :: rest ->
     status (fst r) = 403) /\
  put_document None true found title content saved populated
  = (mkResponse 403 (PayloadFailure "Not authorized to edit this document"), []).
Proof.
  cbn zeta.
  assert (Hmain :
    status (fst (put_document (Some uid) true (LoadResolved (Some document))
                   title content saved populated)) = 403 <->
    model_owner document <> uid /\
    (first_permission document uid = None \/
     first_permission document uid = Some PermViewer)).
  { unfold put_document, first_permission. cbn [negb]. rewrite find_user_some.
    cbn [is_user].
    destruct (String.eqb (model_owner document) uid) eqn:Eo;
      [apply String.eqb_eq in Eo | apply String.eqb_neq in Eo];
      (destruct (find (fun c => String.eqb (collab_user c) uid)
                      (model_collaborators document)) as [c|];
       cbn [option_map negb andb];
       [destruct (collab_permission c)|]);
      destruct saved, populated; cbn;
      (split; [intros H; try (exfalso; lia); split; auto
              | intros [H1 [H2|H2]]; try congruence; try discriminate]). }
  split; [exact Hmain|]. split; [|split].
  - unfold put_document. cbn [negb].
    destruct (negb (is_user (model_owner document) (Some uid)) && _); cbn; auto.
    destruct saved, populated; cbn; discriminate.
  - intros rest Hne Hcs. apply Hmain. split; auto. right.
    unfold first_permission. rewrite Hcs. cbn. now rewrite String.eqb_refl.
  - unfold put_document. cbn.
    assert (Hnone : forall l : list Collaborator, find (fun _ => false) l = None)
      by (induction l; auto).
    now rewrite Hnone.
Qed.

(** Whoever [PUT /:id] lets edit a document is let in by [GET /:id] and by
    the access test of join-document. *)
Theorem edit_implies_read (uid : string) (document : DocumentModel)
    (title content : option string) (saved populated : UpdateResult) :
  let found := LoadResolved (Some document) in
  status (fst (put_document (Some uid) true found title content saved populated)) = 200 ->
  status (get_document (Some uid) found) = 200 /\
  hasAccess (stored document) uid = true.
Proof.
  cbn zeta. unfold put_document, get_document, hasAccess, stored. cbn [negb owner
    collaborators is_user].
  assert (Hsame : existsb (fun c => String.eqb (collab_user c) uid)
                          (model_collaborators document)
                  = existsb (fun c => String.eqb c uid)
                            (map collab_user (model_collaborators document))).
  { induction (model_collaborators document) as [|c l IH]; cbn; auto. now rewrite IH. }
  rewrite Hsame.
  destruct (String.eqb (model_owner document) uid); cbn; auto.
  destruct (find (fun c => String.eqb (collab_user c) uid) (model_collaborators document))
    as [c|] eqn:Hf; cbn.
  - assert (Hl : existsb (fun c => String.eqb c uid)
                         (map collab_user (model_collaborators document)) = true).
    { apply (@first_permission_listed document uid (collab_permission c)).
      unfold first_permission. now rewrite Hf. }
    rewrite Hl. cbn. auto.
  - discriminate.
Qed.

(** A collaborator whose entry grants only viewing is refused by
    [PUT /:id], which writes nothing; yet the same user is admitted by
    join-document, and a save-document from that connection issues the store
    update with whatever content it carries. *)
Theorem viewer_writes_through_socket (document : DocumentModel) (socket : Socket)
    (w : World) (d uName content : string) (rnd : nat)
    (title body : option string) (saved populated answer : UpdateResult) :
  model_owner document <> socket_user socket ->
  first_permission document (socket_user socket) = Some PermViewer ->
  let found := LoadResolved (Some document) in
  let joined := on_join_document socket d uName
                  (FindResolved (Some (stored document))) rnd w in
  put_document (Some (socket_user socket)) true found title body saved populated
  = (mkResponse 403 (PayloadFailure "Not authorized to edit this document"), []) /\
  presence_of (world joined) d (socket_id socket) = Some (presence socket uName rnd) /\
  store_writes d (effects (on_save_document socket d content answer (world joined)))
  = [content].
Proof.
  intros Hne Hview. cbn zeta.
  assert (Hacc : hasAccess (stored document) (socket_user socket) = true).
  { unfold hasAccess. apply orb_true_iff. right.
    exact (first_permission_listed _ _ Hview). }
  split; [|split].
  - unfold put_document. cbn [negb is_user]. unfold first_permission in Hview.
    apply String.eqb_neq in Hne. rewrite Hne.
    destruct (find (fun c => String.eqb (collab_user c) (socket_user socket))
                   (model_collaborators document)) as [c|]; [|discriminate].
    cbn in Hview. injection Hview as Hview. now rewrite Hview.
  - now apply presence_after_join.
  - rewrite save_document_effects. cbn. rewrite String.eqb_refl.
    destruct answer; cbn; now rewrite ?store_writes_broadcast.
Qed.

(** [DELETE /:id] and [POST /:id/share] on a document that exists answer
    200 only to its owner, and ask nothing of the store for anyone else. *)
Theorem delete_and_share_owner_only (user : option string) (document : DocumentModel)
    (fresh : string) (settled : UpdateResult) (url : option string) :
  let found := LoadResolved (Some document) in
  let deleted := delete_document user found settled in
  let shared := share_document user found fresh settled url in
  (status (fst deleted) = 200 <->
     user = Some (model_owner document) /\ settled = UpdateResolved) /\
  (status (fst shared) = 200 ->  user = Some (model_owner document)) /\
  (if is_user (model_owner document) user then True
   else status (fst deleted) = 403 /\ snd deleted = [] /\
        status (fst shared) = 403 /\ snd shared = []).
Proof.
  cbn zeta. unfold delete_document, share_document.
  assert (Hu : is_user (model_owner document) user = true <->
               user = Some (model_owner document)).
  { destruct user as [uid|]; cbn; [|split; discriminate].
    rewrite String.eqb_eq. split; [intros ->; auto | intros [= ->]; auto]. }
  destruct (is_user (model_owner document) user) eqn:E; cbn [negb].
  - assert (Huser : user = Some (model_owner document)) by now apply Hu.
    split; [|split; auto].
    destruct settled; cbn; split; auto; try (intros H; exfalso; lia).
    intros [_ H]. discriminate.
  - assert (Hnot : user <> Some (model_owner document)).
    { intros H. apply Hu in H. discriminate. }
    cbn. split; [|split; [|auto]].
    + split; [intros H; exfalso; lia | intros [H _]; contradiction].
    + intros H. exfalso. lia.
Qed.

(** A collaborator entry with the permission "owner" does not make its user
    the owner: such a user may edit through [PUT /:id], but [DELETE /:id]
    and [POST /:id/share] refuse without touching the store. *)
Theorem owner_permission_is_not_ownership (uid : string) (document : DocumentModel)
    (title content : option string) (fresh : string) (settled : UpdateResult)
    (url : option string) :
  model_owner document <> uid ->
  first_permission document uid = Some PermOwner ->
  let found := LoadResolved (Some document) in
  status (fst (put_document (Some uid) true found title content
                 UpdateResolved UpdateResolved)) = 200 /\
  delete_document (Some uid) found settled
  = (mkResponse 403 (PayloadFailure "Only the owner can delete this document"), []) /\
  share_document (Some uid) found fresh settled url
  = (mkResponse 403 (PayloadFailure "Only the owner can generate a share link"), []).
Proof.
  intros Hne Hperm. cbn zeta. apply String.eqb_neq in Hne.
  unfold put_document, delete_document, share_document. cbn [negb is_user].
  rewrite Hne. unfold first_permission in Hperm.
  destruct (find (fun c => String.eqb (collab_user c) uid)
                 (model_collaborators document)) as [c|]; [|discriminate].
  cbn in Hperm. injection Hperm as Hperm. rewrite Hperm. cbn. auto.
Qed.

(** Whoever creates a document is its owner and its only collaborator, with
    the permission "owner", and passes the access test of every route and
    of the socket join.  The title stored is the default when none was sent or
    when the one sent is blank once trimmed, and the trimmed title
    otherwise. *)
Theorem creator_has_full_access (trim : string -> string) (uid : string)
    (title content : option string)
    (edit_title edit_content : option string) (fresh : string) (url : option string) :
  exists document,
    create_document trim (Some uid) true title content UpdateResolved UpdateResolved
    = (mkResponse 201 (PayloadDocument document), [CallCreate document]) /\
    model_owner document = uid /\
    model_collaborators document = [mkCollaborator uid PermOwner] /\
    model_title document
    = trim (if truthy (option_map trim title)
            then match title with Some t => trim t | None => EmptyString end
            else "Untitled Document") /\
    let found := LoadResolved (Some document) in
    status (get_document (Some uid) found) = 200 /\
    status (fst (put_document (Some uid) true found edit_title edit_content
                   UpdateResolved UpdateResolved)) = 200 /\
    status (fst (delete_document (Some uid) found UpdateResolved)) = 200 /\
    status (fst (share_document (Some uid) found fresh UpdateResolved url)) = 200 /\
    hasAccess (stored document) uid = true.
Proof.
  eexists. split; [reflexivity|]. cbn [model_owner model_collaborators model_title].
  split; [reflexivity|]. split; [reflexivity|]. split.
  - unfold js_or. destruct title as [t|]; cbn [option_map]; [|reflexivity].
    now destruct (truthy (Some (trim t))).
  - cbn zeta. unfold get_document, put_document, delete_document, share_document,
      hasAccess, stored.
    cbn [negb is_user model_owner model_collaborators model_shareToken owner
         collaborators existsb find collab_user collab_permission map truthy].
    rewrite String.eqb_refl. cbn. auto.
Qed.

(** [POST /:id/share] by the owner, when the store accepts and the generated
    token is not empty: the answer carries a token that is not empty; the
    token the document already had is kept and then nothing is saved; and
    sharing again the document as it now is gives the same answer and saves
    nothing, whatever would be generated. *)
Theorem share_is_stable (uid : string) (document : DocumentModel) (fresh : string)
    (url : option string) :
  model_owner document = uid ->
  fresh <> EmptyString ->
  let found := LoadResolved (Some document) in
  let first := share_document (Some uid) found fresh UpdateResolved url in
  exists token now_stored,
    fst first = mkResponse 200
                  (PayloadShare (Some token)
                     (template url ++ "/documents/shared/" ++ token)%string) /\
    token <> EmptyString /\
    (if truthy (model_shareToken document)
     then model_shareToken document = Some token /\ snd first = [] /\
          now_stored = document
     else token = fresh /\ snd first = [CallSave now_stored]) /\
    forall fresh' settled,
      share_document (Some uid) (LoadResolved (Some now_stored)) fresh' settled url
      = (fst first, []).
Proof.
  intros Howner Hfresh. cbn zeta. subst uid.
  assert (Hagain : forall (stored_now : DocumentModel) token fresh' settled,
            model_owner stored_now = model_owner document ->
            model_shareToken stored_now = Some token -> token <> EmptyString ->
            share_document (Some (model_owner document))
                           (LoadResolved (Some stored_now)) fresh' settled url
            = (mkResponse 200
                 (PayloadShare (Some token)
                    (template url ++ "/documents/shared/" ++ token)%string), [])).
  { intros stored_now token fresh' settled Ho Ht Hne. unfold share_document.
    cbn [is_user]. rewrite Ho, String.eqb_refl, Ht, (truthy_nonempty Hne).
    reflexivity. }
  destruct (truthy (model_shareToken document)) eqn:Htruthy.
  - destruct (model_shareToken document) as [[|c s]|] eqn:Htok; try discriminate.
    assert (Hne : String c s <> EmptyString) by discriminate.
    rewrite (Hagain document (String c s) fresh UpdateResolved eq_refl Htok Hne).
    cbn [fst snd]. exists (String c s), document.
    split; [reflexivity|]. split; [exact Hne|]. split; [auto|].
    intros fresh' settled. now apply Hagain.
  - set (document1 := mkDocumentModel (model_title document) (model_content document)
                        (model_owner document) (model_collaborators document)
                        (Some fresh)).
    assert (Hfirst :
      share_document (Some (model_owner document)) (LoadResolved (Some document))
                     fresh UpdateResolved url
      = (mkResponse 200
           (PayloadShare (Some fresh)
              (template url ++ "/documents/shared/" ++ fresh)%string),
         [CallSave document1])).
    { unfold share_document. cbn [is_user].
      rewrite String.eqb_refl, Htruthy. reflexivity. }
    rewrite Hfirst. cbn [fst snd]. exists fresh, document1.
    split; [reflexivity|]. split; [exact Hfresh|]. split; [auto|].
    intros fresh' settled. now apply Hagain.
Qed.

(** * The further properties on the small session *)

Lemma after_edit_reachable : Reachable Session.after_edit.
Proof.
  exact (reachable_world_after
           (Scenario.both_join ++
            [TextChange Scenario.alice "doc-1" "delta" "Hello"; Elapse 30000])).
Qed.

Lemma leave_notifies_remaining_witness :
  Reachable Scenario.two_in_room /\
  effects (on_leave_document Scenario.alice "doc-1" Scenario.two_in_room)
  = [Emit "socket-bob-000000002" (EvUserLeft "user-1" "Alice")] /\
  roster (world (on_leave_document Scenario.alice "doc-1" Scenario.two_in_room)) "doc-1"
  = ["socket-bob-000000002"].
Proof.
  assert (Hr : Reachable Scenario.two_in_room) by exact two_in_room_reachable.
  split; [exact Hr|].
  pose proof (@leave_notifies_remaining _ Scenario.alice "doc-1" Hr) as H.
  cbn zeta in H.
  change (presence_of Scenario.two_in_room "doc-1" (socket_id Scenario.alice))
    with (Some (mkSocketUser "socket-alice-0000001" "user-1" "Alice" "#FF6B6B")) in H.
  destruct H as (Heff & _ & _ & Hroster & _).
  split; [exact Heff | exact Hroster].
Defined.

Lemma leave_twice_witness :
  Reachable Scenario.two_in_room /\
  effects (on_leave_document Scenario.alice "doc-1"
             (world (on_leave_document Scenario.alice "doc-1" Scenario.two_in_room)))
  = [].
Proof.
  assert (Hr : Reachable Scenario.two_in_room) by exact two_in_room_reachable.
  split; [exact Hr|].
  exact (f_equal (@effects unit) (@leave_twice _ Scenario.alice "doc-1" Hr)).
Defined.

Lemma join_then_leave_witness :
  Reachable Scenario.one_in_room /\
  presence_of Scenario.one_in_room "doc-1" (socket_id Scenario.bob) = None /\
  hasAccess Scenario.doc1 (socket_user Scenario.bob) = true /\
  is_socket_id "doc-1" = false /\
  world (on_leave_document Scenario.bob "doc-1"
           (world (on_join_document Scenario.bob "doc-1" "Bob"
                     (FindResolved (Some Scenario.doc1)) 1 Scenario.one_in_room)))
  = Scenario.one_in_room.
Proof.
  assert (Hr : Reachable Scenario.one_in_room) by exact one_in_room_reachable.
  assert (Hn : presence_of Scenario.one_in_room "doc-1" (socket_id Scenario.bob) = None)
    by reflexivity.
  assert (Ha : hasAccess Scenario.doc1 (socket_user Scenario.bob) = true)
    by reflexivity.
  assert (Hd : is_socket_id "doc-1" = false) by reflexivity.
  split; [exact Hr|]. split; [exact Hn|]. split; [exact Ha|]. split; [exact Hd|].
  exact (@join_then_leave _ Scenario.bob "doc-1" "Bob" 1 Scenario.doc1 Hr Hn Ha Hd).
Defined.

Lemma join_again_witness :
  Reachable Scenario.two_in_room /\
  In (socket_id Scenario.alice) (roster Scenario.two_in_room "doc-1") /\
  hasAccess Scenario.doc1 (socket_user Scenario.alice) = true /\
  roster (world (on_join_document Scenario.alice "doc-1" "Alice again"
                   (FindResolved (Some Scenario.doc1)) 2 Scenario.two_in_room)) "doc-1"
  = ["socket-alice-0000001"; "socket-bob-000000002"].
Proof.
  assert (Hr : Reachable Scenario.two_in_room) by exact two_in_room_reachable.
  assert (Hin : In (socket_id Scenario.alice) (roster Scenario.two_in_room "doc-1"))
    by (vm_compute; auto).
  assert (Ha : hasAccess Scenario.doc1 (socket_user Scenario.alice) = true)
    by reflexivity.
  split; [exact Hr|]. split; [exact Hin|]. split; [exact Ha|].
  exact (proj1 (@join_again _ Scenario.alice "doc-1" "Alice again" 2 Scenario.doc1
                  Hr Hin Ha)).
Defined.

Lemma outsider_relay_witness :
  Reachable Scenario.two_in_room /\
  is_socket_id (socket_id Scenario.carol) = true /\
  is_socket_id "doc-1" = false /\
  ~ In (socket_id Scenario.carol) (roster Scenario.two_in_room "doc-1") /\
  recipients (effects (on_text_change Scenario.carol "doc-1" "delta" "Hi"
                         Scenario.two_in_room))
  = ["socket-alice-0000001"; "socket-bob-000000002"] /\
  In (Emit "socket-bob-000000002" (EvTextChange "delta" "Hi" "user-3"))
     (effects (on_text_change Scenario.carol "socket-bob-000000002" "delta" "Hi"
                 Scenario.two_in_room)).
Proof.
  assert (Hr : Reachable Scenario.two_in_room) by exact two_in_room_reachable.
  assert (Hsid : is_socket_id (socket_id Scenario.carol) = true) by reflexivity.
  assert (Hdoc : is_socket_id "doc-1" = false) by reflexivity.
  assert (Hout : ~ In (socket_id Scenario.carol) (roster Scenario.two_in_room "doc-1")).
  { vm_compute. intros [H|[H|[]]]; discriminate H. }
  split; [exact Hr|]. split; [exact Hsid|]. split; [exact Hdoc|]. split; [exact Hout|].
  split.
  - exact (proj1 (proj1 (@outsider_relay _ Scenario.carol "doc-1" "delta" "Hi" 0%N
                           Hr Hsid) Hdoc Hout)).
  - apply (proj2 (@outsider_relay _ Scenario.carol "doc-1" "delta" "Hi" 0%N Hr Hsid)
                 Scenario.bob); [discriminate | reflexivity].
Defined.

Lemma disconnect_leaves_every_room_witness :
  Reachable Scenario.two_in_room /\
  roster (world (on_disconnect Scenario.alice Scenario.two_in_room)) "doc-1"
  = ["socket-bob-000000002"].
Proof.
  assert (Hr : Reachable Scenario.two_in_room) by exact two_in_room_reachable.
  split; [exact Hr|].
  exact (proj1 (@disconnect_leaves_every_room _ Scenario.alice "doc-1" Hr)).
Defined.

Lemma disconnect_notifications_witness :
  Reachable Scenario.two_in_room /\
  delivered "socket-bob-000000002" (effects (on_disconnect Scenario.alice Scenario.two_in_room))
  = [EvUserLeft "user-1" "Alice"].
Proof.
  assert (Hr : Reachable Scenario.two_in_room) by exact two_in_room_reachable.
  split; [exact Hr|].
  exact (@disconnect_notifications _ Scenario.alice "socket-bob-000000002" Hr).
Defined.

Lemma autosave_completion_witness :
  Reachable Session.after_edit /\
  registered Session.after_edit "doc-1" Session.hello_timer /\
  (timer_deadline Session.hello_timer <= now Session.after_edit)%N /\
  exists w2,
    run Session.after_edit [TimerFire 0; AutoSaveSettled 0 UpdateRejected]
    = Some (w2, [StoreUpdate "doc-1" "Hello"]) /\
    pending_timers w2 "doc-1" = [] /\
    autoSaveTimers w2 = autoSaveTimers Session.after_edit.
Proof.
  assert (Hr : Reachable Session.after_edit) by exact after_edit_reachable.
  assert (Hreg : registered Session.after_edit "doc-1" Session.hello_timer).
  { split; [reflexivity|]. eexists. split; reflexivity. }
  assert (Hdue : (timer_deadline Session.hello_timer <= now Session.after_edit)%N)
    by (vm_compute; discriminate).
  split; [exact Hr|]. split; [exact Hreg|]. split; [exact Hdue|].
  destruct (@autosave_completion _ "doc-1" Session.hello_timer UpdateRejected
              Scenario.bob "delta" "Hello!" Hr Hreg Hdue)
    as [w2 (Hrun & Hpend & Hsaves & _)].
  exists w2. split; [exact Hrun|]. split; [exact Hpend | exact Hsaves].
Defined.

Lemma presences_well_formed_witness :
  Reachable Scenario.two_in_room /\
  In "#4ECDC4" colors.
Proof.
  assert (Hr : Reachable Scenario.two_in_room) by exact two_in_room_reachable.
  split; [exact Hr|].
  exact (proj2 (@presences_well_formed _ "doc-1" "socket-bob-000000002" Hr)).
Defined.

Lemma other_documents_untouched_witness :
  Reachable Scenario.two_in_room /\
  Forall (fun sid => sid = "socket-alice-0000001" \/ In sid ["socket-alice-0000001"; "socket-bob-000000002"])
         (recipients (effects (on_text_change Scenario.alice "doc-1" "delta" "Hello"
                                 Scenario.two_in_room))).
Proof.
  assert (Hr : Reachable Scenario.two_in_room) by exact two_in_room_reachable.
  split; [exact Hr|].
  exact (proj1 (@other_documents_untouched _
                  (TextChange Scenario.alice "doc-1" "delta" "Hello") "doc-2" Hr)
               eq_refl).
Defined.

Lemma authorization_header_token_witness :
  truthy None = false /\
  spaceless "Bearer" = true /\
  spaceless "good" = true /\
  "good" <> EmptyString /\
  authenticate Session.accept_good None (mkHandshake None (Some "Bearer good"))
  = AuthNext (mkTokenPayload "user-1" "alice@example.org" None).
Proof.
  assert (H1 : truthy None = false) by reflexivity.
  assert (H2 : spaceless "Bearer" = true) by reflexivity.
  assert (H3 : spaceless "good" = true) by reflexivity.
  assert (H4 : "good" <> EmptyString) by discriminate.
  split; [exact H1|]. split; [exact H2|]. split; [exact H3|]. split; [exact H4|].
  exact (proj1 (@authorization_header_token Session.accept_good None None
                  "Bearer" "good" "" H1 H2 H3 H4)).
Defined.

Lemma auth_token_precedence_witness :
  "stale" <> EmptyString /\
  authenticate Session.accept_good None
    (mkHandshake (Some "stale") (Some "Bearer good"))
  = AuthError "Authentication error".
Proof.
  assert (H : "stale" <> EmptyString) by discriminate.
  split; [exact H|].
  exact (@auth_token_precedence Session.accept_good None "stale"
           (Some "Bearer good") H).
Defined.

Lemma malformed_header_refused_witness :
  truthy (Some EmptyString) = false /\
  spaceless "Bearer" = true /\
  authenticate (fun _ _ => Some (mkTokenPayload "user-1" "alice@example.org" None)) None
    (mkHandshake (Some EmptyString) (Some "Bearer  good"))
  = AuthError "Authentication error".
Proof.
  assert (H1 : truthy (Some EmptyString) = false) by reflexivity.
  assert (H2 : spaceless "Bearer" = true) by reflexivity.
  split; [exact H1|]. split; [exact H2|].
  exact (proj2 (proj2 (proj2
           (@malformed_header_refused
              (fun _ _ => Some (mkTokenPayload "user-1" "alice@example.org" None))
              None (Some EmptyString) "Bearer" "good" H1 H2)))).
Defined.

Lemma edit_implies_read_witness :
  status (fst (put_document (Some "user-2") true
                 (LoadResolved (Some Session.doc1_model)) (Some "Title") None
                 UpdateResolved UpdateResolved)) = 200 /\
  status (get_document (Some "user-2") (LoadResolved (Some Session.doc1_model))) = 200 /\
  hasAccess (stored Session.doc1_model) "user-2" = true.
Proof.
  assert (H : status (fst (put_document (Some "user-2") true
                             (LoadResolved (Some Session.doc1_model)) (Some "Title")
                             None UpdateResolved UpdateResolved)) = 200)
    by reflexivity.
  split; [exact H|].
  exact (@edit_implies_read "user-2" Session.doc1_model (Some "Title") None
           UpdateResolved UpdateResolved H).
Defined.

Lemma viewer_writes_through_socket_witness :
  model_owner Session.doc1_model <> socket_user Scenario.carol /\
  first_permission Session.doc1_model (socket_user Scenario.carol) = Some PermViewer /\
  put_document (Some "user-3") true (LoadResolved (Some Session.doc1_model))
               None (Some "Overwritten") UpdateResolved UpdateResolved
  = (mkResponse 403 (PayloadFailure "Not authorized to edit this document"), []) /\
  store_writes "doc-1"
    (effects (on_save_document Scenario.carol "doc-1" "Overwritten" UpdateResolved
                (world (on_join_document Scenario.carol "doc-1" "Carol"
                          (FindResolved (Some (stored Session.doc1_model))) 2
                          Scenario.two_in_room))))
  = ["Overwritten"].
Proof.
  assert (H1 : model_owner Session.doc1_model <> socket_user Scenario.carol)
    by discriminate.
  assert (H2 : first_permission Session.doc1_model (socket_user Scenario.carol)
               = Some PermViewer) by reflexivity.
  split; [exact H1|]. split; [exact H2|].
  destruct (@viewer_writes_through_socket Session.doc1_model Scenario.carol
              Scenario.two_in_room "doc-1" "Carol" "Overwritten" 2 None
              (Some "Overwritten") UpdateResolved UpdateResolved UpdateResolved H1 H2)
    as (Hput & _ & Hsave).
  split; [exact Hput | exact Hsave].
Defined.

Lemma owner_permission_is_not_ownership_witness :
  model_owner Session.doc1_model <> "user-2" /\
  first_permission Session.doc1_model "user-2" = Some PermOwner /\
  status (fst (delete_document (Some "user-2")
                 (LoadResolved (Some Session.doc1_model)) UpdateResolved)) = 403.
Proof.
  assert (H1 : model_owner Session.doc1_model <> "user-2") by discriminate.
  assert (H2 : first_permission Session.doc1_model "user-2" = Some PermOwner)
    by reflexivity.
  split; [exact H1|]. split; [exact H2|].
  exact (f_equal (fun r => status (fst r))
           (proj1 (proj2 (@owner_permission_is_not_ownership "user-2"
                            Session.doc1_model None None "abc" UpdateResolved None
                            H1 H2)))).
Defined.

Lemma share_is_stable_witness :
  model_owner Session.doc1_model = "user-1" /\
  "0123abcd" <> EmptyString /\
  exists token now_stored,
    fst (share_document (Some "user-1") (LoadResolved (Some Session.doc1_model))
           "0123abcd" UpdateResolved (Some "http://localhost:5173"))
    = mkResponse 200
        (PayloadShare (Some token)
           ("http://localhost:5173" ++ "/documents/shared/" ++ token)%string) /\
    share_document (Some "user-1") (LoadResolved (Some now_stored))
                   "ffff" UpdateResolved (Some "http://localhost:5173")
    = (mkResponse 200
         (PayloadShare (Some token)
            ("http://localhost:5173" ++ "/documents/shared/" ++ token)%string), []).
Proof.
  assert (H1 : model_owner Session.doc1_model = "user-1") by reflexivity.
  assert (H2 : "0123abcd" <> EmptyString) by discriminate.
  split; [exact H1|]. split; [exact H2|].
  destruct (@share_is_stable "user-1" Session.doc1_model "0123abcd"
              (Some "http://localhost:5173") H1 H2)
    as [token [now_stored (Hfirst & _ & _ & Hagain)]].
  exists token, now_stored. split; [exact Hfirst|].
  rewrite (Hagain "ffff" UpdateResolved). now rewrite Hfirst.
Defined.

(** * Debounce over time *)

Section TimedBurst.
Variable d : string.

Lemma timed_burst_run (edits : list Edit) : forall w (last : Edit),
  Reachable w ->
  pending_timers w d = [] \/ (exists t, registered w d t) ->
  exists w1 out t,
    run w (burst_events d (edits ++ [last])) = Some (w1, out) /\
    store_writes d out = [] /\
    Reachable w1 /\
    registered w1 d t /\
    timer_job t = mkAutoSaveJob d (edit_content last) (socket_user (edit_socket last)) /\
    timer_deadline t = (now w1 + AUTO_SAVE_DEBOUNCE_MS)%N.
Proof.
  assert (Hstep : forall w (e : Edit),
            Reachable w ->
            pending_timers w d = [] \/ (exists t, registered w d t) ->
            let w' := world (on_text_change (edit_socket e) d (edit_delta e)
                               (edit_content e) (with_now w (now w + edit_gap e))) in
            Reachable w' /\
            registered w' d
              (mkTimer (nextHandle w) (now w' + AUTO_SAVE_DEBOUNCE_MS)
                       (mkAutoSaveJob d (edit_content e) (socket_user (edit_socket e))))).
  { intros w e Hr Hp. cbn zeta.
    set (w0 := with_now w (now w + edit_gap e)).
    assert (Hr0 : Reachable w0).
    { exact (@Reachable_step w (Elapse (edit_gap e)) (mkOutcome tt w0 []) Hr eq_refl). }
    split.
    - exact (@Reachable_step w0
               (TextChange (edit_socket e) d (edit_delta e) (edit_content e))
               _ Hr0 eq_refl).
    - assert (Hp0 : pending_timers w0 d = [] \/ (exists t, registered w0 d t))
        by exact Hp.
      pose proof (text_change_rearms (edit_socket e) (edit_delta e) (edit_content e)
                    Hp0) as Hreg.
      rewrite text_change_world. rewrite text_change_world in Hreg. exact Hreg. }
  induction edits as [|e rest IH]; intros w last Hr Hp.
  - destruct (Hstep w last Hr Hp) as [Hr1 Hreg].
    eexists _, _, _. cbn [app burst_events flat_map run step well_formed handle world effects].
    split; [reflexivity|]. split; [|split; [exact Hr1|split; [exact Hreg|]]].
    + cbn [app]. rewrite app_nil_r, text_change_effects. apply store_writes_broadcast.
    + split; reflexivity.
  - destruct (Hstep w e Hr Hp) as [Hr1 Hreg].
    destruct (IH _ last Hr1 (or_intror (ex_intro _ _ Hreg)))
      as [w1 [out [t (Hrun & Hout & Hreach & Hreg1 & Hjob & Hdl)]]].
    exists w1, (effects (on_text_change (edit_socket e) d (edit_delta e)
                           (edit_content e) (with_now w (now w + edit_gap e))) ++ out), t.
    split; [|split; [|auto]].
    + cbn [app burst_events flat_map run step well_formed handle world effects].
      unfold burst_events in Hrun. rewrite Hrun. reflexivity.
    + rewrite store_writes_app, Hout, text_change_effects, store_writes_broadcast.
      reflexivity.
Qed.

(** A burst of edits of a document that has no armed timer, with time
    passing between the edits and nothing else happening: nothing is written
    during the burst and one timer is left armed.  That timer cannot fire
    until a full debounce interval has passed since the last edit; when it
    then fires it issues one store update, with the content of the last edit,
    and no timer remains for the document. *)
Theorem debounce_timed_burst (w : World) (edits : list Edit) (last : Edit) (ms : N) :
  Reachable w ->
  pending_timers w d = [] ->
  exists w1 out t,
    run w (burst_events d (edits ++ [last])) = Some (w1, out) /\
    store_writes d out = [] /\
    pending_timers w1 d = [t] /\
    if (ms <? AUTO_SAVE_DEBOUNCE_MS)%N
    then run w1 [Elapse ms; TimerFire (timer_handle t)] = None
    else exists w2,
        run w1 [Elapse ms; TimerFire (timer_handle t)]
        = Some (w2, [StoreUpdate d (edit_content last)]) /\
        pending_timers w2 d = [].
Proof.
  intros Hr Hp.
  destruct (@timed_burst_run edits w last Hr (or_introl Hp))
    as [w1 [out [t (Hrun & Hout & Hr1 & Hreg & Hjob & Hdl)]]].
  exists w1, out, t. split; [exact Hrun|]. split; [exact Hout|].
  split; [exact (proj1 Hreg)|].
  set (w2 := with_now w1 (now w1 + ms)).
  assert (Hr2 : Reachable w2).
  { exact (@Reachable_step w1 (Elapse ms) (mkOutcome tt w2 []) Hr1 eq_refl). }
  assert (Hreg2 : registered w2 d t) by exact Hreg.
  assert (Hin : In t (timers w2)).
  { destruct Hreg as [Hpt _]. unfold pending_timers in Hpt.
    assert (H : In t (filter (fun t0 => String.eqb (job_documentId (timer_job t0)) d)
                             (timers w1))) by (rewrite Hpt; now left).
    now apply filter_In in H. }
  cbn [run step well_formed handle world effects]. fold w2.
  destruct (N.ltb_spec ms AUTO_SAVE_DEBOUNCE_MS) as [Hlt|Hge].
  - assert (Hnone : step w2 (TimerFire (timer_handle t)) = None).
    { apply timer_not_due; auto. cbn. rewrite Hdl. lia. }
    unfold step in Hnone. cbn [well_formed handle] in Hnone. now rewrite Hnone.
  - destruct (registered_timer_fires Hr2 Hreg2) as [r (Hs & He & Hpend)].
    + cbn. rewrite Hdl. lia.
    + exists (world r). unfold step in Hs. cbn [well_formed handle] in Hs. rewrite Hs. split; [|exact Hpend].
      rewrite He, Hjob. reflexivity.
Qed.
End TimedBurst.

Lemma debounce_timed_burst_witness :
  Reachable initial /\
  pending_timers initial "doc-1" = [] /\
  exists w1 out t,
    run initial
        (burst_events "doc-1"
           ([mkEdit 0 Scenario.alice "d1" "H"; mkEdit 5000 Scenario.alice "d2" "He"]
            ++ [mkEdit 5000 Scenario.bob "d3" "Hey"]))
    = Some (w1, out) /\
    store_writes "doc-1" out = [] /\
    pending_timers w1 "doc-1" = [t] /\
    exists w2,
      run w1 [Elapse 30000; TimerFire (timer_handle t)]
      = Some (w2, [StoreUpdate "doc-1" "Hey"]) /\
      pending_timers w2 "doc-1" = [].
Proof.
  assert (Hp : pending_timers initial "doc-1" = []) by reflexivity.
  split; [exact Reachable_initial|]. split; [exact Hp|].
  destruct (@debounce_timed_burst "doc-1" initial
              [mkEdit 0 Scenario.alice "d1" "H"; mkEdit 5000 Scenario.alice "d2" "He"]
              (mkEdit 5000 Scenario.bob "d3" "Hey") 30000 Reachable_initial Hp)
    as [w1 [out [t (Hrun & Hout & Hpend & Hfire)]]].
  exists w1, out, t. split; [exact Hrun|]. split; [exact Hout|].
  split; [exact Hpend | exact Hfire].
Defined.

(** * The registry of pending saves *)

Lemma step_RegistryInv w e r :
  step w e = Some r -> TimersInv w -> RegistryInv w -> RegistryInv (world r).
Proof.
  assert (Hframe : forall w',
            autoSaveTimers w' = autoSaveTimers w ->
            (forall t, In t (timers w') -> In t (timers w)) ->
            nextHandle w' = nextHandle w -> RegistryInv w -> RegistryInv w').
  { intros w' Ha Ht Hn [H1 H2]. constructor; rewrite ?Ha, ?Hn; eauto. }
  intros Hstep0. apply step_handle in Hstep0 as [Hwf Hstep0]. revert Hstep0.
  destruct e as [socket d uName answer rnd | socket d delta content
                | socket d position | socket d content answer | socket d
                | socket | ms | h | h answer | socket]; cbn [handle].
  - intros [= <-] _ Hs. destruct answer as [[document|]|]; auto.
    destruct (hasAccess document (socket_user socket)) eqn:Hacc.
    + apply Hframe; auto; now rewrite join_admitted_world.
    + now rewrite join_denied.
  - intros [= <-] [_ Hbelow] [H1 H2]. rewrite text_change_world.
    assert (Hold : forall t,
              In t (cancel_registered (autoSaveTimers w) d (timers w)) ->
              In t (timers w)).
    { intros t. unfold cancel_registered.
      destruct (JsMap.get (autoSaveTimers w) d); auto.
      intros Hin. now apply filter_In in Hin. }
    rewrite Forall_forall in Hbelow.
    constructor; cbn [autoSaveTimers timers nextHandle].
    + intros d0 e0. destruct (string_dec d d0) as [<-|Hne].
      * rewrite JsMapFacts.get_set_same. intros [= <-]. cbn. split; auto.
      * rewrite JsMapFacts.get_set_other by auto. intros Hg.
        destruct (H1 _ _ Hg) as [Hd Hlt]. split; auto.
    + intros d0 e0 t. destruct (string_dec d d0) as [<-|Hne].
      * rewrite JsMapFacts.get_set_same. intros [= <-] Hin Hh. cbn in Hh.
        apply in_app_or in Hin as [Hin|[<-|[]]]; [|now cbn].
        apply Hold, Hbelow in Hin. rewrite Hh in Hin. exfalso.
        exact (Nat.lt_irrefl _ Hin).
      * rewrite JsMapFacts.get_set_other by auto. intros Hg Hin Hh.
        apply in_app_or in Hin as [Hin|[<-|[]]]; [eauto|].
        destruct (H1 _ _ Hg) as [_ Hlt]. cbn in Hh. rewrite <- Hh in Hlt.
        exfalso. exact (Nat.lt_irrefl _ Hlt).
  - intros [= <-] _ Hs. now rewrite cursor_move_world.
  - intros [= <-] _ Hs. now rewrite save_document_world.
  - intros [= <-] _ Hs. unfold on_leave_document.
    apply Hframe; auto; now rewrite handleUserLeave_world.
  - intros [= <-] _ Hs.
    destruct (disconnect_world socket w) as (Ha & _).
    constructor; rewrite Ha; discriminate.
  - intros [= <-] _ Hs. now apply Hframe.
  - destruct (find_timer h (timers w)) as [t|]; [|discriminate].
    destruct (N.leb (timer_deadline t) (now w)); [|discriminate].
    intros [= <-] _ Hs. apply Hframe; auto.
    cbn. intros t' Hin. now apply filter_In in Hin.
  - destruct (find_suspended h (suspended w)) as [job|]; [|discriminate].
    intros [= <-] _ [H1 H2]. destruct answer; cbn.
    + constructor; cbn.
      * intros d0 e0. destruct (string_dec (job_documentId job) d0) as [<-|Hne].
        -- now rewrite JsMapFacts.get_delete_same.
        -- rewrite JsMapFacts.get_delete_other by auto. apply H1.
      * intros d0 e0 t. destruct (string_dec (job_documentId job) d0) as [<-|Hne].
        -- now rewrite JsMapFacts.get_delete_same.
        -- rewrite JsMapFacts.get_delete_other by auto. apply H2.
    + constructor; cbn; auto.
  - intros [= <-] _ Hs. apply Hframe; auto; now rewrite connection_world.
Qed.

Lemma Reachable_RegistryInv w : Reachable w -> RegistryInv w.
Proof.
  induction 1 as [|w e r Hr IH Hstep].
  - constructor; cbn; discriminate.
  - eapply step_RegistryInv; eauto. now apply Reachable_TimersInv.
Qed.

(** In every reachable world a registry entry is filed under its own
    document, and while the timer it names is armed, that timer will write
    the registered content to that document. *)
Theorem registry_names_what_is_written (w : World) (d : string) :
  Reachable w ->
  match JsMap.get (autoSaveTimers w) d with
  | Some e =>
      save_documentId e = d /\
      match find_timer (timeout e) (timers w) with
      | Some t =>
          job_documentId (timer_job t) = d /\
          job_content (timer_job t) = save_content e
      | None => True
      end
  | None => True
  end.
Proof.
  intros Hr. pose proof (Reachable_RegistryInv Hr) as [H1 H2].
  destruct (JsMap.get (autoSaveTimers w) d) as [e|] eqn:Hg; auto.
  split; [apply (H1 _ _ Hg)|].
  destruct (find_timer (timeout e) (timers w)) as [t|] eqn:Hf; auto.
  apply find_some in Hf as [Hin Hh]. apply Nat.eqb_eq in Hh. eauto.
Qed.

Lemma registry_names_what_is_written_witness :
  Reachable Session.after_edit /\
  job_content (timer_job Session.hello_timer) = "Hello".
Proof.
  assert (Hr : Reachable Session.after_edit) by exact after_edit_reachable.
  split; [exact Hr|].
  exact (proj2 (proj2 (@registry_names_what_is_written _ "doc-1" Hr))).
Defined.

(** * Refresh tokens *)

(** When [JWT_SECRET] is set and [JWT_REFRESH_SECRET] is not, both kinds of
    token are checked against the same secret, and [verifyToken] does not
    look at the type: whatever [verifyRefreshToken] accepts, which is always
    a payload of type "refresh", [verifyToken] accepts too, and the
    connection middleware admits a connection that presents it. *)
Theorem refresh_token_opens_socket
    (jwt_verify : string -> string -> option TokenPayload)
    (secret refresh : option string) (token : string) (header : option string)
    (payload : TokenPayload) :
  truthy secret = true ->
  truthy refresh = false ->
  token <> EmptyString ->
  verifyRefreshToken jwt_verify secret refresh token = Some payload ->
  token_type payload = Some "refresh" /\
  verifyToken jwt_verify secret token = Some payload /\
  authenticate jwt_verify secret (mkHandshake (Some token) header) = AuthNext payload.
Proof.
  intros Hs Hr Hne Hv.
  assert (Hsame : verifyToken jwt_verify secret token = Some payload
                  /\ token_type payload = Some "refresh").
  { unfold verifyRefreshToken, verifyToken, verifyAccessToken, js_or in *.
    rewrite Hr, Hs in Hv. rewrite Hs.
    destruct secret as [secret|]; [|discriminate].
    destruct (jwt_verify token secret) as [p|]; [|discriminate].
    destruct (token_type p) as [type|] eqn:Ht; [|discriminate].
    destruct (String.eqb type "refresh") eqn:E; [|discriminate].
    apply String.eqb_eq in E. injection Hv as <-. subst type. auto. }
  destruct Hsame as [Hverify Htype]. split; [exact Htype|]. split; [exact Hverify|].
  rewrite auth_token_precedence by exact Hne.
  rewrite <- verifyToken_verdict. now rewrite Hverify.
Qed.

Lemma refresh_token_opens_socket_witness :
  truthy (Some "s3cret") = true /\
  truthy None = false /\
  "refresh-token" <> EmptyString /\
  authenticate
    (fun token secret =>
       if String.eqb token "refresh-token" && String.eqb secret "s3cret"
       then Some (mkTokenPayload "user-1" "alice@example.org" (Some "refresh"))
       else None)
    (Some "s3cret") (mkHandshake (Some "refresh-token") None)
  = AuthNext (mkTokenPayload "user-1" "alice@example.org" (Some "refresh")).
Proof.
  assert (H1 : truthy (Some "s3cret") = true) by reflexivity.
  assert (H2 : truthy None = false) by reflexivity.
  assert (H3 : "refresh-token" <> EmptyString) by discriminate.
  split; [exact H1|]. split; [exact H2|]. split; [exact H3|].
  exact (proj2 (proj2
           (@refresh_token_opens_socket
              (fun token secret =>
                 if String.eqb token "refresh-token" && String.eqb secret "s3cret"
                 then Some (mkTokenPayload "user-1" "alice@example.org" (Some "refresh"))
                 else None)
              (Some "s3cret") None "refresh-token" None
              (mkTokenPayload "user-1" "alice@example.org" (Some "refresh"))
              H1 H2 H3 eq_refl))).
Defined.
